(** * A shallow embedding of the tiny caching proxy (cache.c, cache.h, tinyproxy.c)

    The cache of [cache.c] is a circular doubly-linked list of heap blocks.
    The embedding keeps the pointers: the heap is a finite map from block
    addresses to [cblock] records, the global [cache] is a [cinfo] record, and
    every C function is a computation in a small state monad whose outcomes
    tell apart a normal return, a memory fault, a loop that is still running
    when the fuel is spent, and a thread blocked on the mutex.

    [ssize_t] and [size_t] fields are integers in [Z].  Signed overflow is
    undefined in C; all signed quantities below stay under [2^21] or count
    readers, so no wrap-around is written for them.  The unsigned counter
    [input_len] of [serve] wraps modulo [2^64] and is modelled that way. *)

From Stdlib Require Import ZArith Lia Ascii.
From stdpp Require Import base gmap list strings fin_maps pretty.

Open Scope Z_scope.
Set Warnings "-clear-no-such-hyp".

(** ** Constants of cache.h *)

Definition MAX_CACHE_SIZE : Z := 1024 * 1024.
Definition MAX_OBJECT_SIZE : Z := 100 * 1024.

(** ** Data *)

(** A non-null address of a [cblock]. *)
Abbreviation loc := positive (only parsing).

(** One octet of response text. *)
Abbreviation byte := Byte.byte (only parsing).

(** [struct cache_block].  [uri] and [text] are owned buffers; [None] is the
    null pointer that [block_empty] stores. *)
Record cblock := CBlock {
  text_len : Z;
  ref_cont : Z;
  next : loc;
  prev : loc;
  uri : option string;
  text : option (list byte)
}.

(** [struct cache_info]; [start = None] is [NULL]. *)
Record cinfo := CInfo {
  size : Z;
  start : option loc
}.

(** What the program does to the outside world, in order. *)
Inductive event :=
| EvWrite (fd : Z) (data : list byte) (ok : bool)
| EvOpen (host port : string) (fd : Z)
| EvClose (fd : Z)
| EvParserNew
| EvParserFree
| EvStdout (msg : string)
| EvStderr (msg : string).

(** The state shared by all code: the block heap, the global [cache]
    pointer ([None] before [cache_init] and after [cache_free]), the global
    [mutex], the outcomes of the coming [rio_writen] calls ([true] is a failed
    write; when the list is spent writes succeed) and the trace of events. *)
Record state := State {
  blocks : gmap positive cblock;
  cache : option cinfo;
  mutex : bool;
  wfail : list bool;
  trace : list event
}.

(** ** The monad *)

Inductive outcome (A : Type) :=
| Done (a : A) (s : state)
| Fault
| Timeout (s : state)
| Blocked (s : state).
Arguments Done {A} a s.
Arguments Fault {A}.
Arguments Timeout {A} s.
Arguments Blocked {A} s.

Definition M (A : Type) : Type := state -> outcome A.

Definition ret {A} (a : A) : M A := fun s => Done a s.

Definition bind {A B} (m : M A) (k : A -> M B) : M B :=
  fun s => match m s with
           | Done a s' => k a s'
           | Fault => Fault
           | Timeout s' => Timeout s'
           | Blocked s' => Blocked s'
           end.

Definition fault {A} : M A := fun _ => Fault.
Definition timeout {A} : M A := fun s => Timeout s.

Declare Scope cmd_scope.
Delimit Scope cmd_scope with cmd.
Notation "x <- m ;; k" := (bind m (fun x => k))
  (at level 100, m at next level, right associativity) : cmd_scope.
Notation "m ;; k" := (bind m (fun _ => k))
  (at level 100, right associativity) : cmd_scope.
Open Scope cmd_scope.

(** ** Memory and globals *)

Definition set_blocks (h : gmap positive cblock) (s : state) : state :=
  State h (cache s) (mutex s) (wfail s) (trace s).
Definition set_cache (c : option cinfo) (s : state) : state :=
  State (blocks s) c (mutex s) (wfail s) (trace s).
Definition set_mutex (b : bool) (s : state) : state :=
  State (blocks s) (cache s) b (wfail s) (trace s).
Definition emit (e : event) : M unit :=
  fun s => Done tt (State (blocks s) (cache s) (mutex s) (wfail s) (trace s ++ [e])).

(** [*p] for a block pointer: a freed or never allocated address faults. *)
Definition load (p : loc) : M cblock :=
  fun s => match blocks s !! p with
           | Some b => Done b s
           | None => Fault
           end.

Definition store (p : loc) (b : cblock) : M unit :=
  fun s => match blocks s !! p with
           | Some _ => Done tt (set_blocks (<[p := b]> (blocks s)) s)
           | None => Fault
           end.

(** Assignments to one field of a block. *)
Definition upd_text_len (v : Z) (b : cblock) : cblock :=
  CBlock v (ref_cont b) (next b) (prev b) (uri b) (text b).
Definition upd_ref_cont (v : Z) (b : cblock) : cblock :=
  CBlock (text_len b) v (next b) (prev b) (uri b) (text b).
Definition upd_next (v : loc) (b : cblock) : cblock :=
  CBlock (text_len b) (ref_cont b) v (prev b) (uri b) (text b).
Definition upd_prev (v : loc) (b : cblock) : cblock :=
  CBlock (text_len b) (ref_cont b) (next b) v (uri b) (text b).
Definition upd_uri (v : option string) (b : cblock) : cblock :=
  CBlock (text_len b) (ref_cont b) (next b) (prev b) v (text b).
Definition upd_text (v : option (list byte)) (b : cblock) : cblock :=
  CBlock (text_len b) (ref_cont b) (next b) (prev b) (uri b) v.

(** [p->field = v]. *)
Definition modify (p : loc) (f : cblock -> cblock) : M unit :=
  b <- load p ;; store p (f b).

Definition set_text_len (p : loc) (v : Z) : M unit := modify p (upd_text_len v).
Definition set_ref_cont (p : loc) (v : Z) : M unit := modify p (upd_ref_cont v).
Definition set_next (p : loc) (v : loc) : M unit := modify p (upd_next v).
Definition set_prev (p : loc) (v : loc) : M unit := modify p (upd_prev v).
Definition set_uri (p : loc) (v : option string) : M unit := modify p (upd_uri v).
Definition set_text (p : loc) (v : option (list byte)) : M unit := modify p (upd_text v).

(** [malloc_w(sizeof(cblock))]: an address that is not allocated. *)
Definition malloc_block : M loc :=
  fun s => let p := fresh (dom (blocks s)) in
           Done p (set_blocks (<[p := CBlock 0 0 p p None None]> (blocks s)) s).

(** [free(block)]. *)
Definition free_block (p : loc) : M unit :=
  fun s => match blocks s !! p with
           | Some _ => Done tt (set_blocks (delete p (blocks s)) s)
           | None => Fault
           end.

(** [*cache]. *)
Definition get_cache : M cinfo :=
  fun s => match cache s with
           | Some c => Done c s
           | None => Fault
           end.

Definition set_size (v : Z) : M unit :=
  c <- get_cache ;; fun s => Done tt (set_cache (Some (CInfo v (start c))) s).
Definition set_start (v : option loc) : M unit :=
  c <- get_cache ;; fun s => Done tt (set_cache (Some (CInfo (size c) v)) s).

(** [pthread_mutex_lock]: a thread that finds the mutex taken cannot go on. *)
Definition pthread_mutex_lock : M unit :=
  fun s => if mutex s then Blocked s else Done tt (set_mutex true s).
Definition pthread_mutex_unlock : M unit :=
  fun s => Done tt (set_mutex false s).

(** [rio_writen(fd, buf, n)]: the outcome comes from [wfail]; the call is
    recorded with the [n] bytes handed over.  Returns [n], or [-1]. *)
Definition rio_writen (fd : Z) (buf : list byte) (n : Z) : M Z :=
  fun s =>
    let data := take (Z.to_nat n) buf in
    match wfail s with
    | true :: w =>
        Done (-1) (State (blocks s) (cache s) (mutex s) w (trace s ++ [EvWrite fd data false]))
    | false :: w =>
        Done n (State (blocks s) (cache s) (mutex s) w (trace s ++ [EvWrite fd data true]))
    | [] =>
        Done n (State (blocks s) (cache s) (mutex s) [] (trace s ++ [EvWrite fd data true]))
    end.

(** ** cache.c *)

(** [cache_init]. *)
Definition cache_init : M unit :=
  fun s => Done tt (set_mutex false (set_cache (Some (CInfo 0 None)) s)).

(** [block_free]: the loop leaves only through the [ref_cont == 0] test. *)
Fixpoint block_free (fuel : nat) (block : loc) : M unit :=
  match fuel with
  | O => timeout
  | S f =>
      b <- load block ;;
      if ref_cont b =? 0 then free_block block
      else block_free f block
  end.

(** [block_empty]. *)
Definition block_empty : M loc :=
  block <- malloc_block ;;
  set_text_len block 0 ;;
  set_ref_cont block 0 ;;
  set_next block block ;;
  set_prev block block ;;
  set_uri block None ;;
  set_text block None ;;
  ret block.

(** [block_new]: [memcpy] reads [text_len] bytes of [text]; a length that is
    negative (a huge [size_t], [malloc_w] exits) or past the buffer faults. *)
Definition block_new (u : string) (txt : list byte) (len : Z) : M loc :=
  block <- block_empty ;;
  set_text_len block len ;;
  if (len <? 0) || (Z.of_nat (length txt) <? len) then fault
  else
    set_uri block (Some u) ;;
    set_text block (Some (take (Z.to_nat len) txt)) ;;
    ret block.

(** The [do ... while] of [cache_findblock]; [strcmp] on a null [uri]
    faults. *)
Fixpoint findblock_loop (fuel : nat) (u : string) (st curr : loc) : M (option loc) :=
  match fuel with
  | O => timeout
  | S f =>
      b <- load curr ;;
      match uri b with
      | None => fault
      | Some v =>
          if String.eqb u v then ret (Some curr)
          else if Pos.eqb (next b) st then ret None
               else findblock_loop f u st (next b)
      end
  end.

(** [cache_findblock]. *)
Definition cache_findblock (fuel : nat) (u : string) : M (option loc) :=
  c <- get_cache ;;
  match start c with
  | None => ret None
  | Some st => findblock_loop fuel u st st
  end.

(** [cache_addblock]. *)
Definition cache_addblock (block : loc) : M unit :=
  c <- get_cache ;;
  match start c with
  | None => set_start (Some block)
  | Some st =>
      set_next block st ;;
      sb <- load st ;;
      set_prev block (prev sb) ;;
      b <- load block ;;
      set_next (prev b) block ;;
      b <- load block ;;
      set_prev (next b) block ;;
      set_start (Some block)
  end ;;
  b <- load block ;;
  set_ref_cont block (ref_cont b + 1) ;;
  c <- get_cache ;;
  b <- load block ;;
  set_size (size c + text_len b).

(** [cache_remblock]. *)
Definition cache_remblock (fuel : nat) : M unit :=
  c <- get_cache ;;
  match start c with
  | None => fault
  | Some st =>
      sb <- load st ;;
      let rem := prev sb in
      rb <- load rem ;;
      let prev_new := prev rb in
      set_next prev_new st ;;
      set_prev st prev_new ;;
      c <- get_cache ;;
      rb <- load rem ;;
      set_size (size c - text_len rb) ;;
      c <- get_cache ;;
      (if decide (Some rem = start c) then set_start None else ret tt) ;;
      rb <- load rem ;;
      set_ref_cont rem (ref_cont rb - 1) ;;
      block_free fuel rem
  end.

(** The [while] of [cache_insert]. *)
Fixpoint downsize (fuel : nat) (len : Z) : M unit :=
  match fuel with
  | O => timeout
  | S f =>
      c <- get_cache ;;
      if size c + len >? MAX_CACHE_SIZE then
        cache_remblock f ;; downsize f len
      else ret tt
  end.

(** [cache_insert]. *)
Definition cache_insert (fuel : nat) (u : string) (txt : list byte) (len : Z) : M unit :=
  pthread_mutex_lock ;;
  block <- cache_findblock fuel u ;;
  match block with
  | None =>
      downsize fuel len ;;
      block <- block_new u txt len ;;
      cache_addblock block
  | Some _ => ret tt
  end ;;
  pthread_mutex_unlock.

(** [cache_gettext], lines 85 to 103: the first critical section. *)
Definition gettext_pin (fuel : nat) (u : string) : M (option loc) :=
  pthread_mutex_lock ;;
  r <- cache_findblock fuel u ;;
  match r with
  | None => pthread_mutex_unlock ;; ret None
  | Some block =>
      c <- get_cache ;;
      (if decide (Some block = start c) then
         b <- load block ;;
         set_ref_cont block (ref_cont b + 1)
       else
         b <- load block ;;
         set_prev (next b) (prev b) ;;
         b <- load block ;;
         set_next (prev b) (next b) ;;
         cache_addblock block ;;
         c <- get_cache ;;
         b <- load block ;;
         set_size (size c - text_len b)) ;;
      pthread_mutex_unlock ;;
      ret (Some block)
  end.

(** Line 104: the text goes out with no lock held. *)
Definition gettext_send (fd : Z) (block : loc) : M unit :=
  b <- load block ;;
  match text b with
  | None => if text_len b =? 0 then rio_writen fd [] 0 ;; ret tt else fault
  | Some t => rio_writen fd t (text_len b) ;; ret tt
  end.

(** Lines 107 to 109: the second critical section. *)
Definition gettext_unpin (block : loc) : M unit :=
  pthread_mutex_lock ;;
  b <- load block ;;
  set_ref_cont block (ref_cont b - 1) ;;
  pthread_mutex_unlock.

(** [cache_gettext]. *)
Definition cache_gettext (fuel : nat) (u : string) (fd : Z) : M bool :=
  r <- gettext_pin fuel u ;;
  match r with
  | None => ret false
  | Some block =>
      gettext_send fd block ;;
      gettext_unpin block ;;
      ret true
  end.

(** The [do ... while] of [cache_free]. *)
Fixpoint free_loop (fuel : nat) (curr : loc) : M unit :=
  match fuel with
  | O => timeout
  | S f =>
      cb <- load curr ;;
      let curr := next cb in
      cb <- load curr ;;
      block_free f (prev cb) ;;
      c <- get_cache ;;
      if decide (Some curr = start c) then ret tt
      else free_loop f curr
  end.

(** [cache_free]. *)
Definition cache_free (fuel : nat) : M unit :=
  c <- get_cache ;;
  match start c with
  | Some st => free_loop fuel st
  | None => ret tt
  end ;;
  fun s => Done tt (set_cache None s).

(** * tinyproxy.c *)

Definition CRLF : string := String "013"%char (String "010"%char EmptyString).
Definition NL : string := String "010"%char EmptyString.
Definition QUOTE : string := String "034"%char EmptyString.

(** The bytes of a C string, without its terminator. *)
Definition bytes (s : string) : list byte := String.list_byte_of_string s.

Definition header_user_agent : string :=
  "Mozilla/5.0" +:+ " (X11; Linux x86_64; rv:3.10.0)" +:+ " Gecko/20230411 Firefox/63.0.1".

(** [request_info].  The field [uri] is [req_uri] here, [uri] being the
    field of [cblock]. *)
Record request_info := Request {
  host : string;
  port : string;
  path : string;
  method : string;
  req_uri : string
}.

(** ** The parser of http_parser.h *)

(** Modelled from the spec: [header_t], a header name with its value. *)
Record header_t := Header {
  h_name : string;
  h_value : string
}.

(** Modelled from the spec: the three answers of [parser_parse_line]. *)
Inductive parser_state := REQUEST | HEADER | ERROR.

(** Modelled from the spec: what the parser makes of one raw line.  The
    tokenizer is not part of this program; each line a client sends comes
    with the parser's reading of it. *)
Inductive token :=
| TRequest (r : request_info)
| THeader (h : header_t)
| TError.

(** Modelled from the spec: [parser_t], the request fields once a request
    line has been absorbed, and the headers in the order they came. *)
Record parser_t := Parser {
  p_request : option request_info;
  p_headers : list header_t
}.

(** Modelled from the spec: [parser_parse_line] classifies one line and
    absorbs it. *)
Definition parser_parse_line (p : parser_t) (t : token) : parser_t * parser_state :=
  match t with
  | TRequest r => (Parser (Some r) (p_headers p), REQUEST)
  | THeader h => (Parser (p_request p) (p_headers p ++ [h]), HEADER)
  | TError => (p, ERROR)
  end.

(** Modelled from the spec: [parser_retrieve] for HOST, PORT, PATH, METHOD
    and URI at once; before a request line the fields are not set. *)
Definition parser_retrieve (p : parser_t) : request_info :=
  default (Request EmptyString EmptyString EmptyString EmptyString EmptyString)
          (p_request p).

(** Modelled from the spec: [parser_lookup_header], the header of that name
    or absent. *)
Definition parser_lookup_header (p : parser_t) (name : string) : option header_t :=
  List.find (fun h => String.eqb (h_name h) name) (p_headers p).

(** What one connection meets: the peer as [getnameinfo] resolves it (or
    the message of [gai_strerror]), the lines the client sends, the origin
    server as [open_clientfd] finds it (its descriptor and the bytes that
    come from it), whether the stream from the origin ends in a read error
    rather than in the end of the response, and what the stack holds where
    [write_header] puts its buffer. *)
Record env := Env {
  peer : (string * string) + string;
  client_lines : list (string * token);
  origin : option (Z * list byte);
  read_err : bool;
  stack : list byte
}.

Definition parser_new : M parser_t :=
  emit EvParserNew ;; ret (Parser None []).
Definition parser_free (p : parser_t) : M unit := emit EvParserFree.
Definition close (fd : Z) : M unit := emit (EvClose fd).

(** [open_clientfd]: the descriptor, or [-1]. *)
Definition open_clientfd (o : option (Z * list byte)) (h p : string) : M Z :=
  match o with
  | Some (fd, _) => emit (EvOpen h p fd) ;; ret fd
  | None => ret (-1)
  end.

(** Modelled from the spec: [rio_readnb] of csapp.c, which is not among the
    sources.  It reads until it has [n] bytes: the count is [n] while the
    stream has that many left, a lower count when the end of the response
    comes first, and [-1] when a read fails first, whatever it had read in
    that call.  [rest] is what the stream still holds and [err] says that
    it ends in a failed read. *)
Definition rio_readnb (rest : list byte) (err : bool) (n : Z) : Z * list byte :=
  let buf := take (Z.to_nat n) rest in
  if err && (Z.of_nat (length buf) <? n) then (-1, buf)
  else (Z.of_nat (length buf), buf).

Section Proxy.

(** [MAXLINE] and [MAXBUF] come from csapp.h, which is not among the
    sources. *)
Variable MAXLINE : Z.
Variable MAXBUF : Z.

(** [sprintf(buf, ...)] with the formatted string [s]: the string and its
    terminator overwrite the start of [buf], the rest of [buf] stays.
    Returns the length of [s].  Writing past [MAXLINE] bytes faults. *)
Definition sprintf (buf : list byte) (s : string) : M (list byte * Z) :=
  let b := bytes s in
  if MAXLINE <? Z.of_nat (length b) + 1 then fault
  else ret (b ++ [Byte.x00] ++ drop (S (length b)) buf, Z.of_nat (length b)).

(** [clienterror]. *)
Definition clienterror (fd : Z) (errnum shortmsg longmsg : string) : M unit :=
  let body :=
    "<!DOCTYPE html>" +:+ CRLF +:+
    "<html>" +:+ CRLF +:+
    "<head><title>Tiny Error</title></head>" +:+ CRLF +:+
    "<body bgcolor=" +:+ QUOTE +:+ "ffffff" +:+ QUOTE +:+ ">" +:+ CRLF +:+
    "<h1>" +:+ errnum +:+ ": " +:+ shortmsg +:+ "</h1>" +:+ CRLF +:+
    "<p>" +:+ longmsg +:+ "</p>" +:+ CRLF +:+
    "<hr /><em>The Tiny Web server</em>" +:+ CRLF +:+
    "</body></html>" +:+ CRLF in
  let bodylen := Z.of_nat (String.length body) in
  if MAXBUF <=? bodylen then ret tt
  else
    let buf :=
      "HTTP/1.0 " +:+ errnum +:+ " " +:+ shortmsg +:+ CRLF +:+
      "Content-Type: text/html" +:+ CRLF +:+
      "Content-Length: " +:+ pretty bodylen +:+ CRLF +:+ CRLF in
    let buflen := Z.of_nat (String.length buf) in
    if MAXLINE <=? buflen then ret tt
    else
      w <- rio_writen fd (bytes buf) buflen ;;
      if w <? 0 then
        emit (EvStderr ("Error writing error response headers to client" +:+ NL))
      else
        w <- rio_writen fd (bytes body) bodylen ;;
        if w <? 0 then
          emit (EvStderr ("Error writing error response body to client" +:+ NL))
        else ret tt.

(** [confirm_connection]. *)
Definition confirm_connection (p : (string * string) + string) : M unit :=
  match p with
  | inl (h, s) =>
      emit (EvStdout ("Accepted connection from " +:+ h +:+ ":" +:+ s +:+ NL))
  | inr msg => emit (EvStderr ("getnameinfo failed: " +:+ msg +:+ NL))
  end.

(** The [do ... while] of [parse_request]: header lines up to the empty
    line. *)
Fixpoint read_headers (lines : list (string * token)) (parser : parser_t) : M (Z * parser_t) :=
  match lines with
  | [] => emit (EvStderr ("File read error." +:+ NL)) ;; ret (-1, parser)
  | (buf, t) :: rest =>
      if String.eqb buf CRLF then ret (0, parser)
      else read_headers rest (fst (parser_parse_line parser t))
  end.

(** [parse_request]. *)
Definition parse_request (lines : list (string * token)) (connfd : Z)
    (parser : parser_t) : M (Z * parser_t * request_info) :=
  match lines with
  | [] =>
      emit (EvStderr ("File read error." +:+ NL)) ;;
      ret (-1, parser, parser_retrieve parser)
  | (buf, t) :: rest =>
      let '(parser, parse_state) := parser_parse_line parser t in
      match parse_state with
      | REQUEST =>
          let request := parser_retrieve parser in
          r <- read_headers rest parser ;;
          ret (fst r, snd r, request)
      | _ =>
          clienterror connfd "400" "Bad Request" "Tiny received a malformed request" ;;
          ret (-1, parser, parser_retrieve parser)
      end
  end.

(** The [while] of [write_header] over the headers of the parser. *)
Fixpoint write_lines (fd_server : Z) (hs : list header_t) (buf : list byte)
    (buf_len : Z) : M (Z * list byte * Z) :=
  match hs with
  | [] => ret (0, buf, buf_len)
  | line :: rest =>
      let has_host := negb (String.eqb (h_name line) "Host") in
      let has_usag := negb (String.eqb (h_name line) "User-Agent") in
      let has_conn := negb (String.eqb (h_name line) "Connection") in
      let has_pxyc := negb (String.eqb (h_name line) "Proxy-Connection") in
      if has_host && has_usag && has_conn && has_pxyc then
        r <- sprintf buf (h_name line +:+ ": " +:+ h_value line +:+ CRLF) ;;
        w <- rio_writen fd_server (fst r) (snd r) ;;
        if w <? 0 then ret (-1, fst r, snd r)
        else write_lines fd_server rest (fst r) (snd r)
      else write_lines fd_server rest buf buf_len
  end.

(** [write_header].  [junk] is what [buf] holds on entry.  The last
    [sprintf] does not assign [buf_len]. *)
Definition write_header (junk : list byte) (fd_server : Z)
    (request : request_info) (parser : parser_t) : M Z :=
  r <- sprintf junk (method request +:+ " " +:+ path request +:+ " HTTP/1.0" +:+ CRLF) ;;
  w <- rio_writen fd_server (fst r) (snd r) ;;
  if w <? 0 then ret (-1)
  else
    let line := parser_lookup_header parser "Host" in
    let connection := "Connection: close" +:+ CRLF in
    let proxy_conn := "Proxy-Connection: close" +:+ CRLF in
    r <- match line with
         | None =>
             sprintf (fst r)
               ("Host: " +:+ host request +:+ ":" +:+ port request +:+ CRLF +:+
                "User-Agent: " +:+ header_user_agent +:+ CRLF +:+
                connection +:+ proxy_conn)
         | Some l =>
             sprintf (fst r)
               ("Host: " +:+ h_value l +:+ CRLF +:+
                "User-Agent: " +:+ header_user_agent +:+ CRLF +:+
                connection +:+ proxy_conn)
         end ;;
    w <- rio_writen fd_server (fst r) (snd r) ;;
    if w <? 0 then ret (-1)
    else
      r <- write_lines fd_server (p_headers parser) (fst r) (snd r) ;;
      let '(st, buf, buf_len) := r in
      if st <? 0 then ret (-1)
      else
        r <- sprintf buf CRLF ;;
        w <- rio_writen fd_server (fst r) buf_len ;;
        if w <? 0 then ret (-1) else ret 0.

(** The [while] of [serve]: [rio_readnb] hands over the response in pieces
    of at most [MAXLINE] bytes; the loop ends when the count is not
    positive, at the end of the response and after a failed read alike.
    [cache_input] is the written part of the array of that name,
    [input_len] a [size_t]. *)
Fixpoint relay (fuel : nat) (connfd : Z) (rest : list byte) (err : bool)
    (cache_input : list byte) (input_len : Z) : M (option (list byte * Z)) :=
  match fuel with
  | O => timeout
  | S f =>
      let '(buf_len, buf) := rio_readnb rest err MAXLINE in
      if 0 <? buf_len then
        w <- rio_writen connfd buf buf_len ;;
        if w <? 0 then
          clienterror connfd "400" "Write error" "Error writing response to client" ;;
          ret None
        else
          let input_len := (input_len + buf_len) mod 2 ^ 64 in
          if input_len <? MAX_OBJECT_SIZE then
            relay f connfd (drop (Z.to_nat MAXLINE) rest) err (cache_input ++ buf) input_len
          else
            relay f connfd (drop (Z.to_nat MAXLINE) rest) err cache_input input_len
      else ret (Some (cache_input, input_len))
  end.

(** [serve].  [None] from [relay] is the [return] of line 245. *)
Definition serve (fuel : nat) (e : env) (connfd : Z) : M unit :=
  confirm_connection (peer e) ;;
  parser <- parser_new ;;
  r <- parse_request (client_lines e) connfd parser ;;
  let '(st, parser, request) := r in
  if st <? 0 then parser_free parser
  else
    hit <- cache_gettext fuel (req_uri request) connfd ;;
    if hit : bool then parser_free parser
    else
      fd_server <- open_clientfd (origin e) (host request) (port request) ;;
      if fd_server <? 0 then
        emit (EvStderr ("Could not connect to " +:+ host request +:+ ":" +:+ port request)) ;;
        close fd_server ;;
        parser_free parser
      else
        w <- write_header (stack e) fd_server request parser ;;
        if w <? 0 then
          close fd_server ;;
          parser_free parser
        else
          r <- relay fuel connfd (from_option snd [] (origin e)) (read_err e) [] 0 ;;
          match r with
          | None => ret tt
          | Some (cache_input, input_len) =>
              (if input_len <? MAX_OBJECT_SIZE then
                 cache_insert fuel (req_uri request) cache_input input_len
               else ret tt) ;;
              close fd_server ;;
              parser_free parser
          end.

(** [thread]. *)
Definition thread (fuel : nat) (e : env) (connfd : Z) : M unit :=
  serve fuel e connfd ;;
  close connfd.

End Proxy.

(** ** Reading the list back

    The blocks of the cache in list order, found as the code finds them: from
    [cache->start] along [next] until [start] comes round again. *)

Fixpoint walk (h : gmap positive cblock) (st : loc) (fuel : nat) (curr : loc) : list loc :=
  match fuel with
  | O => []
  | S f =>
      curr :: match h !! curr with
              | Some b => if Pos.eqb (next b) st then [] else walk h st f (next b)
              | None => []
              end
  end.

Definition cache_list (s : state) : list loc :=
  match cache s with
  | Some c =>
      match start c with
      | Some st => walk (blocks s) st (base.size (blocks s)) st
      | None => []
      end
  | None => []
  end.

(** The keys of the cache, most recently used first. *)
Definition cache_keys (s : state) : list string :=
  omap (fun p => blocks s !! p ≫= uri) (cache_list s).

(** The sum of [text_len] over the blocks of the list. *)
Definition sum_len (h : gmap positive cblock) (ps : list loc) : Z :=
  foldr (fun p acc => from_option text_len 0 (h !! p) + acc) 0 ps.

Definition cache_bytes (s : state) : Z := sum_len (blocks s) (cache_list s).

(** The process before [main] has called [cache_init]. *)
Definition boot (w : list bool) : state := State ∅ None false w [].

(** * What the proofs speak of *)

(** ** The payload of a block

    What the link operations leave alone: the length, the count, the key and
    the text of a block. *)

Record entry := Entry {
  e_len : Z;
  e_ref : Z;
  e_uri : option string;
  e_text : option (list byte)
}.

Definition entry_of (b : cblock) : entry :=
  Entry (text_len b) (ref_cont b) (uri b) (text b).

Definition payload (h : gmap positive cblock) : gmap positive entry :=
  entry_of <$> h.

(** ** The shape of the list *)

(** [seg h pv ps nx]: the blocks at [ps] are chained through [next] and
    [prev]; the first points back to [pv], the last points on to [nx]. *)
Fixpoint seg (h : gmap positive cblock) (pv : loc) (ps : list loc) (nx : loc) : Prop :=
  match ps with
  | [] => True
  | p :: r =>
      exists b, h !! p = Some b /\ prev b = pv /\ next b = default nx (head r)
                /\ seg h p r nx
  end.

(** The circular list: the last block points on to the first, the first
    back to the last. *)
Definition links (h : gmap positive cblock) (ps : list loc) : Prop :=
  match ps with
  | [] => True
  | p :: _ => seg h (default p (last ps)) ps p
  end.

(** ** Keys, lengths and readers *)

(** The first block of [ps] whose key is [u]. *)
Fixpoint find_uri (h : gmap positive cblock) (u : string) (ps : list loc) : option loc :=
  match ps with
  | [] => None
  | p :: r => if decide (h !! p ≫= uri = Some u) then Some p else find_uri h u r
  end.

(** Every allocated block carries a key. *)
Definition keyed (h : gmap positive cblock) : Prop :=
  forall p b, h !! p = Some b -> is_Some (uri b).

(** The lengths of the blocks at [ps], added up. *)
Definition psum (d : gmap positive entry) (ps : list loc) : Z :=
  foldr (fun p acc => from_option e_len 0 (d !! p) + acc) 0 ps.

(** How many readers hold block [p]. *)
Definition pin_count (pins : list loc) (p : loc) : Z :=
  Z.of_nat (length (filter (fun q => q = p) pins)).

(** ** The invariant of the cache *)

(** What holds of the payloads [d] of the blocks at [ps] while the readers
    of [pins] are between the two critical sections of [cache_gettext]. *)
Record data_ok (d : gmap positive entry) (pins ps : list loc) : Prop := {
  d_dom : dom d = list_to_set ps;
  d_entry : forall p e, d !! p = Some e ->
    is_Some (e_uri e)
    /\ (exists tx, e_text e = Some tx /\ e_len e = Z.of_nat (length tx))
    /\ e_ref e = 1 + pin_count pins p;
  d_keys : forall p q e1 e2,
    d !! p = Some e1 -> d !! q = Some e2 -> e_uri e1 = e_uri e2 -> p = q;
  d_pins : forall p, p ∈ pins -> p ∈ ps
}.

(** The cache while no thread is inside a critical section: [ps] are its
    blocks in list order. *)
Definition cache_inv (s : state) (pins ps : list loc) : Prop :=
  exists c,
    cache s = Some c /\ start c = head ps
    /\ size c = psum (payload (blocks s)) ps
    /\ size c <= MAX_CACHE_SIZE
    /\ mutex s = false
    /\ links (blocks s) ps /\ NoDup ps
    /\ data_ok (payload (blocks s)) pins ps.

(** An outcome that did not run out of fuel. *)
Definition final {A} (r : outcome A) : Prop :=
  match r with
  | Timeout _ => False
  | _ => True
  end.

(** ** Interleavings

    All accesses to the list and to the counts are inside the two critical
    sections of [cache_gettext] and the one of [cache_insert], so a run of
    any number of threads is a sequence of whole critical sections.  [pins]
    lists the blocks that readers hold between their two sections. *)

Inductive step : state * list loc -> state * list loc -> Prop :=
| step_insert s pins fuel u txt len s' :
    0 <= len <= Z.of_nat (length txt) -> len <= MAX_CACHE_SIZE ->
    cache_insert fuel u txt len s = Done tt s' ->
    step (s, pins) (s', pins)
| step_pin s pins fuel u p s' :
    gettext_pin fuel u s = Done (Some p) s' ->
    step (s, pins) (s', p :: pins)
| step_miss s pins fuel u s' :
    gettext_pin fuel u s = Done None s' ->
    step (s, pins) (s', pins)
| step_send s pins fd p s' :
    p ∈ pins -> gettext_send fd p s = Done tt s' ->
    step (s, pins) (s', pins)
| step_unpin s k1 p k2 s' :
    gettext_unpin p s = Done tt s' ->
    step (s, k1 ++ p :: k2) (s', k1 ++ k2)
| step_evict s pins fuel s' :
    cache_remblock fuel s = Done tt s' ->
    step (s, pins) (s', pins)
| step_io s pins w t :
    step (s, pins) (State (blocks s) (cache s) (mutex s) w t, pins).

Inductive reachable : state -> list loc -> Prop :=
| reach_init w s :
    cache_init (boot w) = Done tt s -> reachable s []
| reach_step s pins s' pins' :
    reachable s pins -> step (s, pins) (s', pins') -> reachable s' pins'.

(** ** The list the ring stands for

    Seen from outside the cache is a list of keys with their bytes, most
    recently used first.  [cache_view] reads that list off the heap;
    [lru_insert] and [lru_touch] say what an LRU cache of [MAX_CACHE_SIZE]
    bytes does to it. *)

Definition block_view (b : cblock) : option (string * list byte) :=
  match uri b, text b with
  | Some u, Some t => Some (u, t)
  | _, _ => None
  end.

Definition cache_view (s : state) : list (string * list byte) :=
  omap (fun p => blocks s !! p ≫= block_view) (cache_list s).

Definition vsum (v : list (string * list byte)) : Z :=
  foldr (fun e acc => Z.of_nat (length e.2) + acc) 0 v.

(** Drop entries, least recently used first, until [len] more bytes fit.
    The argument lists the least recently used entry first. *)
Fixpoint trim_lru (len : Z) (rv : list (string * list byte)) : list (string * list byte) :=
  match rv with
  | [] => []
  | e :: r => if vsum (e :: r) + len >? MAX_CACHE_SIZE then trim_lru len r
              else e :: r
  end.

Fixpoint lru_lookup (u : string) (v : list (string * list byte)) : option (list byte) :=
  match v with
  | [] => None
  | e :: r => if decide (e.1 = u) then Some e.2 else lru_lookup u r
  end.

Fixpoint lru_remove (u : string) (v : list (string * list byte)) : list (string * list byte) :=
  match v with
  | [] => []
  | e :: r => if decide (e.1 = u) then r else e :: lru_remove u r
  end.

(** Insertion: nothing if the key is there; else evict, then put in front. *)
Definition lru_insert (u : string) (bytes : list byte)
    (v : list (string * list byte)) : list (string * list byte) :=
  match lru_lookup u v with
  | Some _ => v
  | None =>
      (u, bytes) :: reverse (trim_lru (Z.of_nat (length bytes)) (reverse v))
  end.

(** A hit moves the entry to the front. *)
Definition lru_touch (u : string) (v : list (string * list byte)) : list (string * list byte) :=
  match lru_lookup u v with
  | Some t => (u, t) :: lru_remove u v
  | None => v
  end.

Definition entry_view (e : entry) : option (string * list byte) :=
  match e_uri e, e_text e with
  | Some u, Some t => Some (u, t)
  | _, _ => None
  end.

Definition view (d : gmap positive entry) (ps : list loc) : list (string * list byte) :=
  omap (fun p => d !! p ≫= entry_view) ps.

(** Every block of [ps] has a key and a text as long as its [text_len]. *)
Definition listed (d : gmap positive entry) (ps : list loc) : Prop :=
  forall p, p ∈ ps ->
    exists e u tx, d !! p = Some e /\ e_uri e = Some u /\ e_text e = Some tx
                   /\ e_len e = Z.of_nat (length tx).

(** ** Reading a trace *)

(** The bytes that reached [fd]: the data of the writes to it that went
    through, in order. *)
Definition written (fd : Z) (tr : list event) : list byte :=
  flat_map (fun ev => match ev with
                      | EvWrite fd' data true => if fd =? fd' then data else []
                      | _ => []
                      end) tr.

(** What a trace says of the parser and of a descriptor. *)
Definition parser_made (tr : list event) : bool :=
  existsb (fun ev => match ev with EvParserNew => true | _ => false end) tr.
Definition parser_freed (tr : list event) : bool :=
  existsb (fun ev => match ev with EvParserFree => true | _ => false end) tr.
Definition opened (fd : Z) (tr : list event) : bool :=
  existsb (fun ev => match ev with EvOpen _ _ fd' => fd =? fd' | _ => false end) tr.
Definition closed (fd : Z) (tr : list event) : bool :=
  existsb (fun ev => match ev with EvClose fd' => fd =? fd' | _ => false end) tr.

(** ** The header block on the wire *)

(** The header block the origin is to receive, as the wire protocol words
    it: the request line, [Host], the fixed [User-Agent],
    [Connection: close], [Proxy-Connection: close], the other headers of the
    client in their order, and the empty line. *)
Definition origin_header (request : request_info) (parser : parser_t) : string :=
  method request +:+ " " +:+ path request +:+ " HTTP/1.0" +:+ CRLF +:+
  "Host: " +:+
  match parser_lookup_header parser "Host" with
  | Some l => h_value l
  | None => host request +:+ ":" +:+ port request
  end +:+ CRLF +:+
  "User-Agent: " +:+ header_user_agent +:+ CRLF +:+
  "Connection: close" +:+ CRLF +:+
  "Proxy-Connection: close" +:+ CRLF +:+
  foldr (fun h acc => h_name h +:+ ": " +:+ h_value h +:+ CRLF +:+ acc) EmptyString
    (filter (fun h => h_name h ∉ ["Host"; "User-Agent"; "Connection"; "Proxy-Connection"])
       (p_headers parser)) +:+
  CRLF.

(** ** The pieces of the header block, as [write_header] formats them *)

(** The request line as [write_header] formats it. *)
Definition request_line (request : request_info) : string :=
  method request +:+ " " +:+ path request +:+ " HTTP/1.0" +:+ CRLF.

(** The second piece that [write_header] formats: [Host], [User-Agent],
    [Connection] and [Proxy-Connection]. *)
Definition host_block (request : request_info) (parser : parser_t) : string :=
  match parser_lookup_header parser "Host" with
  | None =>
      "Host: " +:+ host request +:+ ":" +:+ port request +:+ CRLF +:+
      "User-Agent: " +:+ header_user_agent +:+ CRLF +:+
      ("Connection: close" +:+ CRLF) +:+ ("Proxy-Connection: close" +:+ CRLF)
  | Some l =>
      "Host: " +:+ h_value l +:+ CRLF +:+
      "User-Agent: " +:+ header_user_agent +:+ CRLF +:+
      ("Connection: close" +:+ CRLF) +:+ ("Proxy-Connection: close" +:+ CRLF)
  end.

(** A header of the client as [write_header] formats it. *)
Definition header_line (h : header_t) : string :=
  h_name h +:+ ": " +:+ h_value h +:+ CRLF.

(** The test of the [while] of [write_header]: none of the four [strcmp]
    is zero. *)
Definition passes (h : header_t) : bool :=
  negb (String.eqb (h_name h) "Host") && negb (String.eqb (h_name h) "User-Agent")
  && negb (String.eqb (h_name h) "Connection")
  && negb (String.eqb (h_name h) "Proxy-Connection").

(** The line that [buf_len] is left from when the empty line is written. *)
Definition last_line (request : request_info) (parser : parser_t) : string :=
  default (host_block request parser)
          (last (map header_line (List.filter passes (p_headers parser)))).

(** Every line that [write_header] formats fits in [buf] with its
    terminator. *)
Definition header_fits (MAXLINE : Z) (request : request_info) (parser : parser_t) : Prop :=
  Z.of_nat (String.length (request_line request)) + 1 <= MAXLINE
  /\ Z.of_nat (String.length (host_block request parser)) + 1 <= MAXLINE
  /\ Forall (fun h => Z.of_nat (String.length (header_line h)) + 1 <= MAXLINE)
       (List.filter passes (p_headers parser)).

(** ** What the proxy leaves alone *)

(** The cache is the same in both states: the heap, the header and the
    mutex. *)
Definition same_cache (s s' : state) : Prop :=
  blocks s' = blocks s /\ cache s' = cache s /\ mutex s' = mutex s.

(** ** Lines of a client, and the answer to a bad request line *)

(** The lines of a client after the request line: headers, each with the
    line it came on, and the empty line. *)
Definition header_lines (hs : list (string * header_t)) : list (string * token) :=
  map (fun rh => (rh.1, THeader rh.2)) hs.

(** The answer to a request line that does not parse: the status line and
    headers, and the page. *)
Definition bad_request_head : string :=
  "HTTP/1.0 400 Bad Request" +:+ CRLF +:+
  "Content-Type: text/html" +:+ CRLF +:+
  "Content-Length: 211" +:+ CRLF +:+ CRLF.

Definition bad_request_body : string :=
  "<!DOCTYPE html>" +:+ CRLF +:+
  "<html>" +:+ CRLF +:+
  "<head><title>Tiny Error</title></head>" +:+ CRLF +:+
  "<body bgcolor=" +:+ QUOTE +:+ "ffffff" +:+ QUOTE +:+ ">" +:+ CRLF +:+
  "<h1>400: Bad Request</h1>" +:+ CRLF +:+
  "<p>Tiny received a malformed request</p>" +:+ CRLF +:+
  "<hr /><em>The Tiny Web server</em>" +:+ CRLF +:+
  "</body></html>" +:+ CRLF.

(** ** States and inputs that the theorems are tried on *)

(** A small cache: one entry of one byte. *)
Definition one_entry : state :=
  State {[1%positive := CBlock 1 1 1 1 (Some "/a") (Some [Byte.x41])]}
        (Some (CInfo 1 (Some 1%positive))) false [] [].

(** A text of [MAX_CACHE_SIZE - 2] bytes. *)
Definition big_text : list byte := replicate (Z.to_nat 1048574) Byte.x41.

(** One [cache_insert] after the other, all with the same text. *)
Fixpoint insert_all (fuel : nat) (us : list string) (txt : list byte) (len : Z) : M unit :=
  match us with
  | [] => ret tt
  | u :: r => cache_insert fuel u txt len ;; insert_all fuel r txt len
  end.

(** An object of the largest size that [serve] caches. *)
Definition obj : list byte := replicate (Z.to_nat 102399) Byte.x41.

(** A request for [http://example.org/a.html], from a client on descriptor
    4 to an origin on descriptor 5. *)
Definition req_a : request_info :=
  Request "example.org" "80" "/a.html" "GET" "http://example.org/a.html".

(** The lines of the client, each with what the parser reads in it. *)
Definition lines_a : list (string * token) :=
  [("GET http://example.org/a.html HTTP/1.1" +:+ CRLF, TRequest req_a);
   ("Accept: */*" +:+ CRLF, THeader (Header "Accept" "*/*"));
   (CRLF, TError)].

(** A client that sends these lines, and an origin on descriptor 5 that
    answers with [resp]; no read from it fails. *)
Definition env_a (resp : list byte) : env :=
  Env (inl ("client", "4242")) lines_a (Some (5, resp)) false
      (replicate 64 Byte.xff).

(** The parser once it has read [lines_a]. *)
Definition parser_a : parser_t := Parser (Some req_a) [Header "Accept" "*/*"].

(** A response of the very size [MAX_OBJECT_SIZE]. *)
Definition limit_obj : list byte := replicate (Z.to_nat 102400) Byte.x41.

(** What is left of [one_entry] while one reader holds its block. *)
Definition one_pinned : state :=
  State {[1%positive := CBlock 1 2 1 1 (Some "/a") (Some [Byte.x41])]}
        (Some (CInfo 1 (Some 1%positive))) false [] [].

(** * Proofs *)

(** ** Symbolic execution of the monad *)

Lemma bind_Done {A B} (m : M A) (k : A -> M B) s a s' :
  m s = Done a s' -> bind m k s = k a s'.
Proof. intros H. unfold bind. by rewrite H. Qed.

Lemma bind_Timeout {A B} (m : M A) (k : A -> M B) s s' :
  m s = Timeout s' -> bind m k s = Timeout s'.
Proof. intros H. unfold bind. by rewrite H. Qed.

Lemma load_eq h c m w t p b :
  h !! p = Some b -> load p (State h c m w t) = Done b (State h c m w t).
Proof. intros H. unfold load. cbn. by rewrite H. Qed.

Lemma modify_eq h c m w t p f b :
  h !! p = Some b ->
  modify p f (State h c m w t) = Done tt (State (<[p := f b]> h) c m w t).
Proof.
  intros H. unfold modify. rewrite (bind_Done _ _ _ _ _ (load_eq _ _ _ _ _ _ _ H)).
  unfold store. cbn. by rewrite H.
Qed.

Lemma get_cache_eq h c m w t :
  get_cache (State h (Some c) m w t) = Done c (State h (Some c) m w t).
Proof. reflexivity. Qed.

Lemma set_size_eq h sz st m w t v :
  set_size v (State h (Some (CInfo sz st)) m w t)
  = Done tt (State h (Some (CInfo v st)) m w t).
Proof. reflexivity. Qed.

Lemma set_start_eq h sz st m w t v :
  set_start v (State h (Some (CInfo sz st)) m w t)
  = Done tt (State h (Some (CInfo sz v)) m w t).
Proof. reflexivity. Qed.

Lemma free_block_eq h c m w t p b :
  h !! p = Some b ->
  free_block p (State h c m w t) = Done tt (State (delete p h) c m w t).
Proof. intros H. unfold free_block. cbn. by rewrite H. Qed.

Lemma bind_assoc {A B C} (m : M A) (k : A -> M B) (k' : B -> M C) s :
  bind (bind m k) k' s = bind m (fun x => bind (k x) k') s.
Proof. unfold bind. by destruct (m s). Qed.

(** One step of a computation: rewrite the first command with [tac]. *)
Ltac massoc :=
  repeat match goal with
         | |- bind (bind ?m ?k) ?k' ?s = _ => rewrite (bind_assoc m k k' s)
         end.
Ltac mstep tac :=
  massoc;
  match goal with
  | |- bind ?m ?k ?s = _ => erewrite (bind_Done m k s); [ | tac ]
  end; cbn beta.
Ltac mload H := mstep ltac:(apply load_eq; exact H).
Ltac mmod H := mstep ltac:(apply modify_eq; exact H).
Ltac mcache := mstep ltac:(apply get_cache_eq).

(** ** The payload of a block: what the links do not touch *)

Lemma payload_lookup h p : payload h !! p = entry_of <$> h !! p.
Proof. apply lookup_fmap. Qed.

Lemma payload_insert h p b :
  payload (<[p := b]> h) = <[p := entry_of b]> (payload h).
Proof. apply fmap_insert. Qed.

Lemma payload_delete h p : payload (delete p h) = delete p (payload h).
Proof. apply fmap_delete. Qed.

Lemma payload_insert_same h p b b' :
  h !! p = Some b -> entry_of b' = entry_of b ->
  payload (<[p := b']> h) = payload h.
Proof.
  intros H E. rewrite payload_insert, E. apply insert_id.
  rewrite payload_lookup, H. done.
Qed.

Lemma payload_dom h : dom (payload h) = dom h.
Proof. apply dom_fmap_L. Qed.

(** ** The shape of the list *)

Lemma default_head_app {A} (l1 l2 : list A) d :
  default d (head (l1 ++ l2)) = default (default d (head l2)) (head l1).
Proof. by destruct l1. Qed.

Lemma default_last_cons {A} (l : list A) x d :
  default d (last (x :: l)) = default x (last l).
Proof. rewrite last_cons. by destruct (last l). Qed.

Lemma default_last_app {A} (l1 l2 : list A) d :
  default d (last (l1 ++ l2)) = default (default d (last l1)) (last l2).
Proof.
  revert d. induction l1 as [|x l1 IH]; intros d; [done|].
  rewrite <- app_comm_cons, !default_last_cons. apply IH.
Qed.

Lemma seg_lookup h pv ps nx p :
  seg h pv ps nx -> p ∈ ps -> is_Some (h !! p).
Proof.
  revert pv. induction ps as [|q r IH]; intros pv Hs Hin.
  - by apply elem_of_nil in Hin.
  - destruct Hs as (b & Hb & _ & _ & Hr).
    apply elem_of_cons in Hin as [->|Hin]; [by eexists|]. by eapply IH.
Qed.

Lemma seg_insert_ne h pv ps nx p b :
  p ∉ ps -> seg h pv ps nx -> seg (<[p := b]> h) pv ps nx.
Proof.
  revert pv. induction ps as [|q r IH]; intros pv Hn Hs; [done|].
  destruct Hs as (bq & Hq & Hp & Hx & Hr).
  apply not_elem_of_cons in Hn as [Hne Hn].
  exists bq. rewrite lookup_insert_ne by done. eauto.
Qed.

Lemma seg_delete_ne h pv ps nx p :
  p ∉ ps -> seg h pv ps nx -> seg (delete p h) pv ps nx.
Proof.
  revert pv. induction ps as [|q r IH]; intros pv Hn Hs; [done|].
  destruct Hs as (bq & Hq & Hp & Hx & Hr).
  apply not_elem_of_cons in Hn as [Hne Hn].
  exists bq. rewrite lookup_delete_ne by done. eauto.
Qed.

Lemma seg_insert_same h pv ps nx p b b' :
  h !! p = Some b -> next b' = next b -> prev b' = prev b ->
  seg h pv ps nx -> seg (<[p := b']> h) pv ps nx.
Proof.
  intros Hb En Ep. revert pv. induction ps as [|q r IH]; intros pv Hs; [done|].
  destruct Hs as (bq & Hq & Hp & Hx & Hr).
  destruct (decide (p = q)) as [->|Hne].
  - exists b'. rewrite lookup_insert_eq.
    repeat split; [congruence | congruence | by apply IH].
  - exists bq. rewrite lookup_insert_ne by done. eauto.
Qed.

Lemma seg_app h pv l1 l2 nx :
  seg h pv (l1 ++ l2) nx <->
  seg h pv l1 (default nx (head l2)) /\ seg h (default pv (last l1)) l2 nx.
Proof.
  revert pv. induction l1 as [|p r IH]; intros pv.
  - simpl. tauto.
  - rewrite <- app_comm_cons, default_last_cons. simpl.
    rewrite default_head_app. setoid_rewrite IH. split.
    + intros (b & ? & ? & ? & ? & ?). split; [exists b|]; eauto.
    + intros ((b & ? & ? & ? & ?) & ?). exists b. eauto.
Qed.

Lemma seg_set_prev h pv pv' p r nx b :
  h !! p = Some b -> p ∉ r -> seg h pv (p :: r) nx ->
  seg (<[p := upd_prev pv' b]> h) pv' (p :: r) nx.
Proof.
  intros Hb Hn (b0 & Hb0 & _ & Hx & Hr).
  assert (b0 = b) as -> by congruence.
  exists (upd_prev pv' b). rewrite lookup_insert_eq.
  repeat split; [done|]. by apply seg_insert_ne.
Qed.

Lemma seg_set_next h pv l p nx nx' b :
  h !! p = Some b -> p ∉ l -> seg h pv (l ++ [p]) nx ->
  seg (<[p := upd_next nx' b]> h) pv (l ++ [p]) nx'.
Proof.
  intros Hb Hn Hs. apply seg_app in Hs as [H1 (b0 & Hb0 & Hp & _ & _)].
  assert (b0 = b) as -> by congruence. apply seg_app. split.
  - by apply seg_insert_ne.
  - exists (upd_next nx' b). rewrite lookup_insert_eq. done.
Qed.

Lemma links_cons_app h a l1 c l2 :
  links h ((a :: l1) ++ c :: l2) <->
  seg h (default c (last l2)) (a :: l1) c /\ seg h (default a (last l1)) (c :: l2) a.
Proof.
  change (links h ((a :: l1) ++ c :: l2)) with
    (seg h (default a (last ((a :: l1) ++ c :: l2))) ((a :: l1) ++ c :: l2) a).
  rewrite default_last_app, seg_app. rewrite !default_last_cons. simpl default.
  simpl head. simpl default. tauto.
Qed.
Lemma links_rotate h l1 l2 : links h (l1 ++ l2) -> links h (l2 ++ l1).
Proof.
  destruct l1 as [|a l1]; [by rewrite app_nil_r|].
  destruct l2 as [|c l2]; [by rewrite app_nil_r|].
  rewrite !links_cons_app. tauto.
Qed.

Lemma links_head h p r :
  links h (p :: r) ->
  exists b, h !! p = Some b /\ prev b = default p (last r)
            /\ next b = default p (head r) /\ seg h p r p.
Proof.
  unfold links. rewrite default_last_cons. intros (b & ? & ? & ? & ?). eauto.
Qed.

Lemma links_lookup h ps p : links h ps -> p ∈ ps -> is_Some (h !! p).
Proof.
  destruct ps as [|q r]; [by intros _ ?%elem_of_nil|].
  unfold links. apply seg_lookup.
Qed.

Lemma links_insert_same h ps p b b' :
  h !! p = Some b -> next b' = next b -> prev b' = prev b ->
  links h ps -> links (<[p := b']> h) ps.
Proof. destruct ps; [done|]. unfold links. apply seg_insert_same. Qed.

Lemma links_insert_ne h ps p b :
  p ∉ ps -> links h ps -> links (<[p := b]> h) ps.
Proof. destruct ps; [done|]. unfold links. by apply seg_insert_ne. Qed.

Lemma links_delete_ne h ps p :
  p ∉ ps -> links h ps -> links (delete p h) ps.
Proof. destruct ps; [done|]. unfold links. by apply seg_delete_ne. Qed.

Lemma links_seg h ps nb pl :
  head ps = Some nb -> last ps = Some pl -> links h ps <-> seg h pl ps nb.
Proof.
  destruct ps as [|q r]; [done|]. intros [= ->] Hl. unfold links.
  by rewrite Hl.
Qed.

Lemma seg_set_prev_head h pv pv' ps nx nb bn :
  head ps = Some nb -> NoDup ps -> h !! nb = Some bn ->
  seg h pv ps nx -> seg (<[nb := upd_prev pv' bn]> h) pv' ps nx.
Proof.
  destruct ps as [|q r]; [done|]. intros [= ->] [Hq _]%NoDup_cons Hn Hs.
  by eapply seg_set_prev.
Qed.

Lemma seg_set_next_last h pv ps nx nx' pl bp :
  last ps = Some pl -> NoDup ps -> h !! pl = Some bp ->
  seg h pv ps nx -> seg (<[pl := upd_next nx' bp]> h) pv ps nx'.
Proof.
  intros [l' ->]%last_Some Hnd Hp Hs.
  apply NoDup_app in Hnd as (_ & Hd & _).
  eapply seg_set_next; [done| |done].
  intros ?. eapply Hd; [done|]. by apply list_elem_of_singleton.
Qed.

(** A non-empty list seen from its last element. *)
Lemma list_snoc_inv {A} (x : A) (l : list A) :
  exists l' y, x :: l = l' ++ [y] /\ default x (last l) = y.
Proof.
  destruct (last (x :: l)) as [y|] eqn:E.
  - pose proof E as [l' E']%last_Some. exists l', y. split; [done|].
    by rewrite <- (default_last_cons l x x), E.
  - by apply last_None in E.
Qed.

(** Taking the first block [b] of a ring out: the code does it with two
    assignments, in one order in [cache_gettext] and in the other in
    [cache_remblock]. *)
Lemma unlink_prev_next h b rest nb pl bn :
  NoDup (b :: rest) -> links h (b :: rest) ->
  head rest = Some nb -> last rest = Some pl ->
  h !! nb = Some bn ->
  exists bp, <[nb := upd_prev pl bn]> h !! pl = Some bp /\
    links (<[pl := upd_next nb bp]> (<[nb := upd_prev pl bn]> h)) rest.
Proof.
  intros [Hb Hnd]%NoDup_cons Hl Hh Hla Hn.
  apply links_head in Hl as (_ & _ & _ & _ & Hs).
  pose proof (seg_set_prev_head _ _ pl _ _ _ _ Hh Hnd Hn Hs) as H1.
  destruct (seg_lookup _ _ _ _ pl H1) as [bp Hbp].
  { apply last_Some in Hla as [l' ->]. set_solver. }
  exists bp. split; [done|].
  apply (links_seg _ _ _ _ Hh Hla). by eapply seg_set_next_last.
Qed.

Lemma unlink_next_prev h b rest nb pl bp :
  NoDup (b :: rest) -> links h (b :: rest) ->
  head rest = Some nb -> last rest = Some pl ->
  h !! pl = Some bp ->
  exists bn, <[pl := upd_next nb bp]> h !! nb = Some bn /\
    links (<[nb := upd_prev pl bn]> (<[pl := upd_next nb bp]> h)) rest.
Proof.
  intros [Hb Hnd]%NoDup_cons Hl Hh Hla Hp.
  apply links_head in Hl as (_ & _ & _ & _ & Hs).
  pose proof (seg_set_next_last _ _ _ _ nb _ _ Hla Hnd Hp Hs) as H1.
  destruct (seg_lookup _ _ _ _ nb H1) as [bn Hbn].
  { destruct rest as [|q r]; [done|]. injection Hh as ->. set_solver. }
  exists bn. split; [done|].
  apply (links_seg _ _ _ _ Hh Hla). by eapply seg_set_prev_head.
Qed.

(** Putting a block [b] in front of a ring, as [cache_addblock] does. *)
Lemma link_front h b p r blk sb :
  NoDup (b :: p :: r) -> links h (p :: r) ->
  h !! b = Some blk -> h !! p = Some sb ->
  let h1 := <[b := upd_next p blk]> h in
  let h2 := <[b := upd_prev (prev sb) (upd_next p blk)]> h1 in
  exists lb, prev sb ≠ b /\ h2 !! prev sb = Some lb /\
    let h3 := <[prev sb := upd_next b lb]> h2 in
    exists sb', h3 !! p = Some sb' /\
      let h4 := <[p := upd_prev b sb']> h3 in
      links h4 (b :: p :: r) /\
      h4 !! b = Some (upd_prev (prev sb) (upd_next p blk)).
Proof.
  intros [Hb Hnd]%NoDup_cons Hl Hbb Hp h1 h2.
  destruct (list_snoc_inv p r) as (l' & lst & El & Elst).
  pose proof (links_head _ _ _ Hl) as (sb0 & Hsb0 & Hprev & _ & _).
  assert (sb0 = sb) as -> by congruence. rewrite Elst in Hprev. clear Elst. subst lst.
  set (lst := prev sb) in *.
  assert (last (p :: r) = Some lst) as Hlast by (rewrite El; apply last_snoc).
  assert (lst ∈ p :: r) as Hin by (rewrite El; set_solver).
  assert (lst ≠ b) as Hne by (intros E; apply Hb; by rewrite <- E).
  assert (p ≠ b) as Hne' by (intros ->; apply Hb; set_solver).
  apply (links_seg _ _ p lst) in Hl; [|done..].
  assert (seg h2 lst (p :: r) p) as H2.
  { unfold h2, h1. apply seg_insert_ne; [done|]. by apply seg_insert_ne. }
  destruct (seg_lookup _ _ _ _ lst H2 Hin) as [lb Hlb].
  exists lb. split; [done|]. split; [done|]. intros h3.
  assert (seg h3 lst (p :: r) b) as H3 by (by eapply seg_set_next_last).
  destruct (seg_lookup _ _ _ _ p H3) as [sb' Hsb']; [set_solver|].
  exists sb'. split; [done|]. intros h4.
  assert (seg h4 b (p :: r) b) as H4 by (by eapply seg_set_prev_head).
  assert (h4 !! b = Some (upd_prev lst (upd_next p blk))) as H4b.
  { unfold h4, h3, h2. rewrite !lookup_insert_ne by done.
    apply lookup_insert_eq. }
  split; [|done]. unfold links.
  rewrite last_cons, Hlast. simpl default.
  eexists. split; [exact H4b|]. done.
Qed.
(** ** What the list operations do *)

Lemma addblock_spec h sz ps m w t b blk :
  links h ps -> NoDup ps -> b ∉ ps -> h !! b = Some blk ->
  (ps = [] -> next blk = b /\ prev blk = b) ->
  exists h',
    cache_addblock b (State h (Some (CInfo sz (head ps))) m w t)
    = Done tt (State h' (Some (CInfo (sz + text_len blk) (Some b))) m w t)
    /\ links h' (b :: ps)
    /\ payload h' = <[b := Entry (text_len blk) (ref_cont blk + 1) (uri blk) (text blk)]> (payload h).
Proof.
  intros Hl Hnd Hb Hbb Hself. unfold cache_addblock.
  destruct ps as [|p r].
  - destruct (Hself eq_refl) as [En Ep].
    eexists. split; [|split].
    + mcache. cbn [start head]. mstep ltac:(apply set_start_eq).
      mload Hbb. unfold set_ref_cont. mmod Hbb. mcache.
      mstep ltac:(apply load_eq, lookup_insert_eq). apply set_size_eq.
    + unfold links. simpl. eexists. rewrite lookup_insert_eq. done.
    + by rewrite payload_insert.
  - destruct (links_lookup _ _ p Hl) as [sb Hp]; [set_solver|].
    assert (NoDup (b :: p :: r)) as Hnd' by (by apply NoDup_cons).
    destruct (link_front _ _ _ _ _ _ Hnd' Hl Hbb Hp) as (lb & Hne2 & Hlb & sb' & Hsb' & Hl4 & H4b).
    assert (p ≠ b) as Hne by (intros ->; apply Hb; set_solver).
    eexists. split; [|split].
    + mcache. cbn [start head]. unfold set_next, set_prev, set_ref_cont.
      mmod Hbb. mstep ltac:(apply load_eq; rewrite lookup_insert_ne by done; exact Hp).
      mstep ltac:(apply modify_eq, lookup_insert_eq).
      mstep ltac:(apply load_eq, lookup_insert_eq). cbn [prev upd_prev].
      mmod Hlb.
      mstep ltac:(apply load_eq; rewrite lookup_insert_ne by done; apply lookup_insert_eq).
      cbn [next upd_prev upd_next]. mmod Hsb'.
      mstep ltac:(apply set_start_eq).
      mload H4b. mmod H4b. mcache.
      mstep ltac:(apply load_eq, lookup_insert_eq). apply set_size_eq.
    + eapply links_insert_same; [exact H4b|done..|exact Hl4].
    + rewrite payload_insert. cbn.
      rewrite (payload_insert_same _ _ _ _ Hsb') by done.
      rewrite (payload_insert_same _ _ _ _ Hlb) by done.
      rewrite !payload_insert. cbn. rewrite !insert_insert_eq. done.
Qed.
(** ** Finding a key *)

Lemma findblock_loop_spec h c m w t u st r :
  forall p pv fuel,
    seg h pv (p :: r) st -> st ∉ r -> keyed h -> (length (p :: r) <= fuel)%nat ->
    findblock_loop fuel u st p (State h c m w t)
    = Done (find_uri h u (p :: r)) (State h c m w t).
Proof.
  induction r as [|q r IH]; intros p pv fuel (b & Hb & _ & Hn & Hs) Hst Hk Hf;
    (destruct fuel as [|fuel]; [simpl in Hf; lia|]);
    destruct (Hk _ _ Hb) as [v Hv]; cbn [findblock_loop]; mload Hb;
    rewrite Hv; cbn [find_uri]; rewrite Hb; cbn [mbind option_bind]; rewrite Hv;
    destruct (String.eqb_spec u v) as [->|Hne].
  - by rewrite decide_True.
  - rewrite decide_False by congruence. simpl in Hn. rewrite Hn, Pos.eqb_refl. done.
  - by rewrite decide_True.
  - rewrite decide_False by congruence. simpl in Hn. rewrite Hn.
    apply not_elem_of_cons in Hst as [Hne' Hst].
    rewrite (proj2 (Pos.eqb_neq q st)) by done.
    eapply IH; [done..|]. simpl in *. lia.
Qed.

Lemma cache_findblock_spec h sz ps m w t u fuel :
  links h ps -> NoDup ps -> keyed h -> (length ps <= fuel)%nat ->
  cache_findblock fuel u (State h (Some (CInfo sz (head ps))) m w t)
  = Done (find_uri h u ps) (State h (Some (CInfo sz (head ps))) m w t).
Proof.
  intros Hl Hnd Hk Hf. unfold cache_findblock. mcache. cbn [start].
  destruct ps as [|p r]; [done|]. cbn [head].
  apply NoDup_cons in Hnd as [Hp _]. by eapply findblock_loop_spec.
Qed.

Lemma find_uri_Some h u ps p :
  find_uri h u ps = Some p -> p ∈ ps /\ h !! p ≫= uri = Some u.
Proof.
  induction ps as [|q r IH]; [done|]. simpl. case_decide.
  - intros [= ->]. split; [left|done].
  - intros [? ?]%IH. split; [by right|done].
Qed.

Lemma find_uri_None h u ps :
  find_uri h u ps = None <-> forall p, p ∈ ps -> h !! p ≫= uri ≠ Some u.
Proof.
  induction ps as [|q r IH]; simpl.
  - split; [by intros _ p ?%elem_of_nil|done].
  - case_decide as Hd.
    + split; [done|]. intros H. exfalso. apply (H q); [left|done].
    + rewrite IH. split.
      * intros H p [->|Hin]%elem_of_cons; auto.
      * intros H p Hin. apply H. by right.
Qed.

(** ** Reading the list back *)

Lemma walk_spec h st r :
  forall p pv fuel,
    seg h pv (p :: r) st -> st ∉ r -> (length (p :: r) <= fuel)%nat ->
    walk h st fuel p = p :: r.
Proof.
  induction r as [|q r IH]; intros p pv fuel (b & Hb & _ & Hn & Hs) Hst Hf;
    (destruct fuel as [|fuel]; [simpl in Hf; lia|]);
    cbn [walk]; rewrite Hb; simpl in Hn; rewrite Hn.
  - by rewrite Pos.eqb_refl.
  - apply not_elem_of_cons in Hst as [Hne' Hst].
    rewrite (proj2 (Pos.eqb_neq q st)) by done. f_equal.
    eapply IH; [done..|]. simpl in *. lia.
Qed.

Lemma cache_list_spec h sz ps m w t :
  links h ps -> NoDup ps ->
  cache_list (State h (Some (CInfo sz (head ps))) m w t) = ps.
Proof.
  intros Hl Hnd. unfold cache_list. cbn [cache start blocks].
  destruct ps as [|p r]; [done|]. cbn [head].
  pose proof Hnd as [Hp _]%NoDup_cons.
  eapply walk_spec; [exact Hl|done|].
  rewrite <- (size_list_to_set (C := gset positive) (p :: r)) by done.
  rewrite <- size_dom. apply subseteq_size.
  intros x Hx%elem_of_list_to_set. apply elem_of_dom. by eapply links_lookup.
Qed.
(** ** Freeing and evicting *)

Lemma block_free_zero h c m w t p b fuel :
  h !! p = Some b -> ref_cont b = 0 ->
  block_free (S fuel) p (State h c m w t) = Done tt (State (delete p h) c m w t).
Proof.
  intros Hb Hr. cbn [block_free]. mload Hb. rewrite Hr. simpl.
  by eapply free_block_eq.
Qed.

(** A block whose count is not zero keeps [block_free] in its loop: nothing
    inside the loop changes the count. *)
Lemma block_free_spin h c m w t p b fuel :
  h !! p = Some b -> ref_cont b ≠ 0 ->
  block_free fuel p (State h c m w t) = Timeout (State h c m w t).
Proof.
  intros Hb Hr. induction fuel as [|fuel IH]; [done|].
  cbn [block_free]. mload Hb. by rewrite (proj2 (Z.eqb_neq _ _) Hr).
Qed.

(** [cache_remblock] up to its call of [block_free]: the last block is out
    of the ring and its count is one less. *)
Lemma remblock_unlink h sz l rem rb m w t fuel :
  links h (l ++ [rem]) -> NoDup (l ++ [rem]) -> h !! rem = Some rb ->
  exists h',
    cache_remblock fuel (State h (Some (CInfo sz (head (l ++ [rem])))) m w t)
    = block_free fuel rem
        (State h' (Some (CInfo (sz - text_len rb) (head l))) m w t)
    /\ links h' l
    /\ (exists rb', h' !! rem = Some rb' /\ ref_cont rb' = ref_cont rb - 1)
    /\ payload h' = <[rem := Entry (text_len rb) (ref_cont rb - 1) (uri rb) (text rb)]> (payload h).
Proof.
  intros Hl Hnd Hrem. unfold cache_remblock.
  destruct l as [|p r].
  - (* the only block: it is its own neighbour *)
    pose proof (links_head _ _ _ Hl) as (b0 & Hb0 & Hp & Hn & _).
    simpl in Hp, Hn. assert (b0 = rb) as -> by (simpl in Hb0; congruence).
    eexists. split; [|split; [|split]].
    + mcache. cbn [start head app]. mload Hrem. rewrite Hp. mload Hrem.
      rewrite Hp. unfold set_next, set_prev, set_ref_cont.
      mmod Hrem. mstep ltac:(apply modify_eq, lookup_insert_eq).
      mcache. mstep ltac:(apply load_eq, lookup_insert_eq).
      mstep ltac:(apply set_size_eq). mcache. cbn [start].
      rewrite decide_True by done. mstep ltac:(apply set_start_eq).
      mstep ltac:(apply load_eq, lookup_insert_eq).
      mstep ltac:(apply modify_eq, lookup_insert_eq). reflexivity.
    + done.
    + eexists. rewrite lookup_insert_eq. done.
    + rewrite !payload_insert, !insert_insert_eq. done.
  - (* at least two: see the ring from [rem] *)
    pose proof (links_head _ p (r ++ [rem]) Hl) as (sb & Hsb & Hp & _).
    rewrite last_snoc in Hp. simpl in Hp.
    assert (NoDup (rem :: p :: r)) as Hnd'.
    { apply NoDup_app in Hnd as (? & Hd & _). apply NoDup_cons. split; [|done].
      intros Hin. eapply Hd; [done|]. by apply list_elem_of_singleton. }
    pose proof Hnd' as [Hrem_in _]%NoDup_cons.
    assert (rem ≠ p) as Hne by (intros ->; apply Hrem_in; left).
    apply (links_rotate _ (p :: r) [rem]) in Hl. simpl app in Hl.
    pose proof (links_head _ _ _ Hl) as (rb0 & Hrb0 & Hrp & _).
    assert (rb0 = rb) as -> by congruence.
    destruct (list_snoc_inv p r) as (l' & pn & El & Epn).
    rewrite default_last_cons, Epn in Hrp.
    assert (last (p :: r) = Some pn) as Hlast by (rewrite El; apply last_snoc).
    assert (pn ∈ p :: r) as Hin by (rewrite El; set_solver).
    assert (pn ≠ rem) as Hne2 by (intros ->; done).
    destruct (links_lookup _ _ pn Hl) as [bp Hbp]; [by right|].
    destruct (unlink_next_prev _ _ _ p pn _ Hnd' Hl eq_refl Hlast Hbp)
      as (bn & Hbn & Hl2).
    eexists. split; [|split; [|split]].
    + mcache. cbn [start head app]. mload Hsb. rewrite Hp. mload Hrem.
      rewrite Hrp. unfold set_next, set_prev, set_ref_cont.
      mmod Hbp. mmod Hbn. mcache.
      mstep ltac:(apply load_eq; rewrite !lookup_insert_ne by done; exact Hrem).
      mstep ltac:(apply set_size_eq). mcache. cbn [start].
      rewrite decide_False by congruence. unfold ret at 1.
      mstep ltac:(reflexivity).
      mstep ltac:(apply load_eq; rewrite !lookup_insert_ne by done; exact Hrem).
      mstep ltac:(apply modify_eq; rewrite !lookup_insert_ne by done; exact Hrem).
      reflexivity.
    + by apply links_insert_ne.
    + eexists. rewrite lookup_insert_eq. done.
    + rewrite payload_insert. cbn.
      rewrite (payload_insert_same _ _ _ _ Hbn) by done.
      rewrite (payload_insert_same _ _ _ _ Hbp) by done. done.
Qed.
Lemma block_new_spec h c m w t u txt len :
  0 <= len <= Z.of_nat (length txt) ->
  block_new u txt len (State h c m w t)
  = Done (fresh (dom h))
      (State (<[fresh (dom h) :=
                 CBlock len 0 (fresh (dom h)) (fresh (dom h)) (Some u)
                   (Some (take (Z.to_nat len) txt))]> h) c m w t).
Proof.
  intros Hlen. unfold block_new, block_empty.
  unfold set_text_len, set_ref_cont, set_next, set_prev, set_uri, set_text.
  mstep ltac:(reflexivity). cbn [blocks cache mutex wfail trace set_blocks].
  do 6 mstep ltac:(apply modify_eq, lookup_insert_eq).
  unfold ret at 1. mstep ltac:(reflexivity).
  mstep ltac:(apply modify_eq, lookup_insert_eq).
  destruct (len <? 0) eqn:E1; [lia|].
  destruct (Z.of_nat (length txt) <? len) eqn:E2; [lia|]. cbn [orb].
  do 2 mstep ltac:(apply modify_eq, lookup_insert_eq).
  unfold ret. rewrite !insert_insert_eq. reflexivity.
Qed.

(** ** Sums of lengths and counts of readers *)

Lemma sum_len_psum h ps : sum_len h ps = psum (payload h) ps.
Proof.
  induction ps as [|p r IH]; [done|]. simpl. rewrite IH, payload_lookup.
  by destruct (h !! p).
Qed.

Lemma psum_app d l1 l2 : psum d (l1 ++ l2) = psum d l1 + psum d l2.
Proof. induction l1 as [|p r IH]; simpl; [done|]. rewrite IH. lia. Qed.

Lemma psum_ext d d' ps :
  (forall p, p ∈ ps -> d' !! p = d !! p) -> psum d' ps = psum d ps.
Proof.
  induction ps as [|p r IH]; intros H; [done|]. simpl.
  rewrite H by left. rewrite IH; [done|]. intros q Hq. apply H. by right.
Qed.

Lemma psum_delete d x ps : x ∉ ps -> psum (delete x d) ps = psum d ps.
Proof.
  intros Hx. apply psum_ext. intros p Hp. apply lookup_delete_ne. by intros ->.
Qed.

Lemma psum_insert d x e ps : x ∉ ps -> psum (<[x := e]> d) ps = psum d ps.
Proof.
  intros Hx. apply psum_ext. intros p Hp. apply lookup_insert_ne. by intros ->.
Qed.

Lemma pin_count_nonneg pins p : 0 <= pin_count pins p.
Proof. unfold pin_count. lia. Qed.

Lemma pin_count_zero pins p : pin_count pins p = 0 <-> p ∉ pins.
Proof.
  unfold pin_count. induction pins as [|q r IH]; simpl.
  - split; [by intros _ ?%elem_of_nil|done].
  - rewrite filter_cons. case_decide as Hd; simpl.
    + subst. split; [lia|]. intros H. exfalso. apply H. left.
    + rewrite IH, not_elem_of_cons. naive_solver.
Qed.

Lemma pin_count_cons pins p q :
  pin_count (q :: pins) p = (if decide (q = p) then 1 else 0) + pin_count pins p.
Proof.
  unfold pin_count. rewrite filter_cons. case_decide; simpl length; lia.
Qed.

Lemma pin_count_app l1 l2 p :
  pin_count (l1 ++ l2) p = pin_count l1 p + pin_count l2 p.
Proof. unfold pin_count. rewrite filter_app, length_app. lia. Qed.

Lemma lookup_foldr_delete {V} (d : gmap positive V) l p :
  foldr delete d l !! p = if decide (p ∈ l) then None else d !! p.
Proof.
  induction l as [|x l IH]; cbn [foldr].
  - destruct (decide (p ∈ [])) as [Hd|]; [|done]. by apply elem_of_nil in Hd.
  - destruct (decide (p ∈ x :: l)) as [Hd|Hd].
    + destruct (decide (x = p)) as [->|Hne]; [apply lookup_delete_eq|].
      rewrite lookup_delete_ne, IH by done.
      apply elem_of_cons in Hd as [->|Hd]; [done|]. by rewrite decide_True.
    + apply not_elem_of_cons in Hd as [Hne Hd].
      rewrite lookup_delete_ne, IH by done. by rewrite decide_False.
Qed.

(** The [while] of [cache_insert].  Either it ends, with a tail [l2] of the
    list evicted, none of it held by a reader; or it reaches a block [rem]
    that a reader holds, and stays in [block_free] for ever. *)
Lemma downsize_spec pins len m w t :
  len <= MAX_CACHE_SIZE ->
  forall ps h fuel,
    links h ps -> NoDup ps ->
    (forall p e, payload h !! p = Some e -> e_ref e = 1 + pin_count pins p) ->
    (length ps < fuel)%nat ->
    (exists l1 l2 h',
        ps = l1 ++ l2 /\ (forall p, p ∈ l2 -> p ∉ pins) /\
        downsize fuel len
          (State h (Some (CInfo (psum (payload h) ps) (head ps))) m w t)
        = Done tt (State h' (Some (CInfo (psum (payload h') l1) (head l1))) m w t)
        /\ links h' l1 /\ payload h' = foldr delete (payload h) l2
        /\ psum (payload h') l1 + len <= MAX_CACHE_SIZE
        /\ (forall l2a x l2b, l2 = l2a ++ x :: l2b ->
             psum (payload h) (l1 ++ l2a ++ [x]) + len > MAX_CACHE_SIZE))
    \/ (exists rem h' c',
        rem ∈ ps /\ rem ∈ pins /\
        psum (payload h) ps + len > MAX_CACHE_SIZE /\
        downsize fuel len
          (State h (Some (CInfo (psum (payload h) ps) (head ps))) m w t)
        = Timeout (State h' c' m w t)
        /\ (forall f, block_free f rem (State h' c' m w t)
                      = Timeout (State h' c' m w t))
        /\ (forall p e, p ∈ pins -> payload h !! p = Some e ->
             exists e', payload h' !! p = Some e'
               /\ e_len e' = e_len e /\ e_uri e' = e_uri e
               /\ e_text e' = e_text e)).
Proof.
  intros Hlen ps. induction ps as [|x l IH] using rev_ind;
    intros h fuel Hl Hnd Href Hf; (destruct fuel as [|fuel]; [simpl in Hf; lia|]).
  - left. exists [], [], h. split; [done|]. split; [by intros p ?%elem_of_nil|].
    split; [|repeat split; simpl; try lia; try done;
              by intros [] ? ? ?].
    cbn [downsize]. mcache. cbn [size psum foldr].
    destruct (0 + len >? MAX_CACHE_SIZE) eqn:E; [lia|]. done.
  - cbn [downsize].
    destruct (psum (payload h) (l ++ [x]) + len >? MAX_CACHE_SIZE) eqn:E.
    2:{ left. exists (l ++ [x]), [], h. rewrite app_nil_r.
        split; [done|]. split; [by intros p ?%elem_of_nil|].
        split; [|repeat split; [done..|lia|by intros [] ? ? ?]].
        mcache. cbn [size]. by rewrite E. }
    destruct (links_lookup _ _ x Hl) as [rb Hrb]; [set_solver|].
    destruct (remblock_unlink _ (psum (payload h) (l ++ [x])) _ _ _ m w t fuel
                Hl Hnd Hrb) as (h1 & Hrun & Hl1 & (rb' & Hrb' & Hrc) & Hpay).
    pose proof (Href x (entry_of rb)) as Hrx.
    rewrite payload_lookup, Hrb in Hrx. specialize (Hrx eq_refl).
    cbn in Hrx. rewrite Hrx in Hrc.
    pose proof Hnd as (Hndl & Hd & _)%NoDup_app.
    assert (x ∉ l) as Hxl.
    { intros ?. eapply Hd; [done|]. by apply list_elem_of_singleton. }
    assert (psum (payload h) (l ++ [x]) - text_len rb = psum (payload h) l) as Es.
    { rewrite psum_app. simpl. rewrite payload_lookup, Hrb. simpl. lia. }
    rewrite Es in Hrun.
    destruct (decide (x ∈ pins)) as [Hpin|Hpin].
    + (* a reader holds the block *)
      right. eexists x, _, _. split; [set_solver|]. split; [done|].
      split; [lia|].
      assert (ref_cont rb' ≠ 0) as Hnz.
      { pose proof (proj1 (pin_count_zero pins x)).
        pose proof (pin_count_nonneg pins x). intros ?. apply H; [lia|done]. }
      split; [|split].
      * mcache. cbn [size]. rewrite E.
        apply bind_Timeout. rewrite Hrun. by eapply block_free_spin.
      * intros f. by eapply block_free_spin.
      * intros p e _ He. rewrite Hpay.
        destruct (decide (p = x)) as [->|Hne].
        -- rewrite lookup_insert_eq. eexists. split; [done|].
           rewrite payload_lookup, Hrb in He. by injection He as <-.
        -- rewrite lookup_insert_ne by done. by exists e.
    + (* nobody does: the block goes, and the loop goes on *)
      apply pin_count_zero in Hpin. rewrite Hpin in Hrc.
      destruct fuel as [|fuel]; [rewrite length_app in Hf; simpl in Hf; lia|].
      rewrite (block_free_zero _ _ _ _ _ _ _ fuel Hrb') in Hrun by lia.
      assert (payload (delete x h1) = delete x (payload h)) as Hpay1.
      { rewrite payload_delete, Hpay. apply delete_insert_eq. }
      assert (psum (payload h) l = psum (payload (delete x h1)) l) as Es1.
      { rewrite Hpay1. symmetry. by apply psum_delete. }
      rewrite Es1 in Hrun.
      destruct (IH (delete x h1) (S fuel)) as
        [(l1 & l2 & h' & El & Hun & Hd' & Hl' & Hp' & Hle & Hover)
        |(rem & h' & c' & Hin & Hpin' & _ & Hd' & Hsp & Hkeep)].
      * by apply links_delete_ne.
      * done.
      * intros p e. rewrite Hpay1. intros Hp.
        apply lookup_delete_Some in Hp as [_ Hp]. by apply Href.
      * rewrite length_app in Hf. simpl in Hf. lia.
      * left. exists l1, (l2 ++ [x]), h'. split; [by rewrite El, app_assoc|].
        split.
        { intros p [?|Hx]%elem_of_app; [by apply Hun|].
          apply list_elem_of_singleton in Hx as ->. by apply pin_count_zero. }
        split.
        { mcache. cbn [size]. rewrite E.
          erewrite bind_Done by exact Hrun. exact Hd'. }
        split; [done|]. split; [by rewrite Hp', Hpay1, foldr_app|].
        split; [done|].
        intros l2a y l2b E2.
        destruct l2b as [|z l2b _] using rev_ind.
        { apply (app_inj_tail l2 l2a x y) in E2 as [-> ->].
          rewrite app_assoc, <- El. lia. }
        rewrite app_comm_cons, app_assoc in E2.
        apply app_inj_tail in E2 as [E2 ->].
        specialize (Hover _ _ _ E2). rewrite Hpay1 in Hover.
        rewrite psum_delete in Hover; [done|].
        intros Hin. apply Hxl. rewrite El, E2.
        rewrite !elem_of_app, elem_of_cons.
        rewrite !elem_of_app, list_elem_of_singleton in Hin. tauto.
      * right. exists rem, h', c'. split; [set_solver|]. split; [done|].
        split; [lia|]. split; [|split; [exact Hsp|]].
        { mcache. cbn [size]. rewrite E.
          erewrite bind_Done by exact Hrun. exact Hd'. }
        intros p e Hp He. apply Hkeep; [exact Hp|].
        rewrite Hpay1, lookup_delete_ne; [exact He|].
        intros ->. by apply (proj1 (pin_count_zero pins p)).
Qed.
(** ** The invariant of the cache *)

Lemma data_ok_keyed h pins ps : data_ok (payload h) pins ps -> keyed h.
Proof.
  intros Hd p b Hb.
  destruct (d_entry _ _ _ Hd p (entry_of b)) as [Hu _]; [|done].
  by rewrite payload_lookup, Hb.
Qed.

Lemma data_ok_refs h pins ps :
  data_ok (payload h) pins ps ->
  forall p e, payload h !! p = Some e -> e_ref e = 1 + pin_count pins p.
Proof. intros Hd p e He. by apply (d_entry _ _ _ Hd). Qed.

Lemma data_ok_insert_new d pins l1 l2 b e :
  NoDup (l1 ++ l2) -> data_ok d pins (l1 ++ l2) ->
  (forall p, p ∈ l2 -> p ∉ pins) -> b ∉ l1 ->
  is_Some (e_uri e) ->
  (exists tx, e_text e = Some tx /\ e_len e = Z.of_nat (length tx)) ->
  e_ref e = 1 ->
  (forall p e', d !! p = Some e' -> e_uri e' ≠ e_uri e) ->
  data_ok (<[b := e]> (foldr delete d l2)) pins (b :: l1).
Proof.
  intros Hnd [Hdom Hent Hkeys Hpins] Hun Hb Hu Ht Hr Hfresh.
  pose proof Hnd as (_ & Hdisj & _)%NoDup_app.
  assert (forall p e', foldr delete d l2 !! p = Some e' ->
                       d !! p = Some e' /\ p ∉ l2) as Hsub.
  { intros p e'. rewrite lookup_foldr_delete. by case_decide. }
  assert (b ∉ pins) as Hbp.
  { intros Hin. pose proof (Hpins _ Hin) as [?|?]%elem_of_app; [done|].
    by eapply Hun. }
  split.
  - apply set_eq. intros p.
    rewrite dom_insert_L, elem_of_union, elem_of_singleton, elem_of_dom.
    rewrite elem_of_list_to_set, elem_of_cons, lookup_foldr_delete.
    split.
    + intros [?|[e' He']]; [by left|]. right. case_decide; [done|].
      assert (p ∈ dom d) as Hp by (apply elem_of_dom; eauto).
      rewrite Hdom, elem_of_list_to_set, elem_of_app in Hp. tauto.
    + intros [?|Hp]; [by left|]. right.
      rewrite decide_False by (intros ?; by eapply Hdisj).
      apply elem_of_dom. rewrite Hdom, elem_of_list_to_set, elem_of_app. tauto.
  - intros p e'. rewrite lookup_insert. case_decide as Hd.
    + intros [= <-]. subst p. split; [done|]. split; [done|].
      apply pin_count_zero in Hbp. lia.
    + intros [He' _]%Hsub. by apply Hent.
  - intros p q e1 e2. rewrite !lookup_insert.
    repeat case_decide; subst; try done.
    + intros [= <-] [He2 _]%Hsub E. exfalso. by eapply Hfresh.
    + intros [He1 _]%Hsub [= <-] E. exfalso. by eapply Hfresh.
    + intros [He1 _]%Hsub [He2 _]%Hsub. by apply Hkeys.
  - intros p Hp. pose proof (Hpins _ Hp) as [?|?]%elem_of_app; [by right|].
    exfalso. by eapply Hun.
Qed.
(** ** [cache_insert] *)

Lemma lock_eq h c w t :
  pthread_mutex_lock (State h c false w t) = Done tt (State h c true w t).
Proof. reflexivity. Qed.

Lemma unlock_eq h c m w t :
  pthread_mutex_unlock (State h c m w t) = Done tt (State h c false w t).
Proof. reflexivity. Qed.

Lemma cache_inv_state s pins ps :
  cache_inv s pins ps ->
  exists h w t,
    s = State h (Some (CInfo (psum (payload h) ps) (head ps))) false w t
    /\ psum (payload h) ps <= MAX_CACHE_SIZE
    /\ links h ps /\ NoDup ps /\ data_ok (payload h) pins ps.
Proof.
  intros (c & Hc & Hst & Hsz & Hmax & Hm & Hl & Hnd & Hd).
  destruct s as [h c0 m w t]. destruct c as [sz st]. cbn in * |-.
  subst. by exists h, w, t.
Qed.

Lemma cache_inv_intro h sz st w t pins ps :
  st = head ps -> sz = psum (payload h) ps -> sz <= MAX_CACHE_SIZE ->
  links h ps -> NoDup ps -> data_ok (payload h) pins ps ->
  cache_inv (State h (Some (CInfo sz st)) false w t) pins ps.
Proof. intros. eexists. cbn. eauto 10. Qed.

(** The key is there: nothing changes. *)
Lemma insert_hit s pins ps u txt len fuel p :
  cache_inv s pins ps -> find_uri (blocks s) u ps = Some p ->
  (length ps <= fuel)%nat ->
  cache_insert fuel u txt len s = Done tt s.
Proof.
  intros (h & w & t & -> & _ & Hl & Hnd & Hd)%cache_inv_state Hfind Hf.
  cbn [blocks] in Hfind. unfold cache_insert.
  mstep ltac:(apply lock_eq).
  mstep ltac:(apply cache_findblock_spec; [done|done|by eapply data_ok_keyed|lia]).
  rewrite Hfind. unfold ret at 1. mstep ltac:(reflexivity). apply unlock_eq.
Qed.

(** The key is not there: room is made and the block goes in front, unless
    the room would have to come from a block that a reader holds. *)
Lemma insert_miss s pins ps u txt len fuel :
  cache_inv s pins ps -> find_uri (blocks s) u ps = None ->
  0 <= len <= Z.of_nat (length txt) -> len <= MAX_CACHE_SIZE ->
  (length ps < fuel)%nat ->
  (exists l1 l2 s' b,
      ps = l1 ++ l2 /\ (forall p, p ∈ l2 -> p ∉ pins) /\ (b ∉ l1) /\
      cache_insert fuel u txt len s = Done tt s' /\
      cache_inv s' pins (b :: l1) /\
      payload (blocks s')
      = <[b := Entry len 1 (Some u) (Some (take (Z.to_nat len) txt))]>
          (foldr delete (payload (blocks s)) l2) /\
      wfail s' = wfail s /\ trace s' = trace s /\
      psum (payload (blocks s)) l1 + len <= MAX_CACHE_SIZE /\
      (forall l2a x l2b, l2 = l2a ++ x :: l2b ->
         psum (payload (blocks s)) (l1 ++ l2a ++ [x]) + len > MAX_CACHE_SIZE))
  \/ (exists rem s',
      rem ∈ ps /\ rem ∈ pins /\
      psum (payload (blocks s)) ps + len > MAX_CACHE_SIZE /\
      cache_insert fuel u txt len s = Timeout s' /\
      mutex s' = true /\
      (forall f, block_free f rem s' = Timeout s') /\
      wfail s' = wfail s /\ trace s' = trace s /\
      (forall p e, p ∈ pins -> payload (blocks s) !! p = Some e ->
         exists e', payload (blocks s') !! p = Some e'
           /\ e_len e' = e_len e /\ e_uri e' = e_uri e
           /\ e_text e' = e_text e)).
Proof.
  intros (h & w & t & -> & Hmax & Hl & Hnd & Hd)%cache_inv_state
    Hfind Hlen Hlen' Hf.
  cbn [blocks] in Hfind. cbn [blocks wfail trace mutex]. unfold cache_insert.
  destruct (downsize_spec pins len true w t Hlen' ps h fuel Hl Hnd
              (data_ok_refs _ _ _ Hd) Hf)
    as [(l1 & l2 & h' & El & Hun & Hrun & Hl' & Hp' & Hle & Hover)
       |(rem & h' & c' & Hin & Hpin & Hbig & Hrun & Hsp & Hkeep)].
  - left.
    set (b := fresh (dom h')).
    assert (b ∉ l1) as Hb.
    { intros Hin. destruct (links_lookup _ _ _ Hl' Hin) as [x Hx].
      apply (is_fresh (dom h')). apply elem_of_dom. by eexists. }
    pose (blk := CBlock len 0 b b (Some u) (Some (take (Z.to_nat len) txt))).
    assert (NoDup l1) as Hnd1 by (subst ps; by apply NoDup_app in Hnd as (? & _)).
    destruct (addblock_spec (<[b := blk]> h') (psum (payload h') l1) l1
                true w t b blk) as (h'' & Hadd & Hl'' & Hp'').
    { by apply links_insert_ne. }
    { done. } { done. } { apply lookup_insert_eq. } { done. }
    cbn [text_len ref_cont uri text blk] in Hadd, Hp''.
    rewrite payload_insert, insert_insert_eq, Hp' in Hp''.
    change (0 + 1) with 1 in Hp''.
    exists l1, l2, (State h'' (Some (CInfo (psum (payload h') l1 + len) (Some b)))
                      false w t), b.
    split; [done|]. split; [done|]. split; [done|]. split; [|split].
    + mstep ltac:(apply lock_eq).
      mstep ltac:(apply cache_findblock_spec; [done|done|by eapply data_ok_keyed|lia]).
      rewrite Hfind.
      mstep ltac:(exact Hrun).
      mstep ltac:(apply block_new_spec; exact Hlen).
      mstep ltac:(exact Hadd). apply unlock_eq.
    + assert (psum (payload h'') (b :: l1) = psum (payload h') l1 + len) as Es.
      { cbn [psum foldr]. rewrite Hp'', lookup_insert_eq. cbn.
        fold (psum (<[b := Entry len 1 (Some u) (Some (take (Z.to_nat len) txt))]>
                      (foldr delete (payload h) l2)) l1).
        rewrite psum_insert by done. rewrite <- Hp'. lia. }
      apply cache_inv_intro; [done|by rewrite Es|lia|done| |].
      { apply NoDup_cons; by split. }
      rewrite Hp''. subst ps. apply data_ok_insert_new; try done.
      * cbn. exists (take (Z.to_nat len) txt). split; [done|].
        rewrite length_take. lia.
      * intros p e' He' E. cbn in E.
        assert (p ∈ l1 ++ l2) as Hp.
        { apply (elem_of_list_to_set (C := gset positive)).
          rewrite <- (d_dom _ _ _ Hd). apply elem_of_dom. by eexists. }
        eapply (proj1 (find_uri_None _ _ _) Hfind p Hp).
        rewrite payload_lookup in He'. destruct (h !! p) as [bp|]; [|done].
        cbn in *. injection He' as <-. done.
    + cbn [blocks wfail trace]. rewrite Hp''.
      split; [done|]. split; [done|]. split; [done|]. split; [|done].
      rewrite Hp' in Hle. rewrite <- Hle. apply Z.add_le_mono_r.
      apply Z.eq_le_incl. symmetry. apply psum_ext. intros p Hp.
      rewrite lookup_foldr_delete, decide_False; [done|].
      subst ps. apply NoDup_app in Hnd as (_ & Hdj & _). by apply Hdj.
  - right. exists rem, (State h' c' true w t).
    split; [done|]. split; [done|]. split; [done|]. split; [|by repeat split].
    mstep ltac:(apply lock_eq).
    mstep ltac:(apply cache_findblock_spec; [done|done|by eapply data_ok_keyed|lia]).
    rewrite Hfind. rewrite bind_assoc. by apply bind_Timeout.
Qed.
(** ** [cache_gettext] *)

Lemma data_ok_update d pins pins' ps ps' p e e' :
  data_ok d pins ps -> d !! p = Some e ->
  e_len e' = e_len e -> e_uri e' = e_uri e -> e_text e' = e_text e ->
  e_ref e' = 1 + pin_count pins' p ->
  (forall q, q ≠ p -> pin_count pins' q = pin_count pins q) ->
  (forall q, q ∈ ps <-> q ∈ ps') ->
  (forall q, q ∈ pins' -> q ∈ pins \/ q = p) ->
  data_ok (<[p := e']> d) pins' ps'.
Proof.
  intros [Hdom Hent Hkeys Hpins] He El Eu Et Er Hcnt Hperm Hsub.
  assert (p ∈ dom d) as Hp by (apply elem_of_dom; eauto).
  split.
  - rewrite dom_insert_L, Hdom. apply set_eq. intros q.
    rewrite elem_of_union, elem_of_singleton, !elem_of_list_to_set, <- Hperm.
    rewrite Hdom, elem_of_list_to_set in Hp. naive_solver.
  - intros q eq. rewrite lookup_insert. case_decide as Hq.
    + intros [= <-]. subst q. destruct (Hent _ _ He) as (? & ? & ?).
      rewrite Eu, Et, El. done.
    + intros Heq. destruct (Hent _ _ Heq) as (? & ? & ?).
      rewrite Hcnt by done. done.
  - intros q1 q2 e1 e2. rewrite !lookup_insert.
    repeat case_decide; subst; try done.
    + intros [= <-] H2 E. rewrite Eu in E. by eapply Hkeys.
    + intros H1 [= <-] E. rewrite Eu in E. by eapply Hkeys.
    + apply Hkeys.
  - intros q [Hq| ->]%Hsub; apply Hperm; [by apply Hpins|].
    by rewrite Hdom, elem_of_list_to_set in Hp.
Qed.

Lemma psum_update d p e e' ps :
  d !! p = Some e -> e_len e' = e_len e ->
  psum (<[p := e']> d) ps = psum d ps.
Proof.
  intros He El. induction ps as [|q r IH]; [done|]. cbn [psum foldr].
  fold (psum (<[p := e']> d) r). fold (psum d r). rewrite IH. f_equal.
  rewrite lookup_insert. case_decide; [|done]. subst. rewrite He. cbn.
  by rewrite El.
Qed.

(** The key is not there. *)
Lemma pin_miss s pins ps u fuel :
  cache_inv s pins ps -> find_uri (blocks s) u ps = None ->
  (length ps <= fuel)%nat ->
  gettext_pin fuel u s = Done None s.
Proof.
  intros (h & w & t & -> & _ & Hl & Hnd & Hd)%cache_inv_state Hfind Hf.
  cbn [blocks] in Hfind. unfold gettext_pin.
  mstep ltac:(apply lock_eq).
  mstep ltac:(apply cache_findblock_spec; [done|done|by eapply data_ok_keyed|lia]).
  rewrite Hfind. mstep ltac:(apply unlock_eq). reflexivity.
Qed.

(** The key is at block [p]: the block moves to the front and its count
    goes up by one. *)
Lemma pin_hit s pins ps u fuel p :
  cache_inv s pins ps -> find_uri (blocks s) u ps = Some p ->
  (length ps <= fuel)%nat ->
  exists l1 l2 s' e,
    ps = l1 ++ p :: l2 /\
    gettext_pin fuel u s = Done (Some p) s' /\
    cache_inv s' (p :: pins) (p :: l1 ++ l2) /\
    payload (blocks s) !! p = Some e /\
    payload (blocks s')
    = <[p := Entry (e_len e) (e_ref e + 1) (e_uri e) (e_text e)]>
        (payload (blocks s)) /\
    wfail s' = wfail s /\ trace s' = trace s.
Proof.
  intros (h & w & t & -> & Hmax & Hl & Hnd & Hd)%cache_inv_state Hfind Hf.
  cbn [blocks wfail trace] in *.
  destruct (find_uri_Some _ _ _ _ Hfind) as [Hin _].
  apply list_elem_of_split in Hin as (l1 & l2 & ->).
  destruct (links_lookup _ _ p Hl) as [b Hb]; [set_solver|].
  assert (payload h !! p = Some (entry_of b)) as Hpe
      by (by rewrite payload_lookup, Hb).
  assert (forall h' sz st,
    links h' (p :: l1 ++ l2) ->
    payload h' = <[p := Entry (text_len b) (ref_cont b + 1) (uri b) (text b)]>
                   (payload h) ->
    sz = psum (payload h) (l1 ++ p :: l2) -> st = Some p ->
    cache_inv (State h' (Some (CInfo sz st)) false w t)
      (p :: pins) (p :: l1 ++ l2)) as Hfin.
  { intros h' sz st Hl' Hp' -> ->.
    pose proof Hnd as (Hnd1 & Hdisj & [Hp2 Hnd2]%NoDup_cons)%NoDup_app.
    assert (p ∉ l1 ++ l2) as Hp12.
    { rewrite elem_of_app. intros [?|?]; [|done].
      eapply Hdisj; [done|left]. }
    assert (psum (payload h') (p :: l1 ++ l2)
            = psum (payload h) (l1 ++ p :: l2)) as Es.
    { rewrite Hp', (psum_update _ _ (entry_of b)) by done.
      cbn [psum foldr]. fold (psum (payload h) (l1 ++ l2)).
      rewrite !psum_app. cbn [psum foldr]. fold (psum (payload h) l2). lia. }
    apply cache_inv_intro; [done|done|lia|done| |].
    { apply NoDup_cons. split; [done|]. apply NoDup_app. split; [done|].
      split; [|done]. intros x Hx1 Hx2. eapply Hdisj; [done|by right]. }
    rewrite Hp'. eapply data_ok_update; [exact Hd|exact Hpe|done..| | | |].
    - pose proof (data_ok_refs _ _ _ Hd _ _ Hpe) as Hr. cbn in Hr |- *.
      rewrite pin_count_cons, decide_True by done. lia.
    - intros q Hq. rewrite pin_count_cons, decide_False by done. lia.
    - intros q. rewrite elem_of_cons, !elem_of_app, elem_of_cons. tauto.
    - intros q [->|?]%elem_of_cons; auto. }
  unfold gettext_pin.
  destruct l1 as [|a l1].
  - (* already in front *)
    eexists [], l2, _, (entry_of b). split; [done|].
    split; [|split; [|split; [done|]]].
    + mstep ltac:(apply lock_eq).
      mstep ltac:(apply cache_findblock_spec; [done|done|by eapply data_ok_keyed|lia]).
      rewrite Hfind. mcache. cbn [start head app].
      rewrite decide_True by done. mload Hb. unfold set_ref_cont. mmod Hb.
      mstep ltac:(apply unlock_eq). reflexivity.
    + apply Hfin; [|by rewrite payload_insert|done..].
      by eapply links_insert_same.
    + cbn [blocks wfail trace]. by rewrite payload_insert.
  - (* further down: out of the ring, then back in at the front *)
    pose proof Hnd as (Hnd1 & Hdisj & [Hp2 Hnd2]%NoDup_cons)%NoDup_app.
    assert (p ∉ a :: l1) as Hp1 by (intros ?; eapply Hdisj; [done|left]).
    assert (NoDup (p :: l2 ++ a :: l1)) as Hndr.
    { apply NoDup_cons. split.
      - rewrite elem_of_app. tauto.
      - apply NoDup_app. split; [done|]. split; [|done].
        intros x Hx2 Hx1. eapply Hdisj; [done|by right]. }
    pose proof (links_rotate _ (a :: l1) (p :: l2) Hl) as Hlr.
    rewrite <- app_comm_cons in Hlr.
    destruct (list_snoc_inv a l1) as (l1' & pl & El & Epl).
    assert (last (l2 ++ a :: l1) = Some pl) as Hlast.
    { rewrite El, app_assoc. apply last_snoc. }
    destruct (head (l2 ++ a :: l1)) as [nb|] eqn:Hhead;
      [|by destruct l2].
    pose proof (links_head _ _ _ Hlr) as (b0 & Hb0 & Hbp & Hbn & _).
    assert (b0 = b) as -> by congruence.
    rewrite Hlast in Hbp. rewrite Hhead in Hbn. cbn in Hbp, Hbn.
    assert (nb ∈ l2 ++ a :: l1) as Hnb_in.
    { destruct l2; cbn in Hhead; injection Hhead as <-; set_solver. }
    assert (pl ∈ l2 ++ a :: l1) as Hpl_in by (rewrite El; set_solver).
    pose proof Hndr as [Hpr Hndr']%NoDup_cons.
    assert (nb ≠ p) as Hnb by (intros E; by rewrite E in Hnb_in).
    assert (pl ≠ p) as Hpl by (intros E; by rewrite E in Hpl_in).
    destruct (links_lookup _ _ nb Hlr) as [bn Hbnb]; [by right|].
    destruct (unlink_prev_next _ _ _ nb pl _ Hndr Hlr Hhead Hlast Hbnb)
      as (bp & Hbpl & Hl2).
    apply links_rotate in Hl2. rewrite <- app_comm_cons in Hl2.
    set (h2 := <[pl := upd_next nb bp]> (<[nb := upd_prev pl bn]> h)) in *.
    assert (h2 !! p = Some b) as Hb2.
    { unfold h2. by rewrite !lookup_insert_ne. }
    assert (payload h2 = payload h) as Hp2'.
    { unfold h2. rewrite (payload_insert_same _ _ _ _ Hbpl) by done.
      by rewrite (payload_insert_same _ _ _ _ Hbnb). }
    destruct (addblock_spec h2 (psum (payload h) ((a :: l1) ++ p :: l2))
                (a :: l1 ++ l2) true w t p b) as (h3 & Hadd & Hl3 & Hp3).
    { done. }
    { change (NoDup ((a :: l1) ++ l2)). apply NoDup_app.
      apply NoDup_app in Hndr' as (? & Hd' & ?). split; [done|].
      split; [|done]. intros x Hx1 Hx2. by eapply Hd'. }
    { change (p ∉ (a :: l1) ++ l2). rewrite elem_of_app. tauto. }
    { done. } { done. }
    rewrite Hp2' in Hp3.
    assert (exists b3, h3 !! p = Some b3 /\ text_len b3 = text_len b)
      as (b3 & Hb3 & Hlen3).
    { pose proof (payload_lookup h3 p) as E.
      rewrite Hp3, lookup_insert_eq in E. destruct (h3 !! p) as [b3|]; [|done].
      exists b3. split; [done|]. cbn in E. by injection E as <-. }
    eexists (a :: l1), l2, _, (entry_of b). split; [done|].
    split; [|split; [|split; [done|]]].
    + mstep ltac:(apply lock_eq).
      mstep ltac:(apply cache_findblock_spec; [done|done|by eapply data_ok_keyed|lia]).
      rewrite Hfind. mcache. cbn [start head app].
      rewrite decide_False by (intros [= ->]; apply Hp1; left).
      mload Hb. rewrite Hbn, Hbp. unfold set_prev. mmod Hbnb.
      mstep ltac:(apply load_eq; rewrite lookup_insert_ne by done; exact Hb).
      rewrite Hbn, Hbp. unfold set_next. mmod Hbpl.
      mstep ltac:(exact Hadd). mcache. mload Hb3.
      mstep ltac:(apply set_size_eq). mstep ltac:(apply unlock_eq).
      reflexivity.
    + apply Hfin; [done|done| |done]. cbn [size]. lia.
    + done.
Qed.
(** The text of a listed block goes out whole. *)
Lemma send_spec s pins ps p fd :
  cache_inv s pins ps -> p ∈ ps ->
  exists tx ok s',
    payload (blocks s) !! p ≫= e_text = Some tx /\
    gettext_send fd p s = Done tt s' /\
    trace s' = trace s ++ [EvWrite fd tx ok] /\
    ok = negb (default false (head (wfail s))) /\
    blocks s' = blocks s /\
    cache_inv s' pins ps.
Proof.
  intros (h & w & t & -> & Hmax & Hl & Hnd & Hd)%cache_inv_state Hin.
  cbn [blocks wfail trace].
  destruct (links_lookup _ _ p Hl Hin) as [b Hb].
  assert (payload h !! p = Some (entry_of b)) as Hpe
      by (by rewrite payload_lookup, Hb).
  destruct (d_entry _ _ _ Hd _ _ Hpe) as (_ & (tx & Htx & Hlen) & _).
  cbn in Htx, Hlen.
  exists tx, (negb (default false (head w))).
  assert (take (Z.to_nat (text_len b)) tx = tx) as Etake.
  { apply firstn_all2. rewrite Hlen. lia. }
  unfold gettext_send.
  destruct w as [|[] w]; eexists; (split; [by rewrite Hpe; cbn|]);
    (split; [mload Hb; rewrite Htx; mstep ltac:(reflexivity); reflexivity|]);
    cbn [trace blocks head default negb]; rewrite Etake;
    (split; [done|]); (split; [done|]); (split; [done|]);
    by apply cache_inv_intro.
Qed.

(** A reader lets go of block [p]: its count goes down by one. *)
Lemma unpin_spec s k1 p k2 ps :
  cache_inv s (k1 ++ p :: k2) ps ->
  exists s' e,
    gettext_unpin p s = Done tt s' /\
    cache_inv s' (k1 ++ k2) ps /\
    payload (blocks s) !! p = Some e /\
    payload (blocks s')
    = <[p := Entry (e_len e) (e_ref e - 1) (e_uri e) (e_text e)]>
        (payload (blocks s)) /\
    wfail s' = wfail s /\ trace s' = trace s.
Proof.
  intros (h & w & t & -> & Hmax & Hl & Hnd & Hd)%cache_inv_state.
  cbn [blocks wfail trace].
  assert (p ∈ ps) as Hin by (apply (d_pins _ _ _ Hd); set_solver).
  destruct (links_lookup _ _ p Hl Hin) as [b Hb].
  assert (payload h !! p = Some (entry_of b)) as Hpe
      by (by rewrite payload_lookup, Hb).
  eexists _, (entry_of b). split; [|split; [|split; [done|]]].
  - unfold gettext_unpin. mstep ltac:(apply lock_eq). mload Hb.
    unfold set_ref_cont. mmod Hb. apply unlock_eq.
  - apply cache_inv_intro; [done| |done| |done|].
    + rewrite payload_insert. symmetry. by eapply psum_update.
    + by eapply links_insert_same.
    + rewrite payload_insert.
      eapply data_ok_update; [exact Hd|exact Hpe|done..| | | |].
      * pose proof (data_ok_refs _ _ _ Hd _ _ Hpe) as Hr. cbn in Hr |- *.
        rewrite pin_count_app, pin_count_cons, decide_True in Hr by done.
        rewrite pin_count_app. lia.
      * intros q Hq.
        rewrite !pin_count_app, pin_count_cons, decide_False by done. lia.
      * done.
      * intros q. rewrite !elem_of_app, elem_of_cons. tauto.
  - cbn [blocks wfail trace]. by rewrite payload_insert.
Qed.
(** ** More fuel changes nothing once a loop has ended *)

Lemma bind_final_mono {A B} (m m' : M A) (k k' : A -> M B) s :
  final (bind m k s) ->
  (final (m s) -> m' s = m s) ->
  (forall a s1, m s = Done a s1 -> final (k a s1) -> k' a s1 = k a s1) ->
  bind m' k' s = bind m k s.
Proof.
  unfold bind. intros Hf Hm Hk.
  destruct (m s) as [a s1| |s1|s1] eqn:E; cbn in Hf; try done;
    rewrite Hm by done; auto.
Qed.

Ltac mono_step :=
  match goal with
  | H : final (bind ?m ?k ?s) |- bind _ _ ?s = bind ?m ?k ?s =>
      apply (bind_final_mono _ _ _ _ _ H);
      [ try (intros _; reflexivity) | clear H; intros ? ? ? H; cbn beta in H |- * ]
  end.

Lemma block_free_mono n n' p s :
  (n <= n')%nat -> final (block_free n p s) ->
  block_free n' p s = block_free n p s.
Proof.
  revert n' s. induction n as [|n IH]; intros n' s Hle H; [done|].
  destruct n' as [|n']; [lia|]. cbn [block_free] in *.
  mono_step. destruct (ref_cont a =? 0); [done|]. apply IH; [lia|done].
Qed.

Lemma findblock_loop_mono n n' u st p s :
  (n <= n')%nat -> final (findblock_loop n u st p s) ->
  findblock_loop n' u st p s = findblock_loop n u st p s.
Proof.
  revert n' p s. induction n as [|n IH]; intros n' p s Hle H; [done|].
  destruct n' as [|n']; [lia|]. cbn [findblock_loop] in *.
  mono_step. destruct (uri a); [|done]. destruct (String.eqb u s0); [done|].
  destruct (Pos.eqb (next a) st); [done|]. apply IH; [lia|done].
Qed.

Lemma cache_findblock_mono n n' u s :
  (n <= n')%nat -> final (cache_findblock n u s) ->
  cache_findblock n' u s = cache_findblock n u s.
Proof.
  intros Hle H. unfold cache_findblock in *. mono_step.
  destruct (start a); [|done]. by apply findblock_loop_mono.
Qed.

Lemma cache_remblock_mono n n' s :
  (n <= n')%nat -> final (cache_remblock n s) ->
  cache_remblock n' s = cache_remblock n s.
Proof.
  intros Hle H. unfold cache_remblock in *. mono_step.
  destruct (start a); [|done]. do 11 mono_step. by apply block_free_mono.
Qed.

Lemma downsize_mono n n' len s :
  (n <= n')%nat -> final (downsize n len s) ->
  downsize n' len s = downsize n len s.
Proof.
  revert n' s. induction n as [|n IH]; intros n' s Hle H; [done|].
  destruct n' as [|n']; [lia|]. cbn [downsize] in *.
  mono_step. destruct (size a + len >? MAX_CACHE_SIZE); [|done].
  mono_step; [intros ?; apply cache_remblock_mono; [lia|done]|].
  apply IH; [lia|done].
Qed.

Lemma cache_insert_mono n n' u txt len s :
  (n <= n')%nat -> final (cache_insert n u txt len s) ->
  cache_insert n' u txt len s = cache_insert n u txt len s.
Proof.
  intros Hle H. unfold cache_insert in *. mono_step.
  mono_step; [intros ?; by apply cache_findblock_mono|].
  mono_step; [|done]. clear H. intros H. destruct a0; [done|].
  mono_step; [|done]. intros ?. by apply downsize_mono.
Qed.

Lemma gettext_pin_mono n n' u s :
  (n <= n')%nat -> final (gettext_pin n u s) ->
  gettext_pin n' u s = gettext_pin n u s.
Proof.
  intros Hle H. unfold gettext_pin in *. mono_step.
  mono_step; [|done]. intros ?. by apply cache_findblock_mono.
Qed.

Lemma cache_gettext_mono n n' u fd s :
  (n <= n')%nat -> final (cache_gettext n u fd s) ->
  cache_gettext n' u fd s = cache_gettext n u fd s.
Proof.
  intros Hle H. unfold cache_gettext in *. mono_step; [|done].
  intros ?. by apply gettext_pin_mono.
Qed.
(** ** One eviction on its own *)

Lemma data_ok_delete d pins l1 l2 :
  NoDup (l1 ++ l2) -> data_ok d pins (l1 ++ l2) ->
  (forall p, p ∈ l2 -> p ∉ pins) ->
  data_ok (foldr delete d l2) pins l1.
Proof.
  intros Hnd [Hdom Hent Hkeys Hpins] Hun.
  pose proof Hnd as (_ & Hdisj & _)%NoDup_app.
  assert (forall p e', foldr delete d l2 !! p = Some e' ->
                       d !! p = Some e' /\ p ∉ l2) as Hsub.
  { intros p e'. rewrite lookup_foldr_delete. by case_decide. }
  split.
  - apply set_eq. intros p.
    rewrite elem_of_dom, elem_of_list_to_set, lookup_foldr_delete.
    split.
    + intros [e' He']. case_decide; [done|].
      assert (p ∈ dom d) as Hp by (apply elem_of_dom; eauto).
      rewrite Hdom, elem_of_list_to_set, elem_of_app in Hp. tauto.
    + intros Hp. rewrite decide_False by (intros ?; by eapply Hdisj).
      apply elem_of_dom. rewrite Hdom, elem_of_list_to_set, elem_of_app. tauto.
  - intros p e' [He' _]%Hsub. by apply Hent.
  - intros p q e1 e2 [He1 _]%Hsub [He2 _]%Hsub. by apply Hkeys.
  - intros p Hp. pose proof (Hpins _ Hp) as [?|?]%elem_of_app; [done|].
    exfalso. by eapply Hun.
Qed.

(** What [cache_remblock] does to a cache at rest: the least recently used
    block goes if no reader holds it; if one does, the call never returns. *)
Lemma remblock_spec s pins l x fuel :
  cache_inv s pins (l ++ [x]) ->
  (x ∉ pins ->
   exists s', cache_remblock (S fuel) s = Done tt s' /\ cache_inv s' pins l /\
     payload (blocks s') = delete x (payload (blocks s)) /\
     wfail s' = wfail s /\ trace s' = trace s)
  /\ (x ∈ pins -> exists s', cache_remblock fuel s = Timeout s').
Proof.
  intros (h & w & t & -> & Hmax & Hl & Hnd & Hd)%cache_inv_state.
  cbn [blocks wfail trace].
  destruct (links_lookup _ _ x Hl) as [rb Hrb]; [set_solver|].
  assert (payload h !! x = Some (entry_of rb)) as Hpe
      by (by rewrite payload_lookup, Hrb).
  pose proof (data_ok_refs _ _ _ Hd _ _ Hpe) as Hr. cbn in Hr.
  pose proof Hnd as (Hndl & Hdisj & _)%NoDup_app.
  assert (x ∉ l) as Hxl.
  { intros ?. eapply Hdisj; [done|]. by apply list_elem_of_singleton. }
  split.
  - intros Hx.
    destruct (remblock_unlink _ (psum (payload h) (l ++ [x])) _ _ _ false w t
                (S fuel) Hl Hnd Hrb) as (h1 & Hrun & Hl1 & (rb' & Hrb' & Hrc) & Hpay).
    apply pin_count_zero in Hx. rewrite Hr, Hx in Hrc.
    rewrite (block_free_zero _ _ _ _ _ _ _ fuel Hrb') in Hrun by lia.
    assert (payload (delete x h1) = delete x (payload h)) as Hpay1.
    { rewrite payload_delete, Hpay. apply delete_insert_eq. }
    eexists. split; [exact Hrun|].
    split; [|cbn [blocks wfail trace]; by rewrite Hpay1].
    assert (psum (payload h) (l ++ [x]) - text_len rb = psum (payload h) l) as Es.
    { rewrite psum_app. cbn [psum foldr]. rewrite Hpe. cbn. lia. }
    destruct (d_entry _ _ _ Hd _ _ Hpe) as (_ & (tx & _ & Hlen) & _).
    cbn in Hlen.
    apply cache_inv_intro; [done| |lia| |done|].
    + rewrite Hpay1, psum_delete by done. done.
    + by apply links_delete_ne.
    + rewrite Hpay1. apply (data_ok_delete _ _ l [x]); [done..|].
      intros p ->%list_elem_of_singleton. by apply pin_count_zero.
  - intros Hx.
    destruct (remblock_unlink _ (psum (payload h) (l ++ [x])) _ _ _ false w t
                fuel Hl Hnd Hrb) as (h1 & Hrun & Hl1 & (rb' & Hrb' & Hrc) & Hpay).
    eexists. rewrite Hrun. eapply block_free_spin; [done|].
    rewrite Hrc, Hr. pose proof (pin_count_nonneg pins x).
    intros E. assert (pin_count pins x = 0) as E0 by lia.
    by apply pin_count_zero in E0.
Qed.

Lemma remblock_empty s pins fuel :
  cache_inv s pins [] -> cache_remblock fuel s = Fault.
Proof.
  intros (h & w & t & -> & _)%cache_inv_state. reflexivity.
Qed.

(** ** The invariant holds in every reachable state *)

Lemma init_inv w : cache_inv (State ∅ (Some (CInfo 0 None)) false w []) [] [].
Proof.
  apply cache_inv_intro; try done. apply NoDup_nil_2.
Qed.

Lemma step_inv s pins s' pins' ps :
  cache_inv s pins ps -> step (s, pins) (s', pins') ->
  exists ps', cache_inv s' pins' ps'.
Proof.
  intros Hinv Hstep.
  inversion Hstep as
    [ ? ? fuel u txt len ? Hlen Hlen' Hrun0
    | ? ? fuel u p ? Hrun0
    | ? ? fuel u ? Hrun0
    | ? ? fd p ? Hpin Hrun0
    | ? k1 p k2 ? Hrun0
    | ? ? fuel ? Hrun0
    | ? ? w t ]; subst; clear Hstep.
  - (* cache_insert *)
    pose (F := Nat.max fuel (S (length ps))).
    assert (cache_insert F u txt len s = Done tt s') as HF.
    { rewrite <- Hrun0. apply cache_insert_mono; [lia|by rewrite Hrun0]. }
    destruct (find_uri (blocks s) u ps) as [p|] eqn:Hfind.
    + rewrite (insert_hit _ _ _ _ _ _ _ _ Hinv Hfind) in HF by lia.
      injection HF as <-. eauto.
    + destruct (insert_miss _ _ _ u txt len F Hinv Hfind) as
        [(l1 & l2 & s1 & b & _ & _ & _ & Hrun & Hinv' & _)
        |(rem & s1 & _ & _ & _ & Hrun & _)]; [done|done|lia| |congruence].
      rewrite Hrun in HF. injection HF as <-. eauto.
  - (* first section of cache_gettext, a hit *)
    pose (F := Nat.max fuel (length ps)).
    assert (gettext_pin F u s = Done (Some p) s') as HF.
    { rewrite <- Hrun0. apply gettext_pin_mono; [lia|by rewrite Hrun0]. }
    destruct (find_uri (blocks s) u ps) as [p0|] eqn:Hfind.
    + destruct (pin_hit _ _ _ _ F _ Hinv Hfind) as
        (l1 & l2 & s1 & e & _ & Hrun & Hinv' & _); [lia|].
      rewrite Hrun in HF. injection HF as <- <-. eauto.
    + rewrite (pin_miss _ _ _ _ F Hinv Hfind) in HF by lia. done.
  - (* first section of cache_gettext, a miss *)
    pose (F := Nat.max fuel (length ps)).
    assert (gettext_pin F u s = Done None s') as HF.
    { rewrite <- Hrun0. apply gettext_pin_mono; [lia|by rewrite Hrun0]. }
    destruct (find_uri (blocks s) u ps) as [p0|] eqn:Hfind.
    + destruct (pin_hit _ _ _ _ F _ Hinv Hfind) as
        (l1 & l2 & s1 & e & _ & Hrun & Hinv' & _); [lia|].
      rewrite Hrun in HF. done.
    + rewrite (pin_miss _ _ _ _ F Hinv Hfind) in HF by lia.
      injection HF as <-. eauto.
  - (* the write *)
    assert (p ∈ ps) as Hin.
    { destruct Hinv as (? & _ & _ & _ & _ & _ & _ & _ & Hd).
      by apply (d_pins _ _ _ Hd). }
    destruct (send_spec _ _ _ _ fd Hinv Hin) as (tx & ok & s1 & _ & Hrun & _ & _ & _ & Hinv').
    rewrite Hrun in Hrun0. injection Hrun0 as <-. eauto.
  - (* second section of cache_gettext *)
    destruct (unpin_spec _ _ _ _ _ Hinv) as (s1 & e & Hrun & Hinv' & _).
    rewrite Hrun in Hrun0. injection Hrun0 as <-. eauto.
  - (* one eviction *)
    destruct ps as [|y ps' _] using rev_ind.
    { by rewrite (remblock_empty _ _ _ Hinv) in Hrun0. }
    destruct (remblock_spec _ _ _ _ fuel Hinv) as [Hout Hheld].
    destruct (decide (y ∈ pins')) as [Hy|Hy].
    + destruct (Hheld Hy) as (s1 & Hrun). congruence.
    + destruct (Hout Hy) as (s1 & Hrun & Hinv' & _).
      assert (cache_remblock (S fuel) s = Done tt s') as HF.
      { rewrite <- Hrun0. apply cache_remblock_mono; [lia|by rewrite Hrun0]. }
      rewrite Hrun in HF. injection HF as <-. eauto.
  - (* the outside world *)
    apply cache_inv_state in Hinv as (h & w0 & t0 & -> & ? & ? & ? & ?).
    exists ps. by apply cache_inv_intro.
Qed.

(** The invariant holds in every state the threads can reach. *)
Lemma reachable_inv s pins :
  reachable s pins -> exists ps, cache_inv s pins ps.
Proof.
  induction 1 as [w s Hinit|s pins s' pins' _ [ps IH] Hstep].
  - injection Hinit as <-. exists []. apply init_inv.
  - by eapply step_inv.
Qed.
(** ** The ring and the list it stands for *)

Lemma view_heap h ps :
  omap (fun p => h !! p ≫= block_view) ps = view (payload h) ps.
Proof.
  unfold view. induction ps as [|p r IH]; [done|]. cbn [omap list_omap].
  rewrite IH, payload_lookup. by destruct (h !! p).
Qed.

Lemma view_app d l1 l2 : view d (l1 ++ l2) = view d l1 ++ view d l2.
Proof. apply omap_app. Qed.

Lemma view_ext d d' ps :
  (forall p, p ∈ ps -> d' !! p = d !! p) -> view d' ps = view d ps.
Proof.
  unfold view. induction ps as [|p r IH]; intros H; [done|].
  cbn [omap list_omap]. rewrite H by left. rewrite IH; [done|].
  intros q Hq. apply H. by right.
Qed.

Lemma data_ok_listed d pins ps : data_ok d pins ps -> listed d ps.
Proof.
  intros Hd p Hp.
  assert (p ∈ dom d) as [e He]%elem_of_dom
      by (by rewrite (d_dom _ _ _ Hd), elem_of_list_to_set).
  destruct (d_entry _ _ _ Hd _ _ He) as ([u Hu] & (tx & Ht & Hl) & _).
  by exists e, u, tx.
Qed.

Lemma listed_app d l1 l2 : listed d (l1 ++ l2) <-> listed d l1 /\ listed d l2.
Proof.
  unfold listed. setoid_rewrite elem_of_app. naive_solver.
Qed.

Lemma view_cons d p r e u tx :
  d !! p = Some e -> e_uri e = Some u -> e_text e = Some tx ->
  view d (p :: r) = (u, tx) :: view d r.
Proof.
  intros He Hu Ht. unfold view. cbn [omap list_omap]. rewrite He. cbn.
  unfold entry_view. by rewrite Hu, Ht.
Qed.

Lemma vsum_app v1 v2 : vsum (v1 ++ v2) = vsum v1 + vsum v2.
Proof. induction v1 as [|e r IH]; cbn; [done|]. fold (vsum (r ++ v2)). fold (vsum r). lia. Qed.

Lemma vsum_reverse v : vsum (reverse v) = vsum v.
Proof.
  induction v as [|e r IH]; [done|]. rewrite reverse_cons, vsum_app, IH.
  cbn. fold (vsum r). lia.
Qed.

Lemma psum_vsum d ps : listed d ps -> psum d ps = vsum (view d ps).
Proof.
  induction ps as [|p r IH]; intros Hl; [done|].
  destruct (Hl p) as (e & u & tx & He & Hu & Ht & Hlen); [left|].
  rewrite (view_cons _ _ _ _ _ _ He Hu Ht). cbn [psum vsum foldr].
  fold (psum d r). fold (vsum (view d r)). rewrite He. cbn. rewrite Hlen.
  rewrite IH; [done|]. intros q Hq. apply Hl. by right.
Qed.

Lemma view_length d ps : listed d ps -> length (view d ps) = length ps.
Proof.
  induction ps as [|p r IH]; intros Hl; [done|].
  destruct (Hl p) as (e & u & tx & He & Hu & Ht & Hlen); [left|].
  rewrite (view_cons _ _ _ _ _ _ He Hu Ht). cbn. rewrite IH; [done|].
  intros q Hq. apply Hl. by right.
Qed.

Lemma find_uri_view_None h u ps :
  listed (payload h) ps -> find_uri h u ps = None ->
  lru_lookup u (view (payload h) ps) = None.
Proof.
  induction ps as [|p r IH]; intros Hl Hf; [done|].
  destruct (Hl p) as (e & k & tx & He & Hu & Ht & Hlen); [left|].
  rewrite (view_cons _ _ _ _ _ _ He Hu Ht). cbn in Hf |- *.
  rewrite payload_lookup in He. destruct (h !! p) as [b|]; [|done].
  injection He as <-. cbn in Hu, Hf. rewrite Hu in Hf.
  case_decide as Hd; [done|]. rewrite decide_False by congruence.
  apply IH; [|done]. intros q Hq. apply Hl. by right.
Qed.

Lemma find_uri_view_Some h u l1 p l2 :
  listed (payload h) (l1 ++ p :: l2) -> NoDup (l1 ++ p :: l2) ->
  find_uri h u (l1 ++ p :: l2) = Some p ->
  exists tx,
    payload h !! p ≫= e_text = Some tx /\
    lru_lookup u (view (payload h) (l1 ++ p :: l2)) = Some tx /\
    lru_remove u (view (payload h) (l1 ++ p :: l2))
    = view (payload h) (l1 ++ l2).
Proof.
  induction l1 as [|q l1 IH]; intros Hl Hnd Hf.
  - cbn [app] in *.
    destruct (Hl p) as (e & k & tx & He & Hu & Ht & Hlen); [left|].
    rewrite (view_cons _ _ _ _ _ _ He Hu Ht). cbn in Hf |- *.
    pose proof He as He'.
    rewrite payload_lookup in He. destruct (h !! p) as [b|]; [|done].
    injection He as <-. cbn in Hu, Hf. rewrite Hu in Hf.
    apply NoDup_cons in Hnd as [Hp _].
    case_decide as Hd.
    + injection Hd as ->. exists tx. rewrite !decide_True by done.
      rewrite He'. done.
    + exfalso. apply Hp. by apply find_uri_Some in Hf as [? _].
  - rewrite <- !app_comm_cons in *.
    destruct (Hl q) as (e & k & tx & He & Hu & Ht & Hlen); [left|].
    rewrite !(view_cons _ _ _ _ _ _ He Hu Ht). cbn in Hf |- *.
    pose proof He as He'.
    rewrite payload_lookup in He. destruct (h !! q) as [b|]; [|done].
    injection He as <-. cbn in Hu, Hf. rewrite Hu in Hf.
    apply NoDup_cons in Hnd as [Hq Hnd].
    case_decide as Hd.
    + exfalso. injection Hf as ->. apply Hq. set_solver.
    + destruct IH as (tx' & Hp & Hlk & Hrm); [|done..|].
      { intros x Hx. apply Hl. by right. }
      exists tx'. rewrite !decide_False by congruence.
      by rewrite Hrm.
Qed.

Lemma view_update d p e e' ps :
  d !! p = Some e -> e_uri e' = e_uri e -> e_text e' = e_text e ->
  view (<[p := e']> d) ps = view d ps.
Proof.
  intros He Eu Et. unfold view. induction ps as [|q r IH]; [done|].
  cbn [omap list_omap]. rewrite IH. rewrite lookup_insert.
  case_decide; [|done]. subst. rewrite He. cbn. unfold entry_view.
  by rewrite Eu, Et.
Qed.

Lemma view_split d l v2a e v2b :
  listed d l -> view d l = v2a ++ e :: v2b ->
  exists l2a x l2b,
    l = l2a ++ x :: l2b /\ view d l2a = v2a /\ view d [x] = [e].
Proof.
  revert v2a. induction l as [|p r IH]; intros v2a Hl Hv.
  - by destruct v2a.
  - destruct (Hl p) as (e0 & u & tx & He & Hu & Ht & Hlen); [left|].
    rewrite (view_cons _ _ _ _ _ _ He Hu Ht) in Hv.
    destruct v2a as [|a v2a]; cbn [app] in Hv.
    + injection Hv as <- _. exists [], p, r.
      by rewrite (view_cons _ _ _ _ _ _ He Hu Ht).
    + injection Hv as <- Hv.
      destruct (IH v2a) as (l2a & x & l2b & -> & Hva & Hx); [|done|].
      { intros q Hq. apply Hl. by right. }
      exists (p :: l2a), x, l2b.
      by rewrite <- app_comm_cons, (view_cons _ _ _ _ _ _ He Hu Ht), Hva.
Qed.

Lemma trim_lru_spec len v1 v2 :
  vsum v1 + len <= MAX_CACHE_SIZE ->
  (forall v2a e v2b, v2 = v2a ++ e :: v2b ->
     vsum (v1 ++ v2a ++ [e]) + len > MAX_CACHE_SIZE) ->
  reverse (trim_lru len (reverse (v1 ++ v2))) = v1.
Proof.
  intros Hfit. induction v2 as [|e v2 IH] using rev_ind; intros Hover.
  - rewrite app_nil_r. destruct (reverse v1) as [|e r] eqn:E.
    + cbn. apply (f_equal reverse) in E. by rewrite reverse_involutive in E.
    + cbn [trim_lru]. rewrite <- E, vsum_reverse.
      destruct (vsum v1 + len >? MAX_CACHE_SIZE) eqn:E'; [lia|].
      apply reverse_involutive.
  - rewrite app_assoc, reverse_snoc. cbn [trim_lru].
    rewrite <- reverse_snoc, vsum_reverse, <- app_assoc.
    pose proof (Hover v2 e [] eq_refl).
    destruct (vsum (v1 ++ v2 ++ [e]) + len >? MAX_CACHE_SIZE) eqn:E'; [|lia].
    apply IH. intros v2a x v2b ->. apply (Hover v2a x (v2b ++ [e])).
    by rewrite <- app_assoc.
Qed.

Lemma cache_inv_view s pins ps :
  cache_inv s pins ps ->
  cache_list s = ps /\ cache_view s = view (payload (blocks s)) ps.
Proof.
  intros (h & w & t & -> & _ & Hl & Hnd & _)%cache_inv_state.
  unfold cache_view. rewrite (cache_list_spec _ _ _ _ _ _ Hl Hnd).
  split; [done|]. apply view_heap.
Qed.

(** [cache_insert] on a cache at rest is [lru_insert]. *)
Lemma insert_refines s ps u txt len fuel :
  cache_inv s [] ps ->
  0 <= len <= Z.of_nat (length txt) -> len <= MAX_CACHE_SIZE ->
  (length ps < fuel)%nat ->
  exists s' ps',
    cache_insert fuel u txt len s = Done tt s' /\
    cache_inv s' [] ps' /\
    cache_view s' = lru_insert u (take (Z.to_nat len) txt) (cache_view s) /\
    wfail s' = wfail s /\ trace s' = trace s /\
    (length ps' <= S (length ps))%nat.
Proof.
  intros Hinv Hlen Hlen' Hf.
  destruct (cache_inv_view _ _ _ Hinv) as [_ Hv].
  pose proof Hinv as (h & w & t & -> & _ & Hl & Hnd & Hd)%cache_inv_state.
  pose proof (data_ok_listed _ _ _ Hd) as Hls.
  cbn [blocks] in Hv. rewrite Hv. unfold lru_insert.
  destruct (find_uri h u ps) as [p|] eqn:Hfind.
  - exists (State h (Some (CInfo (psum (payload h) ps) (head ps))) false w t), ps.
    split; [eapply insert_hit; [done|done|lia]|]. split; [done|].
    split; [|repeat split; try done; lia]. rewrite Hv.
    destruct (find_uri_Some _ _ _ _ Hfind) as [Hin _].
    apply list_elem_of_split in Hin as (l1 & l2 & ->).
    destruct (find_uri_view_Some _ _ _ _ _ Hls Hnd Hfind) as (tx & _ & -> & _).
    done.
  - rewrite (find_uri_view_None _ _ _ Hls Hfind).
    destruct (insert_miss _ _ _ u txt len fuel Hinv Hfind Hlen Hlen' Hf) as
        [(l1 & l2 & s1 & b & -> & _ & Hb & Hrun & Hinv' & Hp' & Hw & Ht & Hfit & Hover)
        |(rem & s1 & _ & Hrem & _)]; [|by apply elem_of_nil in Hrem].
    exists s1, (b :: l1). split; [done|]. split; [done|].
    split; [|repeat split; try done; rewrite length_app; simpl; lia].
    destruct (cache_inv_view _ _ _ Hinv') as [_ ->]. rewrite Hp'.
    cbn [blocks] in *.
    apply listed_app in Hls as [Hls1 Hls2].
    pose proof Hnd as (_ & Hdisj & _)%NoDup_app.
    erewrite view_cons; [|apply lookup_insert_eq|done..]. f_equal.
    rewrite length_take, Nat.min_l by lia. rewrite Z2Nat.id by lia.
    rewrite view_app, trim_lru_spec.
    + apply view_ext. intros p Hp. rewrite lookup_insert_ne by (by intros ->).
      rewrite lookup_foldr_delete, decide_False; [done|]. by apply Hdisj.
    + rewrite <- psum_vsum by done. done.
    + intros v2a e v2b E.
      destruct (view_split _ _ _ _ _ Hls2 E) as (l2a & x & l2b & -> & <- & <-).
      rewrite <- !view_app, <- psum_vsum; [by eapply Hover|].
      apply listed_app. split; [done|].
      intros q Hq. apply Hls2. rewrite !elem_of_app in *.
      rewrite elem_of_cons. rewrite list_elem_of_singleton in Hq. tauto.
Qed.

Lemma payload_uri h p : payload h !! p ≫= e_uri = h !! p ≫= uri.
Proof. rewrite payload_lookup. by destruct (h !! p). Qed.

(** [cache_gettext] on a cache at rest is [lru_touch]; on a hit the bytes
    of the entry are handed to [rio_writen]. *)
Lemma gettext_refines s ps u fd fuel :
  cache_inv s [] ps -> (length ps <= fuel)%nat ->
  exists s' ps',
    cache_gettext fuel u fd s
    = Done (bool_decide (is_Some (lru_lookup u (cache_view s)))) s' /\
    cache_inv s' [] ps' /\
    cache_view s' = lru_touch u (cache_view s) /\
    trace s' = trace s ++
      match lru_lookup u (cache_view s) with
      | Some t => [EvWrite fd t (negb (default false (head (wfail s))))]
      | None => []
      end.
Proof.
  intros Hinv Hf.
  destruct (cache_inv_view _ _ _ Hinv) as [_ Hv].
  pose proof Hinv as (h & w & t & -> & _ & Hl & Hnd & Hd)%cache_inv_state.
  pose proof (data_ok_listed _ _ _ Hd) as Hls.
  cbn [blocks wfail trace] in Hv |- *. rewrite Hv.
  unfold lru_touch, cache_gettext.
  destruct (find_uri h u ps) as [p|] eqn:Hfind.
  - destruct (pin_hit _ _ _ _ fuel _ Hinv Hfind Hf)
      as (l1 & l2 & s1 & e & -> & Hrun & Hinv1 & He & Hp1 & Hw1 & Ht1).
    cbn [blocks wfail trace] in He, Hp1, Hw1, Ht1.
    destruct (find_uri_view_Some _ _ _ _ _ Hls Hnd Hfind) as (tx & Htx & -> & ->).
    destruct (send_spec _ _ _ p fd Hinv1) as
      (tx' & ok & s2 & Htx' & Hsend & Ht2 & Hok & Hb2 & Hinv2); [left|].
    destruct (unpin_spec s2 [] p [] _ Hinv2) as
      (s3 & e' & Hun & Hinv3 & He' & Hp3 & Hw3 & Ht3).
    rewrite Hb2, Hp1 in He', Hp3. rewrite Hp1, lookup_insert_eq in Htx'.
    rewrite He in Htx. cbn [mbind option_bind e_text] in Htx, Htx'.
    assert (tx' = tx) as -> by congruence.
    assert (e_uri e = Some u) as Hu.
    { destruct (find_uri_Some _ _ _ _ Hfind) as [_ Hk].
      rewrite <- payload_uri, He in Hk. done. }
    exists s3, (p :: l1 ++ l2). split; [|split; [done|split]].
    + mstep ltac:(exact Hrun). cbn beta iota. mstep ltac:(exact Hsend).
      mstep ltac:(exact Hun). reflexivity.
    + destruct (cache_inv_view _ _ _ Hinv3) as [_ ->]. rewrite Hp3.
      rewrite (view_update _ _ _ _ _ He') by done.
      rewrite (view_update _ _ _ _ _ He) by done.
      by erewrite view_cons.
    + rewrite Ht3, Ht2, Ht1, Hok, Hw1. done.
  - rewrite (find_uri_view_None _ _ _ Hls Hfind).
    eexists _, ps. split; [|split; [done|split; [done|by rewrite app_nil_r]]].
    mstep ltac:(by eapply pin_miss). reflexivity.
Qed.
(** ** Keys *)

Lemma lru_lookup_None u v : lru_lookup u v = None <-> u ∉ v.*1.
Proof.
  induction v as [|e r IH]; cbn.
  - split; [intros _; apply not_elem_of_nil|done].
  - case_decide as Hd.
    + split; [done|]. intros H. exfalso. apply H. rewrite Hd. left.
    + rewrite IH, not_elem_of_cons. naive_solver.
Qed.

Lemma keys_view s pins ps :
  cache_inv s pins ps -> cache_keys s = (cache_view s).*1.
Proof.
  intros Hinv. destruct (cache_inv_view _ _ _ Hinv) as [El Ev].
  unfold cache_keys. rewrite Ev, El.
  apply cache_inv_state in Hinv as (h & w & t & -> & _ & _ & _ & Hd).
  cbn [blocks]. pose proof (data_ok_listed _ _ _ Hd) as Hls. clear Hd El Ev.
  induction ps as [|p r IH]; [done|].
  destruct (Hls p) as (e & u & tx & He & Hu & Ht & _); [left|].
  rewrite (view_cons _ _ _ _ _ _ He Hu Ht). cbn [omap list_omap fmap list_fmap].
  rewrite <- payload_uri, He. cbn. rewrite Hu. f_equal.
  apply IH. intros q Hq. apply Hls. by right.
Qed.

Lemma view_key_in d r u :
  listed d r -> u ∈ (view d r).*1 ->
  exists q e, q ∈ r /\ d !! q = Some e /\ e_uri e = Some u.
Proof.
  induction r as [|q r IH]; intros Hls Hu; [by apply elem_of_nil in Hu|].
  destruct (Hls q) as (e & k & tx & He & Hk & Ht & _); [left|].
  rewrite (view_cons _ _ _ _ _ _ He Hk Ht) in Hu.
  cbn [fmap list_fmap fst] in Hu.
  apply elem_of_cons in Hu as [->|Hu].
  - exists q, e. split; [left|done].
  - destruct IH as (q' & e' & Hq' & He' & Hu'); [|done|].
    { intros x Hx. apply Hls. by right. }
    exists q', e'. split; [by right|done].
Qed.

Lemma keys_NoDup s pins ps : cache_inv s pins ps -> NoDup (cache_keys s).
Proof.
  intros Hinv. rewrite (keys_view _ _ _ Hinv).
  destruct (cache_inv_view _ _ _ Hinv) as [_ ->].
  apply cache_inv_state in Hinv as (h & w & t & -> & _ & _ & Hnd & Hd).
  cbn [blocks]. pose proof (data_ok_listed _ _ _ Hd) as Hls.
  pose proof (d_keys _ _ _ Hd) as Hk. clear Hd.
  induction ps as [|p r IH]; [apply NoDup_nil_2|].
  destruct (Hls p) as (e & u & tx & He & Hu & Ht & _); [left|].
  rewrite (view_cons _ _ _ _ _ _ He Hu Ht). cbn [fmap list_fmap fst].
  apply NoDup_cons in Hnd as [Hp Hnd].
  assert (listed (payload h) r) as Hls' by (intros q Hq; apply Hls; by right).
  apply NoDup_cons. split; [|by apply IH].
  intros Hu'. apply Hp.
  destruct (view_key_in _ _ _ Hls' Hu') as (q & e' & Hq & He' & Hu2).
  assert (p = q) as -> by (eapply Hk; [done..|congruence]). done.
Qed.

Lemma find_uri_keys s pins ps u :
  cache_inv s pins ps ->
  (u ∈ cache_keys s <-> is_Some (find_uri (blocks s) u ps)).
Proof.
  intros Hinv. rewrite (keys_view _ _ _ Hinv).
  destruct (cache_inv_view _ _ _ Hinv) as [_ ->].
  pose proof Hinv as (h & w & t & -> & _ & _ & Hnd & Hd)%cache_inv_state.
  cbn [blocks]. pose proof (data_ok_listed _ _ _ Hd) as Hls.
  destruct (find_uri h u ps) as [p|] eqn:Hfind.
  - split; [by eexists|]. intros _.
    destruct (find_uri_Some _ _ _ _ Hfind) as [Hin _].
    apply list_elem_of_split in Hin as (l1 & l2 & ->).
    destruct (find_uri_view_Some _ _ _ _ _ Hls Hnd Hfind) as (tx & _ & Hlk & _).
    destruct (decide (u ∈ (view (payload h) (l1 ++ p :: l2)).*1)); [done|].
    apply lru_lookup_None in n. congruence.
  - pose proof (find_uri_view_None _ _ _ Hls Hfind) as Hn.
    apply lru_lookup_None in Hn. split; [done|]. by intros [? ?].
Qed.

Lemma bind_Done_inv {A B} (m : M A) (k : A -> M B) s b s' :
  bind m k s = Done b s' ->
  exists a s1, m s = Done a s1 /\ k a s1 = Done b s'.
Proof. unfold bind. destruct (m s); try done. eauto. Qed.

(** A whole [cache_gettext] is three steps of one thread. *)
Lemma gettext_reachable s pins fuel u fd r s' :
  reachable s pins -> cache_gettext fuel u fd s = Done r s' ->
  reachable s' pins.
Proof.
  intros Hr Hrun. unfold cache_gettext in Hrun.
  apply bind_Done_inv in Hrun as ([p|] & s1 & Hpin & Hrun).
  - apply bind_Done_inv in Hrun as ([] & s2 & Hsend & Hrun).
    apply bind_Done_inv in Hrun as ([] & s3 & Hun & Hrun).
    injection Hrun as <- <-.
    apply (reach_step s2 (p :: pins)).
    + apply (reach_step s1 (p :: pins)).
      * apply (reach_step s pins); [done|]. by eapply step_pin.
      * eapply step_send; [left|done].
    + by apply (step_unpin s2 [] p pins).
  - injection Hrun as <- <-.
    apply (reach_step s pins); [done|]. by eapply step_miss.
Qed.
(** ** The cache: what is proved *)

Lemma cache_bytes_inv s pins ps :
  cache_inv s pins ps -> cache_bytes s <= MAX_CACHE_SIZE.
Proof.
  intros Hinv. unfold cache_bytes.
  destruct (cache_inv_view _ _ _ Hinv) as [-> _].
  apply cache_inv_state in Hinv as (h & w & t & -> & Hmax & _).
  cbn [blocks]. by rewrite sum_len_psum.
Qed.

Lemma MAX_OBJECT_le_CACHE : MAX_OBJECT_SIZE <= MAX_CACHE_SIZE.
Proof. unfold MAX_OBJECT_SIZE, MAX_CACHE_SIZE. lia. Qed.

Lemma one_entry_reachable : reachable one_entry [].
Proof.
  apply (reach_step (State ∅ (Some (CInfo 0 None)) false [] []) []).
  - by apply (reach_init []).
  - apply (step_insert _ _ 2 "/a" [Byte.x41] 1); [simpl; lia|done|].
    by vm_compute.
Qed.

(** C1.  In every state that any interleaving of [cache_insert] and
    [cache_gettext] calls (and single evictions) reaches from [cache_init],
    the [text_len] of the listed blocks add up to at most [MAX_CACHE_SIZE].
    The states are there to be reached: with no reader in flight an insertion
    of at most [MAX_OBJECT_SIZE] bytes and a lookup both return, in a state
    that is reachable again. *)
Theorem cache_size_invariant s pins :
  reachable s pins ->
  cache_bytes s <= MAX_CACHE_SIZE
  /\ (pins = [] ->
      forall fuel u txt len,
        0 <= len <= Z.of_nat (length txt) -> len <= MAX_OBJECT_SIZE ->
        (length (cache_list s) < fuel)%nat ->
        exists s', cache_insert fuel u txt len s = Done tt s'
                   /\ reachable s' [] /\ cache_bytes s' <= MAX_CACHE_SIZE)
  /\ (pins = [] ->
      forall fuel u fd,
        (length (cache_list s) <= fuel)%nat ->
        exists r s', cache_gettext fuel u fd s = Done r s'
                     /\ reachable s' [] /\ cache_bytes s' <= MAX_CACHE_SIZE).
Proof.
  intros Hr. destruct (reachable_inv _ _ Hr) as [ps Hinv].
  destruct (cache_inv_view _ _ _ Hinv) as [El _]. rewrite El.
  split; [by eapply cache_bytes_inv|]. split.
  - intros -> fuel u txt len Hlen Hmax Hf.
    pose proof MAX_OBJECT_le_CACHE.
    destruct (insert_refines _ _ u txt len fuel Hinv) as
      (s' & ps' & Hrun & Hinv' & _); [done|lia|done|].
    exists s'. split; [done|]. split; [|by eapply cache_bytes_inv].
    eapply reach_step; [exact Hr|]. eapply step_insert; [done| |done]. lia.
  - intros -> fuel u fd Hf.
    destruct (gettext_refines _ _ u fd fuel Hinv Hf) as
      (s' & ps' & Hrun & Hinv' & _).
    eexists _, s'. split; [done|]. split; [|by eapply cache_bytes_inv].
    by eapply gettext_reachable.
Qed.

Lemma cache_size_invariant_witness :
  reachable one_entry [] /\ cache_bytes one_entry <= MAX_CACHE_SIZE.
Proof.
  split; [exact one_entry_reachable|].
  exact (proj1 (cache_size_invariant one_entry [] one_entry_reachable)).
Defined.

(** C8.  [cache_insert] of a key that is in the cache returns with the
    state as it was, whatever text and length come with it; the keys of the
    cache are pairwise different; and after a first insertion of a key the
    cache holds the bytes of that insertion, which a second insertion of the
    key leaves in place. *)
Theorem insert_first_write_wins s pins :
  reachable s pins ->
  NoDup (cache_keys s)
  /\ (forall fuel u txt len,
        u ∈ cache_keys s -> (length (cache_list s) <= fuel)%nat ->
        cache_insert fuel u txt len s = Done tt s)
  /\ (pins = [] ->
      forall fuel u txt len,
        u ∉ cache_keys s ->
        0 <= len <= Z.of_nat (length txt) -> len <= MAX_CACHE_SIZE ->
        (length (cache_list s) < fuel)%nat ->
        exists s1,
          cache_insert fuel u txt len s = Done tt s1
          /\ lru_lookup u (cache_view s1) = Some (take (Z.to_nat len) txt)
          /\ forall txt2 len2, cache_insert fuel u txt2 len2 s1 = Done tt s1).
Proof.
  intros Hr. destruct (reachable_inv _ _ Hr) as [ps Hinv].
  destruct (cache_inv_view _ _ _ Hinv) as [El _]. rewrite El.
  split; [by eapply keys_NoDup|]. split.
  - intros fuel u txt len Hu Hf.
    apply (find_uri_keys _ _ _ u Hinv) in Hu as [p Hp].
    by eapply insert_hit.
  - intros -> fuel u txt len Hu Hlen Hmax Hf.
    destruct (insert_refines _ _ u txt len fuel Hinv) as
      (s1 & ps1 & Hrun & Hinv1 & Hv1 & _ & _ & Hlen1); [done..|].
    exists s1. split; [done|].
    rewrite (keys_view _ _ _ Hinv) in Hu. apply lru_lookup_None in Hu.
    unfold lru_insert in Hv1. rewrite Hu in Hv1.
    assert (lru_lookup u (cache_view s1) = Some (take (Z.to_nat len) txt)) as Hlk.
    { rewrite Hv1. cbn. by rewrite decide_True. }
    split; [done|]. intros txt2 len2.
    assert (u ∈ cache_keys s1) as Hin.
    { rewrite (keys_view _ _ _ Hinv1).
      destruct (decide (u ∈ (cache_view s1).*1)) as [|Hn]; [done|].
      apply lru_lookup_None in Hn. congruence. }
    apply (find_uri_keys _ _ _ u Hinv1) in Hin as [p Hp].
    eapply insert_hit; [done..|lia].
Qed.

Lemma insert_first_write_wins_witness :
  reachable one_entry []
  /\ cache_insert 1 "/a" [Byte.x42; Byte.x42] 2 one_entry = Done tt one_entry.
Proof.
  split; [exact one_entry_reachable|].
  apply (proj1 (proj2 (insert_first_write_wins one_entry [] one_entry_reachable))).
  - vm_compute. left.
  - vm_compute. lia.
Defined.

(** X18.  With no reader in flight, [cache_insert] of a key that is not in
    the cache, with at most [MAX_OBJECT_SIZE] bytes, and then
    [cache_gettext] of that key: both return, the lookup returns [true], and
    what it hands to [rio_writen] for [fd] are the inserted bytes. *)
Theorem insert_gettext_roundtrip s fuel u txt len fd :
  reachable s [] ->
  u ∉ cache_keys s ->
  0 <= len <= Z.of_nat (length txt) -> len <= MAX_OBJECT_SIZE ->
  (length (cache_list s) < fuel)%nat ->
  exists s1 s2,
    cache_insert fuel u txt len s = Done tt s1
    /\ cache_gettext fuel u fd s1 = Done true s2
    /\ trace s2 = trace s ++
         [EvWrite fd (take (Z.to_nat len) txt)
                  (negb (default false (head (wfail s))))].
Proof.
  intros Hr Hu Hlen Hmax Hf. destruct (reachable_inv _ _ Hr) as [ps Hinv].
  destruct (cache_inv_view _ _ _ Hinv) as [El _]. rewrite El in Hf.
  pose proof MAX_OBJECT_le_CACHE.
  destruct (insert_refines _ _ u txt len fuel Hinv) as
    (s1 & ps1 & Hrun & Hinv1 & Hv1 & Hw1 & Ht1 & Hlen1); [done|lia|done|].
  rewrite (keys_view _ _ _ Hinv) in Hu. apply lru_lookup_None in Hu.
  unfold lru_insert in Hv1. rewrite Hu in Hv1.
  assert (lru_lookup u (cache_view s1) = Some (take (Z.to_nat len) txt)) as Hlk.
  { rewrite Hv1. cbn. by rewrite decide_True. }
  destruct (gettext_refines _ _ u fd fuel Hinv1) as
    (s2 & ps2 & Hget & _ & _ & Ht2); [lia|].
  rewrite Hlk in Hget, Ht2. exists s1, s2.
  split; [done|]. split; [done|]. by rewrite Ht2, Ht1, Hw1.
Qed.

Lemma insert_gettext_roundtrip_witness :
  exists s1 s2,
    cache_insert 2 "/b" [Byte.x42; Byte.x43] 2 one_entry = Done tt s1
    /\ cache_gettext 2 "/b" 7 s1 = Done true s2
    /\ trace s2 = [EvWrite 7 [Byte.x42; Byte.x43] true].
Proof.
  apply (insert_gettext_roundtrip one_entry 2 "/b" [Byte.x42; Byte.x43] 2 7
           one_entry_reachable).
  - vm_compute. intros [E|E]%elem_of_cons; [done|by apply elem_of_nil in E].
  - simpl. lia.
  - unfold MAX_OBJECT_SIZE. lia.
  - vm_compute. lia.
Defined.

(** C10.  In every reachable state each block of the list has a count of one
    plus the number of readers that hold it, so at least one and exactly one
    when no reader holds it; readers hold listed blocks only; and
    [block_free] called on a listed block stays in its loop whatever the
    fuel. *)
Theorem listed_block_count s pins :
  reachable s pins ->
  (forall p, p ∈ pins -> p ∈ cache_list s)
  /\ forall p, p ∈ cache_list s ->
       exists b, blocks s !! p = Some b
                 /\ ref_cont b = 1 + pin_count pins p
                 /\ 1 <= ref_cont b
                 /\ forall fuel, block_free fuel p s = Timeout s.
Proof.
  intros Hr. destruct (reachable_inv _ _ Hr) as [ps Hinv].
  destruct (cache_inv_view _ _ _ Hinv) as [El _]. rewrite El.
  apply cache_inv_state in Hinv as (h & w & t & -> & _ & Hl & _ & Hd).
  cbn [blocks]. split; [apply (d_pins _ _ _ Hd)|].
  intros p Hp. destruct (links_lookup _ _ _ Hl Hp) as [b Hb].
  assert (payload h !! p = Some (entry_of b)) as Hpe
      by (by rewrite payload_lookup, Hb).
  pose proof (data_ok_refs _ _ _ Hd _ _ Hpe) as Href. cbn in Href.
  pose proof (pin_count_nonneg pins p).
  exists b. split; [done|]. split; [done|]. split; [lia|].
  intros fuel. eapply block_free_spin; [done|lia].
Qed.

Lemma listed_block_count_witness :
  reachable one_entry []
  /\ forall fuel, block_free fuel 1%positive one_entry = Timeout one_entry.
Proof.
  split; [exact one_entry_reachable|]. intros fuel.
  destruct (proj2 (listed_block_count one_entry [] one_entry_reachable) 1%positive)
    as (b & _ & _ & _ & Hspin); [vm_compute; left|]. apply Hspin.
Defined.
Lemma init_view w : cache_view (State ∅ (Some (CInfo 0 None)) false w []) = [].
Proof. reflexivity. Qed.

Lemma take_length_all {A} (l : list A) : take (Z.to_nat (Z.of_nat (length l))) l = l.
Proof. rewrite Nat2Z.id. apply firstn_all. Qed.

Lemma gtb_true x y : x > y -> (x >? y) = true.
Proof. lia. Qed.

Lemma gtb_false x y : x <= y -> (x >? y) = false.
Proof. lia. Qed.

(** Settle the comparisons of a trimmed list from the hypotheses. *)
Ltac settle_gtb H :=
  repeat match type of H with
         | context [?x >? ?y] =>
             first [ rewrite (gtb_true x y) in H by lia
                   | rewrite (gtb_false x y) in H by lia ]
         end.

(** Settle the comparisons of keys from the hypotheses. *)
Ltac settle_keys H :=
  repeat match type of H with
         | context [decide (?x = ?y)] =>
             first [ rewrite (decide_True (P := x = y)) in H by congruence
                   | rewrite (decide_False (P := x = y)) in H by congruence ]
         end.

(** C7.  From an empty cache, insert A, B, C and then D, where all four do
    not fit but B, C and D do: the cache then holds D, C, B, so A went.
    With a lookup of A before D is inserted (and A, C, D fitting) it holds
    D, A, C, so B went. *)
Theorem lru_eviction_order w fuel fd (A B C D : string) (tA tB tC tD : list byte) :
  A ≠ B -> A ≠ C -> A ≠ D -> B ≠ C -> B ≠ D -> C ≠ D ->
  Z.of_nat (length tA) + Z.of_nat (length tB) + Z.of_nat (length tC)
    <= MAX_CACHE_SIZE ->
  Z.of_nat (length tA) + Z.of_nat (length tB) + Z.of_nat (length tC)
    + Z.of_nat (length tD) > MAX_CACHE_SIZE ->
  Z.of_nat (length tB) + Z.of_nat (length tC) + Z.of_nat (length tD)
    <= MAX_CACHE_SIZE ->
  Z.of_nat (length tA) + Z.of_nat (length tC) + Z.of_nat (length tD)
    <= MAX_CACHE_SIZE ->
  (4 <= fuel)%nat ->
  (exists s,
      (cache_init ;;
       cache_insert fuel A tA (Z.of_nat (length tA)) ;;
       cache_insert fuel B tB (Z.of_nat (length tB)) ;;
       cache_insert fuel C tC (Z.of_nat (length tC)) ;;
       cache_insert fuel D tD (Z.of_nat (length tD))) (boot w) = Done tt s
      /\ cache_keys s = [D; C; B])
  /\ (exists s,
      (cache_init ;;
       cache_insert fuel A tA (Z.of_nat (length tA)) ;;
       cache_insert fuel B tB (Z.of_nat (length tB)) ;;
       cache_insert fuel C tC (Z.of_nat (length tC)) ;;
       cache_gettext fuel A fd ;;
       cache_insert fuel D tD (Z.of_nat (length tD))) (boot w) = Done tt s
      /\ cache_keys s = [D; A; C]).
Proof.
  intros AB AC AD BC BD CD Habc Hall Hbcd Hacd Hf.
  pose proof (init_inv w) as Hinv0.
  destruct (insert_refines _ _ A tA (Z.of_nat (length tA)) fuel Hinv0)
    as (s1 & ps1 & Hrun1 & Hinv1 & Hv1 & _ & _ & Hl1); [lia|lia|simpl; lia|].
  rewrite init_view, take_length_all in Hv1. cbn in Hv1.
  destruct (insert_refines _ _ B tB (Z.of_nat (length tB)) fuel Hinv1)
    as (s2 & ps2 & Hrun2 & Hinv2 & Hv2 & _ & _ & Hl2); [lia|lia|simpl in *; lia|].
  rewrite Hv1, take_length_all in Hv2. unfold lru_insert in Hv2.
  cbn [lru_lookup fst snd] in Hv2. settle_keys Hv2.
  cbn [reverse rev_append trim_lru vsum foldr snd] in Hv2.
  settle_gtb Hv2.
  cbn [reverse rev_append] in Hv2.
  destruct (insert_refines _ _ C tC (Z.of_nat (length tC)) fuel Hinv2)
    as (s3 & ps3 & Hrun3 & Hinv3 & Hv3 & _ & _ & Hl3); [lia|lia|simpl in *; lia|].
  rewrite Hv2, take_length_all in Hv3. unfold lru_insert in Hv3.
  cbn [lru_lookup fst snd] in Hv3. settle_keys Hv3.
  cbn [reverse rev_append trim_lru vsum foldr snd] in Hv3.
  settle_gtb Hv3.
  cbn [reverse rev_append] in Hv3.
  split.
  - destruct (insert_refines _ _ D tD (Z.of_nat (length tD)) fuel Hinv3)
      as (s4 & ps4 & Hrun4 & Hinv4 & Hv4 & _); [lia|lia|simpl in *; lia|].
    rewrite Hv3, take_length_all in Hv4. unfold lru_insert in Hv4.
    cbn [lru_lookup fst snd] in Hv4. settle_keys Hv4.
    cbn [reverse rev_append trim_lru vsum foldr snd] in Hv4.
    settle_gtb Hv4.
    cbn [reverse rev_append] in Hv4.
    exists s4. split.
    + mstep ltac:(reflexivity). mstep ltac:(exact Hrun1).
      mstep ltac:(exact Hrun2). mstep ltac:(exact Hrun3). exact Hrun4.
    + by rewrite (keys_view _ _ _ Hinv4), Hv4.
  - destruct (gettext_refines _ _ A fd fuel Hinv3)
      as (s3' & ps3' & Hget & Hinv3' & Hv3' & _); [simpl in *; lia|].
    rewrite Hv3 in Hv3', Hget. unfold lru_touch in Hv3'.
    cbn [lru_lookup lru_remove fst snd] in Hv3', Hget.
    settle_keys Hv3'. settle_keys Hget.
    assert (length ps3' <= 3)%nat as Hl3'.
    { pose proof (cache_inv_view _ _ _ Hinv3') as [_ Hvv].
      pose proof Hinv3' as (h & ? & ? & -> & _ & _ & _ & Hd)%cache_inv_state.
      rewrite <- (view_length (payload h)) by (by eapply data_ok_listed).
      cbn [blocks] in Hvv. rewrite <- Hvv, Hv3'. simpl. lia. }
    destruct (insert_refines _ _ D tD (Z.of_nat (length tD)) fuel Hinv3')
      as (s4 & ps4 & Hrun4 & Hinv4 & Hv4 & _); [lia|lia|lia|].
    rewrite Hv3', take_length_all in Hv4. unfold lru_insert in Hv4.
    cbn [lru_lookup fst snd] in Hv4. settle_keys Hv4.
    cbn [reverse rev_append trim_lru vsum foldr snd] in Hv4.
    settle_gtb Hv4.
    cbn [reverse rev_append] in Hv4.
    exists s4. split.
    + mstep ltac:(reflexivity). mstep ltac:(exact Hrun1).
      mstep ltac:(exact Hrun2). mstep ltac:(exact Hrun3).
      mstep ltac:(exact Hget). exact Hrun4.
    + by rewrite (keys_view _ _ _ Hinv4), Hv4.
Qed.

Lemma big_text_length : Z.of_nat (length big_text) = 1048574.
Proof. unfold big_text. rewrite length_replicate. apply Z2Nat.id. lia. Qed.

Lemma lru_eviction_order_witness :
  (exists s,
      (cache_init ;;
       cache_insert 4 "/a" big_text (Z.of_nat (length big_text)) ;;
       cache_insert 4 "/b" [Byte.x42] (Z.of_nat (length [Byte.x42])) ;;
       cache_insert 4 "/c" [Byte.x43] (Z.of_nat (length [Byte.x43])) ;;
       cache_insert 4 "/d" [Byte.x44] (Z.of_nat (length [Byte.x44]))) (boot [])
      = Done tt s
      /\ cache_keys s = ["/d"; "/c"; "/b"])
  /\ (exists s,
      (cache_init ;;
       cache_insert 4 "/a" big_text (Z.of_nat (length big_text)) ;;
       cache_insert 4 "/b" [Byte.x42] (Z.of_nat (length [Byte.x42])) ;;
       cache_insert 4 "/c" [Byte.x43] (Z.of_nat (length [Byte.x43])) ;;
       cache_gettext 4 "/a" 9 ;;
       cache_insert 4 "/d" [Byte.x44] (Z.of_nat (length [Byte.x44]))) (boot [])
      = Done tt s
      /\ cache_keys s = ["/d"; "/a"; "/c"]).
Proof.
  pose proof big_text_length as E.
  apply lru_eviction_order;
    [discriminate..
    |rewrite E; cbn [length]; unfold MAX_CACHE_SIZE; lia
    |rewrite E; cbn [length]; unfold MAX_CACHE_SIZE; lia
    |cbn [length]; unfold MAX_CACHE_SIZE; lia
    |rewrite E; cbn [length]; unfold MAX_CACHE_SIZE; lia
    |lia].
Defined.
(** ** [cache_free] *)

(** On a cache that holds a block, [cache_free] calls [block_free] on the
    first block while its count is still at least one. *)
Lemma cache_free_spin s pins ps fuel :
  cache_inv s pins ps -> ps ≠ [] -> cache_free fuel s = Timeout s.
Proof.
  intros (h & w & t & -> & _ & Hl & Hnd & Hd)%cache_inv_state Hne.
  destruct ps as [|p r]; [done|]. unfold cache_free.
  mcache. cbn [start head]. apply bind_Timeout.
  destruct fuel as [|fuel]; [done|]. cbn [free_loop].
  pose proof (links_head _ _ _ Hl) as (b & Hb & Hprev & Hnext & Hseg).
  mload Hb.
  assert (exists cb, h !! next b = Some cb /\ prev cb = p) as (cb & Hcb & Hp).
  { rewrite Hnext. destruct r as [|q r']; cbn in *.
    - exists b. by rewrite Hprev.
    - destruct Hseg as (bq & Hq & Hpq & _). by exists bq. }
  mload Hcb. rewrite Hp. apply bind_Timeout.
  eapply block_free_spin; [done|].
  assert (payload h !! p = Some (entry_of b)) as Hpe
      by (by rewrite payload_lookup, Hb).
  pose proof (data_ok_refs _ _ _ Hd _ _ Hpe) as Href. cbn in Href.
  pose proof (pin_count_nonneg pins p). lia.
Qed.

(** On an empty cache it returns. *)
Lemma cache_free_empty fuel w t :
  cache_free fuel (State ∅ (Some (CInfo 0 None)) false w t)
  = Done tt (State ∅ None false w t).
Proof. reflexivity. Qed.

(** C2, at the failing input.  The cache holds one entry and no thread is
    running: [cache_free] does not return, whatever the fuel, and the state
    stays as it was, the block still allocated. *)
Theorem cache_free_never_returns :
  reachable one_entry []
  /\ forall fuel, cache_free fuel one_entry = Timeout one_entry.
Proof.
  split; [exact one_entry_reachable|]. intros fuel.
  destruct (reachable_inv _ _ one_entry_reachable) as [ps Hinv].
  eapply cache_free_spin; [exact Hinv|].
  destruct (cache_inv_view _ _ _ Hinv) as [<- _]. by vm_compute.
Qed.

(** ** An insertion that finds room, and one that cannot *)

Lemma cache_bytes_psum s pins ps :
  cache_inv s pins ps -> cache_bytes s = psum (payload (blocks s)) ps.
Proof.
  intros Hinv. unfold cache_bytes.
  destruct (cache_inv_view _ _ _ Hinv) as [-> _]. apply sum_len_psum.
Qed.

Lemma psum_nonneg d ps : listed d ps -> 0 <= psum d ps.
Proof. intros Hl. rewrite psum_vsum by done. unfold vsum. induction (view d ps); simpl; lia. Qed.

(** With room for [len] more bytes nothing is evicted. *)
Lemma insert_room s pins ps u txt len fuel :
  cache_inv s pins ps -> u ∉ cache_keys s ->
  0 <= len <= Z.of_nat (length txt) ->
  cache_bytes s + len <= MAX_CACHE_SIZE ->
  (length ps < fuel)%nat ->
  exists s' b,
    cache_insert fuel u txt len s = Done tt s'
    /\ cache_inv s' pins (b :: ps)
    /\ cache_keys s' = u :: cache_keys s
    /\ cache_bytes s' = cache_bytes s + len.
Proof.
  intros Hinv Hu Hlen Hroom Hf.
  pose proof (cache_bytes_psum _ _ _ Hinv) as Eb. rewrite Eb in Hroom |- *.
  pose proof (keys_view _ _ _ Hinv) as Ek.
  destruct (cache_inv_view _ _ _ Hinv) as [_ Ev].
  assert (find_uri (blocks s) u ps = None) as Hfind.
  { destruct (find_uri (blocks s) u ps) eqn:E; [|done]. exfalso. apply Hu.
    apply (find_uri_keys _ _ _ u Hinv). by eexists. }
  pose proof Hinv as (h & w & t & -> & _ & Hl & Hnd & Hd)%cache_inv_state.
  cbn [blocks] in *.
  pose proof (data_ok_listed _ _ _ Hd) as Hls.
  pose proof (psum_nonneg _ _ Hls).
  destruct (insert_miss _ _ _ u txt len fuel Hinv Hfind) as
      [(l1 & l2 & s1 & b & -> & _ & Hb & Hrun & Hinv' & Hp' & _ & _ & _ & Hover)
      |(rem & s1 & _ & _ & Hbig & _)]; [done|lia|done| |cbn [blocks] in Hbig; lia].
  cbn [blocks] in *.
  assert (l2 = []) as ->.
  { destruct l2 as [|x l2b]; [done|]. exfalso.
    specialize (Hover [] x l2b eq_refl). cbn [app] in Hover.
    apply listed_app in Hls as [_ Hls2].
    assert (listed (payload h) l2b) as Hls3 by (intros q Hq; apply Hls2; by right).
    pose proof (psum_nonneg _ _ Hls3).
    replace (l1 ++ x :: l2b) with ((l1 ++ [x]) ++ l2b) in Hroom
      by (by rewrite <- app_assoc).
    rewrite psum_app in Hroom. lia. }
  rewrite app_nil_r in *. cbn [foldr] in Hp'.
  exists s1, b. split; [done|]. split; [done|].
  pose proof (keys_view _ _ _ Hinv') as Ek'.
  destruct (cache_inv_view _ _ _ Hinv') as [_ Ev'].
  rewrite Hp' in Ev'.
  erewrite view_cons in Ev'; [|apply lookup_insert_eq|done..].
  rewrite (view_ext (payload h)) in Ev'
    by (intros p Hp; apply lookup_insert_ne; by intros ->).
  split.
  - rewrite Ek', Ev', Ek, Ev. done.
  - rewrite (cache_bytes_psum _ _ _ Hinv'), Hp'. cbn [psum foldr].
    rewrite lookup_insert_eq. cbn.
    fold (psum (<[b := Entry len 1 (Some u) (Some (take (Z.to_nat len) txt))]>
                  (payload h)) l1).
    rewrite psum_insert by done. lia.
Qed.

Lemma insert_all_room txt len pins fuel :
  0 <= len <= Z.of_nat (length txt) -> len <= MAX_CACHE_SIZE ->
  forall us s ps,
    cache_inv s pins ps -> reachable s pins -> NoDup us ->
    (forall u, u ∈ us -> u ∉ cache_keys s) ->
    cache_bytes s + Z.of_nat (length us) * len <= MAX_CACHE_SIZE ->
    (length ps + length us < fuel)%nat ->
    exists s' ps',
      insert_all fuel us txt len s = Done tt s'
      /\ cache_inv s' pins (ps' ++ ps) /\ reachable s' pins
      /\ cache_keys s' = reverse us ++ cache_keys s
      /\ cache_bytes s' = cache_bytes s + Z.of_nat (length us) * len.
Proof.
  intros Hlen Hmax us.
  induction us as [|u us IH]; intros s ps Hinv Hr Hnd Hab Hroom Hf.
  - exists s, []. cbn. repeat split; try done. lia.
  - apply NoDup_cons in Hnd as [Hu Hnd]. cbn [length] in *.
    destruct (insert_room _ _ _ u txt len fuel Hinv) as
      (s1 & b & Hrun & Hinv1 & Hk1 & Hb1); [apply Hab; left|done|nia|lia|].
    destruct (IH s1 (b :: ps)) as (s' & ps' & Hrun' & Hinv' & Hr' & Hk' & Hb');
      [done| |done| | |simpl; lia|].
    + eapply reach_step; [exact Hr|]. by eapply step_insert.
    + intros v Hv. rewrite Hk1, not_elem_of_cons. split; [by intros ->|].
      apply Hab. by right.
    + rewrite Hb1. nia.
    + exists s', (ps' ++ [b]). split; [|split; [|split; [done|split]]].
      * cbn [insert_all]. mstep ltac:(exact Hrun). exact Hrun'.
      * by rewrite <- app_assoc.
      * rewrite Hk', Hk1, reverse_cons, <- app_assoc. done.
      * rewrite Hb', Hb1. nia.
Qed.
Lemma inv_length s pins ps :
  cache_inv s pins ps -> length ps = length (cache_keys s).
Proof.
  intros Hinv. rewrite (keys_view _ _ _ Hinv), length_fmap.
  destruct (cache_inv_view _ _ _ Hinv) as [_ ->].
  apply cache_inv_state in Hinv as (h & ? & ? & -> & _ & _ & _ & Hd).
  symmetry. apply view_length. by eapply data_ok_listed.
Qed.

(** No room, and the least recently used block is held by a reader:
    [cache_insert] stays in [block_free] with the mutex taken, and the
    second critical section of any [cache_gettext] cannot start. *)
Lemma insert_deadlock s pins l rem u txt len fuel :
  cache_inv s pins (l ++ [rem]) -> rem ∈ pins -> u ∉ cache_keys s ->
  0 <= len <= Z.of_nat (length txt) -> len <= MAX_CACHE_SIZE ->
  cache_bytes s + len > MAX_CACHE_SIZE ->
  (length (l ++ [rem]) < fuel)%nat ->
  exists s',
    cache_insert fuel u txt len s = Timeout s'
    /\ mutex s' = true
    /\ (exists q, q ∈ pins /\ forall f, block_free f q s' = Timeout s')
    /\ forall q, gettext_unpin q s' = Blocked s'.
Proof.
  intros Hinv Hrem Hu Hlen Hmax Hbig Hf.
  rewrite (cache_bytes_psum _ _ _ Hinv) in Hbig.
  assert (find_uri (blocks s) u (l ++ [rem]) = None) as Hfind.
  { destruct (find_uri (blocks s) u (l ++ [rem])) eqn:E; [|done]. exfalso.
    apply Hu. apply (find_uri_keys _ _ _ u Hinv). by eexists. }
  destruct (insert_miss _ _ _ u txt len fuel Hinv Hfind) as
      [(l1 & l2 & s1 & b & El & Hun & _ & _ & _ & _ & _ & _ & Hfit & _)
      |(q & s1 & _ & Hq & _ & Hrun & Hm & Hspin & _)]; [done..| |].
  - exfalso. destruct l2 as [|y l2 _] using rev_ind.
    + rewrite app_nil_r in El. subst l1. lia.
    + rewrite app_assoc in El. apply app_inj_tail in El as [_ ->].
      apply (Hun y); [|done]. rewrite elem_of_app, list_elem_of_singleton. tauto.
  - exists s1. split; [done|]. split; [done|]. split; [by exists q|].
    intros q'. destruct s1 as [h c m w t]. cbn in Hm. subst m. reflexivity.
Qed.

Lemma init_keys w : cache_keys (State ∅ (Some (CInfo 0 None)) false w []) = [].
Proof. reflexivity. Qed.

Lemma init_bytes w : cache_bytes (State ∅ (Some (CInfo 0 None)) false w []) = 0.
Proof. reflexivity. Qed.

Lemma obj_length : Z.of_nat (length obj) = 102399.
Proof. unfold obj. rewrite length_replicate. apply Z2Nat.id. lia. Qed.

Global Opaque obj.

(** The state in which an inserter meets a reader.  [/0] is cached; a
    reader is in [cache_gettext] for it, between its two critical sections;
    nine more objects are cached, which leaves [/0] least recently used and
    the cache too full for another object.  [cache_insert] of the new key
    [/10] then does not return whatever the fuel. *)
Lemma full_cache_with_reader :
  exists s0 p s1 s2,
    (cache_init ;; cache_insert 12 "/0" obj 102399) (boot []) = Done tt s0
    /\ gettext_pin 12 "/0" s0 = Done (Some p) s1
    /\ insert_all 12 ["/1"; "/2"; "/3"; "/4"; "/5"; "/6"; "/7"; "/8"; "/9"]
         obj 102399 s1 = Done tt s2
    /\ reachable s2 [p]
    /\ ("/10" ∉ cache_keys s2)
    /\ forall fuel, exists s3,
         cache_insert fuel "/10" obj 102399 s2 = Timeout s3
         /\ ((12 <= fuel)%nat ->
             mutex s3 = true
             /\ is_Some (blocks s3 !! p)
             /\ (forall f, block_free f p s3 = Timeout s3)
             /\ gettext_unpin p s3 = Blocked s3).
Proof.
  pose proof obj_length as Eo.
  assert (0 <= 102399 <= Z.of_nat (length obj)) as Hlen by lia.
  assert (102399 <= MAX_CACHE_SIZE) as Hmax by (unfold MAX_CACHE_SIZE; lia).
  set (i0 := State ∅ (Some (CInfo 0 None)) false [] []).
  assert (reachable i0 []) as Hr0 by (by apply (reach_init [])).
  destruct (insert_room _ _ _ "/0" obj 102399 12 (init_inv [])) as
    (s0 & b0 & Hrun0 & Hinv0 & Hk0 & Hb0);
    [rewrite init_keys; apply not_elem_of_nil|exact Hlen
    |rewrite init_bytes; unfold MAX_CACHE_SIZE; lia|simpl; lia|].
  rewrite init_keys in Hk0. rewrite init_bytes in Hb0.
  assert (reachable s0 []) as Hrs0.
  { eapply reach_step; [exact Hr0|].
    eapply step_insert; [exact Hlen|exact Hmax|exact Hrun0]. }
  assert (is_Some (find_uri (blocks s0) "/0" [b0])) as [p Hfind].
  { apply (find_uri_keys _ _ _ "/0" Hinv0). rewrite Hk0. left. }
  destruct (pin_hit _ _ _ _ 12 _ Hinv0 Hfind) as
    (l1 & l2 & s1 & e & El & Hpin & Hinv1 & He & Hp1 & _); [simpl; lia|].
  destruct l1 as [|x l1]; [|by destruct l1]. injection El as -> <-.
  cbn [app] in Hinv1.
  assert (reachable s1 [p]) as Hrs1.
  { eapply reach_step; [exact Hrs0|]. eapply step_pin. exact Hpin. }
  assert (cache_keys s1 = ["/0"]) as Hk1.
  { rewrite (keys_view _ _ _ Hinv1).
    destruct (cache_inv_view _ _ _ Hinv1) as [_ ->].
    rewrite Hp1, (view_update _ _ _ _ _ He) by done.
    destruct (cache_inv_view _ _ _ Hinv0) as [_ <-].
    by rewrite <- (keys_view _ _ _ Hinv0). }
  assert (cache_bytes s1 = 102399) as Hb1.
  { rewrite (cache_bytes_psum _ _ _ Hinv1), Hp1.
    rewrite (psum_update _ _ _ _ _ He) by done.
    rewrite <- (cache_bytes_psum _ _ _ Hinv0). lia. }
  destruct (insert_all_room obj 102399 [p] 12 Hlen Hmax
              ["/1"; "/2"; "/3"; "/4"; "/5"; "/6"; "/7"; "/8"; "/9"] s1 [p])
    as (s2 & ps' & Hall & Hinv2 & Hrs2 & Hk2 & Hb2);
    [exact Hinv1|exact Hrs1| | | |simpl; lia|].
  { apply NoDup_ListNoDup. repeat (constructor; [simpl; intuition discriminate|]).
    constructor. }
  { intros u Hu. rewrite Hk1. intros ->%list_elem_of_singleton.
    repeat (apply elem_of_cons in Hu as [Hu|Hu]; [discriminate|]).
    by apply elem_of_nil in Hu. }
  { rewrite Hb1. unfold MAX_CACHE_SIZE. simpl. lia. }
  rewrite Hk1 in Hk2. rewrite Hb1 in Hb2. cbn in Hk2, Hb2.
  pose proof (inv_length _ _ _ Hinv2) as Hlen2. rewrite Hk2 in Hlen2.
  cbn [length] in Hlen2.
  assert (forall fuel, (12 <= fuel)%nat ->
            exists s3, cache_insert fuel "/10" obj 102399 s2 = Timeout s3
              /\ mutex s3 = true
              /\ (forall f, block_free f p s3 = Timeout s3)
              /\ gettext_unpin p s3 = Blocked s3) as Hbig.
  { intros fuel Hfuel.
    destruct (insert_deadlock _ _ _ _ "/10" obj 102399 fuel Hinv2) as
      (s3 & Hrun & Hm & (q & Hq & Hspin) & Hblk);
      [left| |exact Hlen|exact Hmax| |lia|].
    - rewrite Hk2.
      intros Hu. repeat (apply elem_of_cons in Hu as [Hu|Hu]; [discriminate|]).
      by apply elem_of_nil in Hu.
    - rewrite Hb2. unfold MAX_CACHE_SIZE. lia.
    - apply list_elem_of_singleton in Hq as ->. exists s3.
      split; [exact Hrun|]. split; [exact Hm|]. split; [exact Hspin|].
      apply Hblk. }
  exists s0, p, s1, s2.
  split; [|split; [exact Hpin|split; [exact Hall|split; [exact Hrs2|split]]]].
  { mstep ltac:(reflexivity). exact Hrun0. }
  { rewrite Hk2.
    intros Hu. repeat (apply elem_of_cons in Hu as [Hu|Hu]; [discriminate|]).
    by apply elem_of_nil in Hu. }
  intros fuel. destruct (le_lt_dec 12 fuel) as [Hge|Hlt].
  - destruct (Hbig fuel Hge) as (s3 & Hrun & Hm & Hspin & Hblk).
    exists s3. split; [exact Hrun|]. intros _. split; [exact Hm|].
    split; [|split; [exact Hspin|exact Hblk]].
    specialize (Hspin 1%nat). cbn [block_free] in Hspin. unfold bind, load in Hspin.
    destruct (blocks s3 !! p); [by eexists|done].
  - destruct (Hbig 12%nat) as (s3 & Hrun & _); [lia|].
    destruct (cache_insert fuel "/10" obj 102399 s2) as [a s'| |s'|s'] eqn:E.
    + rewrite (cache_insert_mono fuel 12) in Hrun; [|lia|by rewrite E].
      rewrite E in Hrun. discriminate Hrun.
    + rewrite (cache_insert_mono fuel 12) in Hrun; [|lia|by rewrite E].
      rewrite E in Hrun. discriminate Hrun.
    + exists s'. split; [reflexivity|]. lia.
    + rewrite (cache_insert_mono fuel 12) in Hrun; [|lia|by rewrite E].
      rewrite E in Hrun. discriminate Hrun.
Qed.

(** C6, at the failing input.  [/0] is cached; a reader is in
    [cache_gettext] for it, between its two critical sections; nine more
    objects are cached, which leaves [/0] least recently used; the cache is
    then too full for another object.  [cache_insert] of [/10] does not
    return whatever the fuel: it stays in [block_free] on the block of [/0]
    with the mutex taken, and the reader, whose decrement would end the
    wait, is blocked on that mutex.  The block is never freed. *)
Theorem insert_waits_holding_mutex :
  exists s0 p s1 s2,
    (cache_init ;; cache_insert 12 "/0" obj 102399) (boot []) = Done tt s0
    /\ gettext_pin 12 "/0" s0 = Done (Some p) s1
    /\ insert_all 12 ["/1"; "/2"; "/3"; "/4"; "/5"; "/6"; "/7"; "/8"; "/9"]
         obj 102399 s1 = Done tt s2
    /\ reachable s2 [p]
    /\ forall fuel, exists s3,
         cache_insert fuel "/10" obj 102399 s2 = Timeout s3
         /\ ((12 <= fuel)%nat ->
             mutex s3 = true
             /\ is_Some (blocks s3 !! p)
             /\ (forall f, block_free f p s3 = Timeout s3)
             /\ gettext_unpin p s3 = Blocked s3).
Proof.
  destruct full_cache_with_reader
    as (s0 & p & s1 & s2 & H0 & H1 & H2 & Hr & _ & Hwait).
  exists s0, p, s1, s2. split; [exact H0|]. split; [exact H1|].
  split; [exact H2|]. split; [exact Hr|exact Hwait].
Qed.

(** C9, at the failing input.  The state is the one of C6: [/0] is cached,
    a reader is in [cache_gettext] for it between its two critical
    sections, and nine more objects fill the cache.  The key [/10] is not
    in the cache and [obj] has less than [MAX_OBJECT_SIZE] bytes, yet
    [cache_insert] of [/10] followed by [cache_gettext] of [/10] does not
    return whatever the fuel: the insert waits in [block_free] for the
    reader, and the lookup is never started. *)
Theorem roundtrip_stopped_by_reader :
  exists s0 p s1 s2,
    (cache_init ;; cache_insert 12 "/0" obj 102399) (boot []) = Done tt s0
    /\ gettext_pin 12 "/0" s0 = Done (Some p) s1
    /\ insert_all 12 ["/1"; "/2"; "/3"; "/4"; "/5"; "/6"; "/7"; "/8"; "/9"]
         obj 102399 s1 = Done tt s2
    /\ reachable s2 [p]
    /\ ("/10" ∉ cache_keys s2)
    /\ Z.of_nat (length obj) <= MAX_OBJECT_SIZE
    /\ forall fuel fd, exists s3,
         (cache_insert fuel "/10" obj 102399 ;; cache_gettext fuel "/10" fd) s2
         = Timeout s3
         /\ cache_insert fuel "/10" obj 102399 s2 = Timeout s3
         /\ ((12 <= fuel)%nat ->
             mutex s3 = true /\ forall f, block_free f p s3 = Timeout s3).
Proof.
  destruct full_cache_with_reader
    as (s0 & p & s1 & s2 & H0 & H1 & H2 & Hr & Hnew & Hwait).
  exists s0, p, s1, s2. split; [exact H0|]. split; [exact H1|].
  split; [exact H2|]. split; [exact Hr|]. split; [exact Hnew|]. split.
  { rewrite obj_length. unfold MAX_OBJECT_SIZE. lia. }
  intros fuel fd. destruct (Hwait fuel) as (s3 & Hrun & Hs3).
  exists s3. split; [apply bind_Timeout; exact Hrun|]. split; [exact Hrun|].
  intros Hf. destruct (Hs3 Hf) as (Hm & _ & Hspin & _).
  split; [exact Hm|exact Hspin].
Qed.

(** ** The proxy: what is proved *)

Lemma limit_obj_length : Z.of_nat (length limit_obj) = MAX_OBJECT_SIZE.
Proof. unfold limit_obj. rewrite length_replicate, Z2Nat.id by lia. reflexivity. Qed.

Lemma written_app fd t1 t2 : written fd (t1 ++ t2) = written fd t1 ++ written fd t2.
Proof. unfold written. apply flat_map_app. Qed.

Lemma relay_ok (ML MB : Z) connfd fuel rest ci il h c m t :
  0 < ML -> 0 <= il ->
  il + Z.of_nat (length rest) < 2 ^ 64 ->
  (length rest + Z.to_nat ML <= fuel * Z.to_nat ML)%nat ->
  exists tr ci',
    relay ML MB fuel connfd rest false ci il (State h c m [] t)
    = Done (Some (ci', il + Z.of_nat (length rest))) (State h c m [] (t ++ tr))
    /\ written connfd tr = rest
    /\ (forall fd, fd <> connfd -> written fd tr = [])
    /\ (il + Z.of_nat (length rest) < MAX_OBJECT_SIZE -> ci' = ci ++ rest).
Proof.
  intros HML. revert rest ci il t.
  induction fuel as [|f IH]; intros rest ci il t Hil Hlen Hf.
  { simpl in Hf. lia. }
  cbn [relay]. unfold rio_readnb. cbn [andb].
  destruct (0 <? Z.of_nat (length (take (Z.to_nat ML) rest))) eqn:Hpos.
  - apply Z.ltb_lt in Hpos.
    set (buf := take (Z.to_nat ML) rest) in *.
    set (rest' := drop (Z.to_nat ML) rest).
    assert (rest = buf ++ rest') as Erest by (symmetry; apply take_drop).
    assert (length rest = length buf + length rest')%nat as Elen
      by (rewrite Erest at 1; apply length_app).
    assert (length buf <= Z.to_nat ML)%nat as Hbuf by (unfold buf; rewrite length_take; lia).
    assert (length rest' = length rest - Z.to_nat ML)%nat as Hrest'
      by apply length_drop.
    unfold bind at 1. unfold rio_writen. cbn [wfail blocks cache mutex trace].
    replace (Z.of_nat (length buf) <? 0) with false by (symmetry; apply Z.ltb_ge; lia).
    rewrite Z.mod_small by lia.
    rewrite take_ge by (rewrite Nat2Z.id; lia).
    assert (length rest' + Z.to_nat ML <= f * Z.to_nat ML)%nat as Hf'.
    { destruct f as [|f']; simpl in *; [|nia].
      destruct (decide (length rest <= Z.to_nat ML)%nat); lia. }
    assert (il + Z.of_nat (length buf) + Z.of_nat (length rest') < 2 ^ 64) as Hlen' by lia.
    assert (0 <= il + Z.of_nat (length buf)) as Hil' by lia.
    destruct (il + Z.of_nat (length buf) <? MAX_OBJECT_SIZE) eqn:Hcmp.
    + destruct (IH rest' (ci ++ buf) _ (t ++ [EvWrite connfd buf true]) Hil' Hlen' Hf')
        as (tr & ci' & Hrun & Hw & Hother & Hci).
      exists (EvWrite connfd buf true :: tr), ci'.
      rewrite Hrun. split; [|split; [|split]].
      * f_equal; [f_equal; f_equal; lia|]. by rewrite <- app_assoc.
      * change (EvWrite connfd buf true :: tr) with ([EvWrite connfd buf true] ++ tr).
        rewrite written_app, Hw. cbn. rewrite Z.eqb_refl, app_nil_r. by symmetry.
      * intros fd Hfd.
        change (EvWrite connfd buf true :: tr) with ([EvWrite connfd buf true] ++ tr).
        rewrite written_app, (Hother fd Hfd). cbn.
        by replace (fd =? connfd) with false by (symmetry; apply Z.eqb_neq; exact Hfd).
      * intros Hsmall. rewrite Hci by lia. rewrite <- app_assoc. by rewrite <- Erest.
    + destruct (IH rest' ci _ (t ++ [EvWrite connfd buf true]) Hil' Hlen' Hf')
        as (tr & ci' & Hrun & Hw & Hother & Hci).
      exists (EvWrite connfd buf true :: tr), ci'.
      rewrite Hrun. split; [|split; [|split]].
      * f_equal; [f_equal; f_equal; lia|]. by rewrite <- app_assoc.
      * change (EvWrite connfd buf true :: tr) with ([EvWrite connfd buf true] ++ tr).
        rewrite written_app, Hw. cbn. rewrite Z.eqb_refl, app_nil_r. by symmetry.
      * intros fd Hfd.
        change (EvWrite connfd buf true :: tr) with ([EvWrite connfd buf true] ++ tr).
        rewrite written_app, (Hother fd Hfd). cbn.
        by replace (fd =? connfd) with false by (symmetry; apply Z.eqb_neq; exact Hfd).
      * apply Z.ltb_ge in Hcmp. lia.
  - apply Z.ltb_ge in Hpos.
    assert (rest = []) as ->.
    { destruct rest as [|x r]; [done|].
      destruct (Z.to_nat ML) eqn:E; [lia|]. simpl in Hpos. lia. }
    exists [], ci. unfold ret. simpl. rewrite !app_nil_r, Z.add_0_r.
    split; [done|]. split; [done|]. split; done.
Qed.

Ltac mrun :=
  match goal with
  | |- context [bind ?m ?k ?s] =>
      let r := eval vm_compute in (m s) in
      match r with
      | Done ?a ?s' =>
          rewrite (bind_Done m k s a s' ltac:(vm_compute; reflexivity))
      end
  end; cbn beta.

Ltac mif :=
  match goal with
  | |- context [(if ?c then ?a else ?b) ?s] =>
      let r := eval vm_compute in c in change c with r; cbv iota
  end.

Lemma empty_inv w t : cache_inv (State ∅ (Some (CInfo 0 None)) false w t) [] [].
Proof.
  apply cache_inv_intro; try done. apply NoDup_nil_2.
Qed.

(** Below the limit the response is cached under the URI of the request. *)
Lemma serve_caches_below_limit resp :
  Z.of_nat (length resp) < MAX_OBJECT_SIZE ->
  exists s',
    (cache_init ;; serve 8192 8192 20 (env_a resp) 4) (boot []) = Done tt s'
    /\ written 4 (trace s') = resp
    /\ cache_view s' = [("http://example.org/a.html", resp)].
Proof.
  intros Hlen. unfold serve.
  assert (0 + Z.of_nat (length resp) < 2 ^ 64) as H64
    by (unfold MAX_OBJECT_SIZE in Hlen; lia).
  assert (length resp + Z.to_nat 8192 <= 20 * Z.to_nat 8192)%nat as Hfuel
    by (unfold MAX_OBJECT_SIZE in Hlen; lia).
  mrun. mrun. mrun. mrun. cbn beta iota zeta. try mif.
  mrun. try mif. mrun. try mif. mrun. try mif.
  change (from_option snd [] (origin (env_a resp))) with resp.
  change (read_err (env_a resp)) with false.
  match goal with
  | |- context [bind _ _ (State ?h ?c ?m [] ?t)] =>
      destruct (relay_ok 8192 8192 4 20 resp [] 0 h c m t) as (tr & ci & Hrun & Hw & Ho & Hci);
      [lia | lia | exact H64 | exact Hfuel |]
  end.
  rewrite (bind_Done _ _ _ _ _ Hrun). cbn beta iota.
  rewrite Hci by lia. rewrite Z.add_0_l, app_nil_l.
  rewrite (proj2 (Z.ltb_lt _ _) Hlen).
  match goal with
  | |- context [bind _ _ (State ?h ?c ?m ?w ?t)] =>
      destruct (insert_refines (State h c m w t) [] "http://example.org/a.html"
                  resp (Z.of_nat (length resp)) 20 (empty_inv w t))
        as (s' & ps' & Hins & _ & Hv & _ & Ht & _);
      [lia | unfold MAX_OBJECT_SIZE, MAX_CACHE_SIZE in *; lia | simpl; lia |]
  end.
  change (req_uri req_a) with "http://example.org/a.html".
  rewrite (bind_Done _ _ _ _ _ Hins). cbn beta.
  unfold bind, close, parser_free, emit.
  eexists. split; [reflexivity|]. cbn [trace]. split.
  - rewrite Ht. cbn [trace]. rewrite !written_app, Hw. cbn. by rewrite !app_nil_r.
  - transitivity (cache_view s'); [reflexivity|].
    rewrite Hv, Nat2Z.id, take_ge by lia. reflexivity.
Qed.

(** C3.  A response of exactly [MAX_OBJECT_SIZE] bytes is within the caching
    budget of at most [MAX_OBJECT_SIZE] bytes, and is not cached: [serve]
    writes all of it to the client and returns with the cache as empty as it
    was.  The test in [serve] is [input_len < MAX_OBJECT_SIZE], for the copy
    and for the insertion alike. *)
Theorem serve_limit_object_not_cached resp :
  Z.of_nat (length resp) = MAX_OBJECT_SIZE ->
  exists s',
    (cache_init ;; serve 8192 8192 20 (env_a resp) 4) (boot []) = Done tt s'
    /\ written 4 (trace s') = resp
    /\ cache_keys s' = [] /\ cache_bytes s' = 0.
Proof.
  intros Hlen. unfold serve.
  assert (0 + Z.of_nat (length resp) < 2 ^ 64) as H64
    by (rewrite Hlen; unfold MAX_OBJECT_SIZE; lia).
  assert (length resp + Z.to_nat 8192 <= 20 * Z.to_nat 8192)%nat as Hfuel
    by (unfold MAX_OBJECT_SIZE in Hlen; lia).
  mrun. mrun. mrun. mrun. cbn beta iota zeta. try mif.
  mrun. try mif. mrun. try mif. mrun. try mif.
  change (from_option snd [] (origin (env_a resp))) with resp.
  change (read_err (env_a resp)) with false.
  match goal with
  | |- context [bind _ _ (State ?h ?c ?m [] ?t)] =>
      destruct (relay_ok 8192 8192 4 20 resp [] 0 h c m t) as (tr & ci & Hrun & Hw & Ho & _);
      [lia | lia | exact H64 | exact Hfuel |]
  end.
  rewrite (bind_Done _ _ _ _ _ Hrun). cbn beta iota.
  rewrite Z.add_0_l, Hlen. change (MAX_OBJECT_SIZE <? MAX_OBJECT_SIZE) with false.
  cbv iota. unfold bind, ret, close, parser_free, emit.
  cbn [blocks cache mutex wfail trace].
  eexists. split; [reflexivity|].
  cbn [trace]. rewrite !written_app, Hw.
  split; [|split; reflexivity].
  cbn. by rewrite !app_nil_r.
Qed.

Global Opaque limit_obj.

Lemma serve_limit_object_not_cached_witness :
  Z.of_nat (length limit_obj) = MAX_OBJECT_SIZE /\
  exists s',
    (cache_init ;; serve 8192 8192 20 (env_a limit_obj) 4) (boot []) = Done tt s'
    /\ written 4 (trace s') = limit_obj
    /\ cache_keys s' = [] /\ cache_bytes s' = 0.
Proof.
  split; [exact limit_obj_length|].
  apply serve_limit_object_not_cached. exact limit_obj_length.
Defined.

(** C4.  The bytes that [write_header] sends to the origin do not end with
    the empty line.  The last [rio_writen] is given the [buf_len] of the
    line before, so after the two bytes of the empty line come the
    terminator that [sprintf] wrote and what is left in [buf] of the line
    before: here the end of the [Accept] header. *)
Theorem write_header_trailing_bytes :
  exists s',
    write_header 8192 (replicate 64 Byte.xff) 5 req_a parser_a
      (State ∅ (Some (CInfo 0 None)) false [] []) = Done 0 s'
    /\ written 5 (trace s')
       = bytes (origin_header req_a parser_a)
         ++ Byte.x00 :: bytes ("ept: */*" +:+ CRLF).
Proof.
  eexists. split; [vm_compute; reflexivity|]. vm_compute. reflexivity.
Qed.

(** [parse_request] on [lines_a] leaves the parser as [parser_a] and the
    request as [req_a]. *)
Lemma parse_request_lines_a s :
  parse_request 8192 8192 lines_a 4 (Parser None []) s = Done (0, parser_a, req_a) s.
Proof. reflexivity. Qed.

(** When all writes go through, [serve] closes the origin and frees the
    parser. *)
Lemma serve_releases_on_success :
  exists s',
    (cache_init ;; serve 8192 8192 20 (env_a [Byte.x41; Byte.x42]) 4) (boot [])
    = Done tt s'
    /\ parser_made (trace s') = true /\ opened 5 (trace s') = true
    /\ parser_freed (trace s') = true /\ closed 5 (trace s') = true.
Proof.
  eexists. split; [vm_compute; reflexivity|]. vm_compute. done.
Qed.

(** The other ways out of [serve] free the parser, and close the origin
    when one was opened: a request line that does not parse, a hit in the
    cache (the second of two requests for the same URI), no connection to
    the origin, and a failed write of the header to the origin. *)
Lemma serve_releases_on_other_paths :
  (exists s',
      (cache_init ;;
       serve 8192 8192 20
         (Env (inl ("client", "4242")) [("garbage" +:+ CRLF, TError)]
              (Some (5, [Byte.x41])) false []) 4) (boot []) = Done tt s'
      /\ parser_made (trace s') = true /\ parser_freed (trace s') = true
      /\ opened 5 (trace s') = false)
  /\ (exists s1 s2,
      (cache_init ;; serve 8192 8192 20 (env_a [Byte.x41]) 4) (boot []) = Done tt s1
      /\ serve 8192 8192 20 (env_a [Byte.x41]) 4 s1 = Done tt s2
      /\ parser_made (drop (length (trace s1)) (trace s2)) = true
      /\ parser_freed (drop (length (trace s1)) (trace s2)) = true
      /\ opened 5 (drop (length (trace s1)) (trace s2)) = false
      /\ written 4 (drop (length (trace s1)) (trace s2)) = [Byte.x41])
  /\ (exists s',
      (cache_init ;;
       serve 8192 8192 20 (Env (inl ("client", "4242")) lines_a None false []) 4)
        (boot []) = Done tt s'
      /\ parser_made (trace s') = true /\ parser_freed (trace s') = true
      /\ opened 5 (trace s') = false)
  /\ (exists s',
      (cache_init ;; serve 8192 8192 20 (env_a [Byte.x41]) 4) (boot [true])
      = Done tt s'
      /\ parser_made (trace s') = true /\ opened 5 (trace s') = true
      /\ parser_freed (trace s') = true /\ closed 5 (trace s') = true).
Proof.
  split; [|split; [|split]].
  - eexists. split; [vm_compute; reflexivity|]. vm_compute. done.
  - do 2 eexists. split; [vm_compute; reflexivity|].
    split; [vm_compute; reflexivity|]. vm_compute. done.
  - eexists. split; [vm_compute; reflexivity|]. vm_compute. done.
  - eexists. split; [vm_compute; reflexivity|]. vm_compute. done.
Qed.

(** C5.  When a write to the client fails in the relay loop, [serve]
    answers with [clienterror] and returns: the parser it made is not freed
    and the descriptor of the origin it opened is not closed. *)
Theorem serve_write_error_leaks :
  exists s',
    (cache_init ;; serve 8192 8192 20 (env_a [Byte.x41; Byte.x42]) 4)
      (boot [false; false; false; false; true])
    = Done tt s'
    /\ parser_made (trace s') = true /\ opened 5 (trace s') = true
    /\ parser_freed (trace s') = false /\ closed 5 (trace s') = false.
Proof.
  eexists. split; [vm_compute; reflexivity|]. vm_compute. done.
Qed.

(** ** More about the cache *)

Lemma one_pinned_reachable : reachable one_pinned [1%positive].
Proof.
  apply (reach_step one_entry []); [exact one_entry_reachable|].
  apply (step_pin _ _ 1 "/a"). by vm_compute.
Qed.

(** X1.  A lookup of a key that is not in the cache returns [false] and
    leaves everything as it was: the list, the counts, the mutex, and
    nothing is written.  This holds with readers in flight too. *)
Theorem gettext_miss_unchanged s pins fuel u fd :
  reachable s pins -> u ∉ cache_keys s ->
  (length (cache_list s) <= fuel)%nat ->
  cache_gettext fuel u fd s = Done false s.
Proof.
  intros Hr Hu Hf. destruct (reachable_inv _ _ Hr) as [ps Hinv].
  destruct (cache_inv_view _ _ _ Hinv) as [El _]. rewrite El in Hf.
  assert (find_uri (blocks s) u ps = None) as Hfind.
  { destruct (find_uri (blocks s) u ps) eqn:E; [|done].
    exfalso. apply Hu. apply (find_uri_keys _ _ _ _ Hinv). by rewrite E. }
  unfold cache_gettext.
  by rewrite (bind_Done _ _ _ _ _ (pin_miss _ _ _ _ _ Hinv Hfind Hf)).
Qed.

Lemma gettext_miss_unchanged_witness :
  reachable one_pinned [1%positive] /\ ("/b" ∉ cache_keys one_pinned)
  /\ (length (cache_list one_pinned) <= 1)%nat
  /\ cache_gettext 1 "/b" 7 one_pinned = Done false one_pinned.
Proof.
  assert ("/b" ∉ cache_keys one_pinned) as Hu.
  { vm_compute. intros H. apply list_elem_of_singleton in H. discriminate. }
  assert (length (cache_list one_pinned) <= 1)%nat as Hf by (vm_compute; lia).
  split; [exact one_pinned_reachable|]. split; [exact Hu|]. split; [exact Hf|].
  exact (gettext_miss_unchanged _ _ 1 "/b" 7 one_pinned_reachable Hu Hf).
Defined.

(** X2.  Between critical sections the header of the cache is exact: the
    mutex is free, [size] is the sum of the [text_len] of the listed blocks,
    and [start] is the first block of the list ([NULL] when it is empty). *)
Theorem cache_header_exact s pins :
  reachable s pins ->
  mutex s = false
  /\ exists c, cache s = Some c
               /\ size c = cache_bytes s
               /\ 0 <= size c
               /\ start c = head (cache_list s).
Proof.
  intros Hr. destruct (reachable_inv _ _ Hr) as [ps Hinv].
  pose proof (cache_bytes_psum _ _ _ Hinv) as Eb.
  destruct (cache_inv_view _ _ _ Hinv) as [El _].
  destruct Hinv as (c & Hc & Hst & Hsz & Hmax & Hm & Hl & Hnd & Hd).
  split; [done|]. exists c. rewrite El, Eb. repeat split; try done.
  rewrite Hsz. apply psum_nonneg. by eapply data_ok_listed.
Qed.

Lemma cache_header_exact_witness :
  reachable one_entry [] /\ mutex one_entry = false.
Proof.
  split; [exact one_entry_reachable|].
  exact (proj1 (cache_header_exact _ _ one_entry_reachable)).
Defined.

(** X3.  The heap holds the listed blocks and no others: a block that left
    the list has been freed, and no listed block is freed.  Every block has
    its key and its text, and [text_len] is the length of the text. *)
Theorem heap_is_the_list s pins :
  reachable s pins ->
  forall p,
    (is_Some (blocks s !! p) <-> p ∈ cache_list s)
    /\ forall b, blocks s !! p = Some b ->
         is_Some (uri b)
         /\ exists tx, text b = Some tx /\ text_len b = Z.of_nat (length tx).
Proof.
  intros Hr p. destruct (reachable_inv _ _ Hr) as [ps Hinv].
  destruct (cache_inv_view _ _ _ Hinv) as [El _]. rewrite El.
  apply cache_inv_state in Hinv as (h & w & t & -> & _ & Hl & _ & Hd).
  cbn [blocks]. split.
  - rewrite <- elem_of_dom, <- payload_dom, (d_dom _ _ _ Hd).
    apply elem_of_list_to_set.
  - intros b Hb.
    assert (payload h !! p = Some (entry_of b)) as Hpe
      by (by rewrite payload_lookup, Hb).
    destruct (d_entry _ _ _ Hd _ _ Hpe) as (Hu & Ht & _). done.
Qed.

Lemma heap_is_the_list_witness :
  reachable one_entry []
  /\ (is_Some (blocks one_entry !! 2%positive) <-> 2%positive ∈ cache_list one_entry).
Proof.
  split; [exact one_entry_reachable|].
  exact (proj1 (heap_is_the_list _ _ one_entry_reachable 2%positive)).
Defined.

(** X4.  [cache_free] returns exactly when the list is empty, and then it
    gives up the header of the cache; on a cache that holds a block it stays
    in [block_free] whatever the fuel, with nothing freed. *)
Theorem cache_free_iff_empty s :
  reachable s [] ->
  (cache_list s = [] ->
   forall fuel, cache_free fuel s = Done tt (set_cache None s))
  /\ (cache_list s <> [] -> forall fuel, cache_free fuel s = Timeout s).
Proof.
  intros Hr. destruct (reachable_inv _ _ Hr) as [ps Hinv].
  destruct (cache_inv_view _ _ _ Hinv) as [El _]. rewrite El. split.
  - intros -> fuel.
    apply cache_inv_state in Hinv as (h & w & t & -> & _). reflexivity.
  - intros Hne fuel. by eapply cache_free_spin.
Qed.

Lemma cache_free_iff_empty_witness :
  reachable one_entry []
  /\ forall fuel, cache_free fuel one_entry = Timeout one_entry.
Proof.
  split; [exact one_entry_reachable|].
  apply (proj2 (cache_free_iff_empty _ one_entry_reachable)).
  vm_compute. discriminate.
Defined.

Lemma bind_Fault {A B} (m : M A) (k : A -> M B) s :
  m s = Fault -> bind m k s = Fault.
Proof. intros H. unfold bind. by rewrite H. Qed.

Lemma psum_nonneg_len d ps :
  (forall p e, d !! p = Some e -> 0 <= e_len e) -> 0 <= psum d ps.
Proof.
  intros H. induction ps as [|p r IH]; simpl; [done|].
  destruct (d !! p) as [e|] eqn:E; simpl; [|lia].
  pose proof (H p e E). lia.
Qed.

(** More than [MAX_CACHE_SIZE] bytes never fit: the loop takes out every
    block and then calls [cache_remblock] on the empty list. *)
Lemma downsize_oversize len m w t :
  MAX_CACHE_SIZE < len ->
  forall ps h fuel,
    links h ps -> NoDup ps ->
    (forall p e, payload h !! p = Some e -> e_ref e = 1 /\ 0 <= e_len e) ->
    (length ps < fuel)%nat ->
    downsize fuel len
      (State h (Some (CInfo (psum (payload h) ps) (head ps))) m w t) = Fault.
Proof.
  intros Hlen ps. induction ps as [|x l IH] using rev_ind;
    intros h fuel Hl Hnd Href Hf; (destruct fuel as [|fuel]; [simpl in Hf; lia|]).
  - cbn [downsize]. mcache. cbn [size psum foldr].
    destruct (0 + len >? MAX_CACHE_SIZE) eqn:E; [|lia]. reflexivity.
  - cbn [downsize]. mcache. cbn [size].
    assert (0 <= psum (payload h) (l ++ [x])) as Hnn
      by (apply psum_nonneg_len; intros p e He; by apply (Href p e)).
    destruct (psum (payload h) (l ++ [x]) + len >? MAX_CACHE_SIZE) eqn:E; [|lia].
    destruct (links_lookup _ _ x Hl) as [rb Hrb]; [set_solver|].
    destruct (remblock_unlink _ (psum (payload h) (l ++ [x])) _ _ _ m w t fuel
                Hl Hnd Hrb) as (h1 & Hrun & Hl1 & (rb' & Hrb' & Hrc) & Hpay).
    destruct (Href x (entry_of rb)) as [Hrx _];
      [by rewrite payload_lookup, Hrb|].
    cbn in Hrx. rewrite Hrx in Hrc.
    pose proof Hnd as (Hndl & Hd & _)%NoDup_app.
    assert (x ∉ l) as Hxl.
    { intros ?. eapply Hd; [done|]. by apply list_elem_of_singleton. }
    assert (psum (payload h) (l ++ [x]) - text_len rb = psum (payload h) l) as Es.
    { rewrite psum_app. simpl. rewrite payload_lookup, Hrb. simpl. lia. }
    rewrite Es in Hrun.
    destruct fuel as [|fuel]; [rewrite length_app in Hf; simpl in Hf; lia|].
    rewrite (block_free_zero _ _ _ _ _ _ _ fuel Hrb') in Hrun by lia.
    assert (payload (delete x h1) = delete x (payload h)) as Hpay1.
    { rewrite payload_delete, Hpay. apply delete_insert_eq. }
    assert (psum (payload h) l = psum (payload (delete x h1)) l) as Es1.
    { rewrite Hpay1. symmetry. by apply psum_delete. }
    rewrite Es1 in Hrun.
    erewrite bind_Done by exact Hrun.
    apply IH.
    + by apply links_delete_ne.
    + done.
    + intros p e. rewrite Hpay1. intros Hp.
      apply lookup_delete_Some in Hp as [_ Hp]. by apply (Href p).
    + rewrite length_app in Hf. simpl in Hf. lia.
Qed.

(** X5.  [cache_insert] has no guard against a text of more than
    [MAX_CACHE_SIZE] bytes: for a key that is not in the cache its loop
    evicts every entry and then calls [cache_remblock] on the empty list,
    which reads through the null [start]. *)
Theorem insert_oversize_faults s fuel u txt len :
  reachable s [] -> u ∉ cache_keys s ->
  MAX_CACHE_SIZE < len ->
  (length (cache_list s) < fuel)%nat ->
  cache_insert fuel u txt len s = Fault.
Proof.
  intros Hr Hu Hlen Hf. destruct (reachable_inv _ _ Hr) as [ps Hinv].
  destruct (cache_inv_view _ _ _ Hinv) as [El _]. rewrite El in Hf.
  assert (find_uri (blocks s) u ps = None) as Hfind.
  { destruct (find_uri (blocks s) u ps) eqn:E; [|done].
    exfalso. apply Hu. apply (find_uri_keys _ _ _ _ Hinv). by rewrite E. }
  apply cache_inv_state in Hinv as (h & w & t & -> & Hmax & Hl & Hnd & Hd).
  cbn [blocks] in Hfind. unfold cache_insert.
  mstep ltac:(apply lock_eq).
  mstep ltac:(apply cache_findblock_spec; [done|done|by eapply data_ok_keyed|lia]).
  rewrite Hfind. apply bind_Fault. apply bind_Fault.
  apply downsize_oversize; try done.
  intros p e He. destruct (d_entry _ _ _ Hd p e He) as (_ & (tx & _ & ->) & ->).
  split; [|lia]. cbn. reflexivity.
Qed.

Lemma insert_oversize_faults_witness :
  reachable one_entry [] /\ ("/b" ∉ cache_keys one_entry)
  /\ cache_insert 2 "/b" [] 1048577 one_entry = Fault.
Proof.
  assert ("/b" ∉ cache_keys one_entry) as Hu.
  { vm_compute. intros H. apply list_elem_of_singleton in H. discriminate. }
  split; [exact one_entry_reachable|]. split; [exact Hu|].
  apply (insert_oversize_faults _ 2 "/b" [] 1048577 one_entry_reachable Hu).
  - unfold MAX_CACHE_SIZE. lia.
  - vm_compute. lia.
Defined.

Lemma vsum_nonneg v : 0 <= vsum v.
Proof. unfold vsum. induction v as [|e r IH]; simpl; lia. Qed.

Lemma cache_bytes_vsum s pins ps :
  cache_inv s pins ps -> cache_bytes s = vsum (cache_view s).
Proof.
  intros Hinv. rewrite (cache_bytes_psum _ _ _ Hinv).
  destruct (cache_inv_view _ _ _ Hinv) as [_ ->].
  destruct Hinv as (c & _ & _ & _ & _ & _ & _ & _ & Hd).
  apply psum_vsum. by eapply data_ok_listed.
Qed.

Lemma not_key_find s pins ps u :
  cache_inv s pins ps -> u ∉ cache_keys s -> find_uri (blocks s) u ps = None.
Proof.
  intros Hinv Hu. destruct (find_uri (blocks s) u ps) eqn:E; [|done].
  exfalso. apply Hu. apply (find_uri_keys _ _ _ _ Hinv). by rewrite E.
Qed.

(** X6.  [cache_insert] of a key that is not in the cache, with no reader
    in flight: the entries that go are a tail of the list (the least
    recently used), just as many as it takes for the new text to fit; the
    others stay in their order behind the new entry, which comes first with
    the first [len] bytes of the text.  When the text fits as it is, none
    goes. *)
Theorem insert_evicts_lru_tail s fuel u txt len :
  reachable s [] -> u ∉ cache_keys s ->
  0 <= len <= Z.of_nat (length txt) -> len <= MAX_CACHE_SIZE ->
  (length (cache_list s) < fuel)%nat ->
  exists s' kept gone,
    cache_insert fuel u txt len s = Done tt s'
    /\ reachable s' []
    /\ cache_view s = kept ++ gone
    /\ cache_view s' = (u, take (Z.to_nat len) txt) :: kept
    /\ vsum kept + len <= MAX_CACHE_SIZE
    /\ (forall g1 e g2, gone = g1 ++ e :: g2 ->
          vsum (kept ++ g1 ++ [e]) + len > MAX_CACHE_SIZE)
    /\ (cache_bytes s + len <= MAX_CACHE_SIZE -> gone = [])
    /\ trace s' = trace s /\ wfail s' = wfail s.
Proof.
  intros Hr Hu Hlen Hmax Hf. destruct (reachable_inv _ _ Hr) as [ps Hinv].
  pose proof (cache_bytes_vsum _ _ _ Hinv) as Eb.
  destruct (cache_inv_view _ _ _ Hinv) as [El Hv]. rewrite El in Hf.
  pose proof (not_key_find _ _ _ _ Hinv Hu) as Hfind.
  destruct (insert_miss _ _ _ u txt len fuel Hinv Hfind Hlen Hmax Hf) as
      [(l1 & l2 & s1 & b & -> & _ & Hb & Hrun & Hinv' & Hp' & Hw & Ht & Hfit & Hover)
      |(rem & s1 & _ & Hrem & _)]; [|by apply elem_of_nil in Hrem].
  pose proof Hinv as (h & w & t & -> & _ & Hl & Hnd & Hd)%cache_inv_state.
  pose proof (data_ok_listed _ _ _ Hd) as Hls.
  apply listed_app in Hls as [Hls1 Hls2].
  pose proof Hnd as (_ & Hdisj & _)%NoDup_app.
  cbn [blocks] in *.
  assert (forall g1 e g2, view (payload h) l2 = g1 ++ e :: g2 ->
            vsum (view (payload h) l1 ++ g1 ++ [e]) + len > MAX_CACHE_SIZE) as Hov.
  { intros v2a e v2b E.
    destruct (view_split _ _ _ _ _ Hls2 E) as (l2a & x & l2b & -> & <- & <-).
    rewrite <- !view_app, <- psum_vsum; [by eapply Hover|].
    apply listed_app. split; [done|].
    intros q Hq. apply Hls2. rewrite !elem_of_app in *.
    rewrite elem_of_cons. rewrite list_elem_of_singleton in Hq. tauto. }
  exists s1, (view (payload h) l1), (view (payload h) l2).
  split; [done|]. split.
  { eapply reach_step; [exact Hr|]. by eapply step_insert. }
  split; [by rewrite Hv, view_app|]. split.
  { destruct (cache_inv_view _ _ _ Hinv') as [_ ->]. rewrite Hp'.
    erewrite view_cons; [|apply lookup_insert_eq|done..]. f_equal.
    apply view_ext. intros p Hp. rewrite lookup_insert_ne by (by intros ->).
    rewrite lookup_foldr_delete, decide_False; [done|]. by apply Hdisj. }
  split; [by rewrite <- psum_vsum|]. split; [exact Hov|].
  split; [|done].
  intros Hroom. destruct (view (payload h) l2) as [|e g2] eqn:Eg; [done|].
  exfalso. pose proof (Hov [] e g2 eq_refl) as Hbig.
  rewrite Eb, Hv, view_app, Eg in Hroom.
  change (e :: g2) with ([e] ++ g2) in Hroom.
  rewrite app_assoc, vsum_app in Hroom. simpl in Hbig.
  pose proof (vsum_nonneg g2). lia.
Qed.

Lemma insert_evicts_lru_tail_witness :
  exists s',
    cache_insert 2 "/b" [Byte.x42; Byte.x43] 2 one_entry = Done tt s'
    /\ cache_view s' = [("/b", [Byte.x42; Byte.x43]); ("/a", [Byte.x41])].
Proof.
  assert ("/b" ∉ cache_keys one_entry) as Hu.
  { vm_compute. intros H. apply list_elem_of_singleton in H. discriminate. }
  destruct (insert_evicts_lru_tail one_entry 2 "/b" [Byte.x42; Byte.x43] 2
              one_entry_reachable Hu)
    as (s' & kept & gone & Hrun & _ & Hv & Hv' & _ & _ & Hroom & _).
  - simpl. lia.
  - unfold MAX_CACHE_SIZE. lia.
  - vm_compute. lia.
  - exists s'. split; [exact Hrun|]. rewrite Hv'.
    rewrite (Hroom ltac:(vm_compute; discriminate)), app_nil_r in Hv.
    rewrite <- Hv. reflexivity.
Defined.

Lemma vsum_lru_remove u v t :
  lru_lookup u v = Some t ->
  vsum ((u, t) :: lru_remove u v) = vsum v.
Proof.
  induction v as [|e r IH]; [done|]. cbn [lru_lookup lru_remove].
  case_decide as Hd.
  - intros [= <-]. destruct e as [k x]. simpl in *. by subst.
  - intros H. specialize (IH H). cbn in *. 
    fold (vsum (lru_remove u r)) in *. fold (vsum r) in *. lia.
Qed.

(** X7.  A lookup of a key that is in the cache, with no reader in flight:
    [cache_gettext] hands the stored bytes to [rio_writen] for [fd], once,
    moves the entry to the front of the list and leaves the other entries
    in their order and the size as it was.  It returns [true] whether that
    write went through or not. *)
Theorem gettext_hit_promotes s fuel u fd t :
  reachable s [] -> lru_lookup u (cache_view s) = Some t ->
  (length (cache_list s) <= fuel)%nat ->
  exists s',
    cache_gettext fuel u fd s = Done true s'
    /\ reachable s' []
    /\ trace s' = trace s ++ [EvWrite fd t (negb (default false (head (wfail s))))]
    /\ cache_view s' = (u, t) :: lru_remove u (cache_view s)
    /\ cache_bytes s' = cache_bytes s.
Proof.
  intros Hr Hlook Hf. destruct (reachable_inv _ _ Hr) as [ps Hinv].
  destruct (cache_inv_view _ _ _ Hinv) as [El _]. rewrite El in Hf.
  destruct (gettext_refines _ _ u fd fuel Hinv Hf) as
    (s' & ps' & Hrun & Hinv' & Hv & Ht).
  rewrite Hlook in Hrun, Ht. unfold lru_touch in Hv. rewrite Hlook in Hv.
  exists s'. split; [exact Hrun|]. split; [by eapply gettext_reachable|].
  split; [done|]. split; [done|].
  rewrite (cache_bytes_vsum _ _ _ Hinv), (cache_bytes_vsum _ _ _ Hinv'), Hv.
  by apply vsum_lru_remove.
Qed.

Lemma gettext_hit_promotes_witness :
  exists s',
    cache_gettext 1 "/a" 7 one_entry = Done true s'
    /\ trace s' = [EvWrite 7 [Byte.x41] true].
Proof.
  destruct (gettext_hit_promotes one_entry 1 "/a" 7 [Byte.x41] one_entry_reachable)
    as (s' & Hrun & _ & Ht & _).
  - reflexivity.
  - vm_compute. lia.
  - exists s'. split; [exact Hrun|exact Ht].
Defined.

Lemma seg_last h pv l x nx :
  seg h pv (l ++ [x]) nx -> exists b, h !! x = Some b /\ next b = nx.
Proof.
  rewrite seg_app. intros [_ (b & Hb & _ & Hn & _)]. exists b. by split.
Qed.

(** X8.  The list is a ring in both directions: from every listed block,
    [next] and [prev] lead to allocated blocks, and [prev] of the next block
    and [next] of the previous block lead back. *)
Theorem ring_links_inverse s pins p :
  reachable s pins -> p ∈ cache_list s ->
  exists b nb pb,
    blocks s !! p = Some b
    /\ blocks s !! next b = Some nb /\ prev nb = p
    /\ blocks s !! prev b = Some pb /\ next pb = p.
Proof.
  intros Hr Hp. destruct (reachable_inv _ _ Hr) as [ps Hinv].
  destruct (cache_inv_view _ _ _ Hinv) as [El _]. rewrite El in Hp.
  apply cache_inv_state in Hinv as (h & w & t & -> & _ & Hl & _ & _).
  cbn [blocks]. apply list_elem_of_split in Hp as (l1 & l2 & ->).
  apply links_rotate in Hl. rewrite <- app_comm_cons in Hl.
  destruct (links_head _ _ _ Hl) as (b & Hb & Hpv & Hnx & Hseg).
  exists b. destruct (l2 ++ l1) as [|q r] eqn:Er.
  - simpl in Hpv, Hnx. exists b, b. by rewrite Hnx, Hpv.
  - assert (exists r' x, q :: r = r' ++ [x]) as (r' & x & Ex).
    { destruct (list_snoc_inv q r) as (r' & x & E & _). eauto. }
    pose proof Hseg as (bq & Hbq & Hbp & _).
    rewrite Ex in Hseg, Hpv. apply seg_last in Hseg as (bx & Hbx & Hbn).
    rewrite last_snoc in Hpv. simpl in Hpv, Hnx.
    exists bq, bx. by rewrite Hnx, Hpv.
Qed.

Lemma ring_links_inverse_witness :
  exists b nb pb,
    blocks one_entry !! 1%positive = Some b
    /\ blocks one_entry !! next b = Some nb /\ prev nb = 1%positive
    /\ blocks one_entry !! prev b = Some pb /\ next pb = 1%positive.
Proof.
  apply (ring_links_inverse one_entry [] 1%positive one_entry_reachable).
  vm_compute. left.
Defined.

(** [gettext_send] on a block that is allocated and has its text: the
    write is handed [text_len] bytes of it, and nothing else changes. *)
Lemma send_at s p b tx fd :
  blocks s !! p = Some b -> text b = Some tx ->
  exists s',
    gettext_send fd p s = Done tt s'
    /\ trace s'
       = trace s ++ [EvWrite fd (take (Z.to_nat (text_len b)) tx)
                       (negb (default false (head (wfail s))))]
    /\ blocks s' = blocks s /\ mutex s' = mutex s.
Proof.
  intros Hb Htx. destruct s as [h c m w t]. cbn [blocks] in Hb.
  unfold gettext_send.
  destruct w as [|[] w]; eexists;
    (split; [mload Hb; rewrite Htx; mstep ltac:(reflexivity); reflexivity|]);
    done.
Qed.

(** X9.  A reader that holds a block between the two critical sections of
    [cache_gettext], in a state that the critical sections of the threads
    reach.  (a) When no thread is inside a critical section, the reader
    finds the block as it was: the write hands over the text of the block,
    the second critical section gets the mutex and takes the count down by
    one, and the entries of the cache are what they were.  (b) When
    instead a [cache_insert] of another thread does not return (it waits in
    [block_free] for a pinned block), the mutex is held, the block of the
    reader is still allocated with its text and the write still hands it
    over, but the second critical section of the reader never gets the
    mutex. *)
Theorem reader_finishes s k1 p k2 fd :
  reachable s (k1 ++ p :: k2) ->
  exists b tx,
    blocks s !! p = Some b /\ text b = Some tx
    /\ (exists s1 s2 b2,
          gettext_send fd p s = Done tt s1
          /\ trace s1
             = trace s ++ [EvWrite fd tx (negb (default false (head (wfail s))))]
          /\ gettext_unpin p s1 = Done tt s2
          /\ reachable s2 (k1 ++ k2)
          /\ blocks s2 !! p = Some b2 /\ ref_cont b2 = ref_cont b - 1
          /\ cache_view s2 = cache_view s)
    /\ (forall fuel u txt len s3,
          0 <= len <= Z.of_nat (length txt) -> len <= MAX_CACHE_SIZE ->
          (length (cache_list s) < fuel)%nat ->
          cache_insert fuel u txt len s = Timeout s3 ->
          mutex s3 = true
          /\ exists b3 s4,
               blocks s3 !! p = Some b3 /\ text b3 = Some tx
               /\ gettext_send fd p s3 = Done tt s4
               /\ trace s4
                  = trace s
                    ++ [EvWrite fd tx (negb (default false (head (wfail s))))]
               /\ gettext_unpin p s4 = Blocked s4).
Proof.
  intros Hr. destruct (reachable_inv _ _ Hr) as [ps Hinv].
  assert (p ∈ k1 ++ p :: k2) as Hpin by set_solver.
  assert (p ∈ ps) as Hp.
  { destruct Hinv as (c & _ & _ & _ & _ & _ & _ & _ & Hd).
    by apply (d_pins _ _ _ Hd). }
  destruct (send_spec _ _ _ p fd Hinv Hp) as
    (tx & ok & s1 & Htx & Hsend & Ht1 & -> & Hb1 & Hinv1).
  destruct (unpin_spec _ _ _ _ _ Hinv1) as
    (s2 & e & Hun & Hinv2 & He & Hp2 & _ & _).
  rewrite Hb1 in He, Hp2.
  rewrite payload_lookup in He, Htx.
  destruct (blocks s !! p) as [b|] eqn:Hb; [|done].
  cbn in He, Htx. injection He as <-.
  pose proof (f_equal (fun d => d !! p) Hp2) as Hl2. cbn beta in Hl2.
  rewrite lookup_insert_eq, payload_lookup in Hl2.
  destruct (blocks s2 !! p) as [b2|] eqn:Hb2; [|done].
  cbn in Hl2. injection Hl2 as _ Href _ _.
  assert (take (Z.to_nat (text_len b)) tx = tx) as Etake.
  { destruct (send_at s p b tx fd Hb Htx) as (s1' & Hsend' & Ht1' & _).
    rewrite Hsend in Hsend'. injection Hsend' as <-.
    rewrite Ht1 in Ht1'. apply app_inv_head in Ht1'. by injection Ht1' as <-. }
  exists b, tx. split; [done|]. split; [done|]. split.
  { exists s1, s2, b2.
    split; [done|]. split; [done|]. split; [done|]. split.
    { eapply reach_step; [|by eapply step_unpin].
      eapply reach_step; [exact Hr|]. by eapply step_send. }
    split; [done|]. split.
    { exact Href. }
    destruct (cache_inv_view _ _ _ Hinv2) as [_ ->].
    destruct (cache_inv_view _ _ _ Hinv) as [_ ->].
    rewrite Hp2. apply (view_update _ p (entry_of b)); [|done..].
    by rewrite payload_lookup, Hb. }
  intros fuel u txt len s3 Hlen Hmax Hf Hrun.
  destruct (cache_inv_view _ _ _ Hinv) as [El _]. rewrite El in Hf.
  destruct (find_uri (blocks s) u ps) as [q|] eqn:Hfind.
  { rewrite (insert_hit _ _ _ _ _ _ _ _ Hinv Hfind) in Hrun by lia. done. }
  destruct (insert_miss _ _ _ u txt len fuel Hinv Hfind Hlen Hmax Hf) as
      [(l1 & l2 & s' & b' & _ & _ & _ & Hrun' & _)
      |(rem & s' & _ & _ & _ & Hrun' & Hm & _ & Hw & Ht & Hkeep)];
    rewrite Hrun' in Hrun; [done|]. injection Hrun as <-.
  split; [exact Hm|].
  destruct (Hkeep p (entry_of b) Hpin) as (e' & He' & Hl' & _ & Ht');
    [by rewrite payload_lookup, Hb|].
  rewrite payload_lookup in He'.
  destruct (blocks s' !! p) as [b3|] eqn:Hb3; [|done].
  cbn in He'. injection He' as <-. cbn in Hl', Ht'.
  destruct (send_at s' p b3 tx fd Hb3) as (s4 & Hsend4 & Ht4 & _ & Hm4);
    [by rewrite Ht'|].
  exists b3, s4. split; [done|]. split; [by rewrite Ht'|]. split; [done|].
  split; [by rewrite Ht4, Hl', Etake, Ht, Hw|].
  destruct s4 as [h4 c4 m4 w4 t4]. cbn in Hm4. rewrite Hm in Hm4. by subst m4.
Qed.

Lemma reader_finishes_witness :
  (exists b tx s1 s2 b2,
     blocks one_pinned !! 1%positive = Some b /\ text b = Some tx
     /\ gettext_send 7 1%positive one_pinned = Done tt s1
     /\ trace s1 = trace one_pinned ++ [EvWrite 7 tx true]
     /\ gettext_unpin 1%positive s1 = Done tt s2
     /\ reachable s2 []
     /\ blocks s2 !! 1%positive = Some b2 /\ ref_cont b2 = ref_cont b - 1
     /\ cache_view s2 = cache_view one_pinned)
  /\ (exists s3 b3 s4,
       cache_insert 3 "/b" (big_text ++ [Byte.x41; Byte.x41]) 1048576 one_pinned
       = Timeout s3
       /\ mutex s3 = true
       /\ blocks s3 !! 1%positive = Some b3 /\ text b3 = Some [Byte.x41]
       /\ gettext_send 7 1%positive s3 = Done tt s4
       /\ trace s4 = [EvWrite 7 [Byte.x41] true]
       /\ gettext_unpin 1%positive s4 = Blocked s4).
Proof.
  destruct (reader_finishes one_pinned [] 1%positive [] 7 one_pinned_reachable)
    as (b & tx & Hb & Htx & (s1 & s2 & b2 & Ha) & Hwait).
  split; [by exists b, tx, s1, s2, b2|].
  assert (exists s3,
            cache_insert 3 "/b" (big_text ++ [Byte.x41; Byte.x41]) 1048576
              one_pinned = Timeout s3) as [s3 Hrun].
  { eexists. vm_compute. reflexivity. }
  destruct (Hwait 3%nat "/b" (big_text ++ [Byte.x41; Byte.x41]) 1048576 s3)
    as (Hm & b3 & s4 & Hb3 & Ht3 & Hsend & Htr & Hblk).
  - rewrite length_app, Nat2Z.inj_add, big_text_length. simpl. lia.
  - unfold MAX_CACHE_SIZE. lia.
  - vm_compute. lia.
  - exact Hrun.
  - assert (tx = [Byte.x41]) as ->.
    { vm_compute in Hb. injection Hb as <-. by injection Htx as <-. }
    by exists s3, b3, s4.
Defined.

(** ** More about the proxy *)

Lemma bytes_app a b : bytes (a +:+ b) = bytes a ++ bytes b.
Proof.
  unfold bytes, String.list_byte_of_string.
  induction a as [|c a IH]; [done|]. simpl. f_equal. exact IH.
Qed.

Lemma bytes_length a : length (bytes a) = String.length a.
Proof.
  unfold bytes, String.list_byte_of_string.
  induction a as [|c a IH]; [done|]. simpl. f_equal. exact IH.
Qed.

Lemma sprintf_eq ML buf s st :
  Z.of_nat (String.length s) + 1 <= ML ->
  sprintf ML buf s st
  = Done (bytes s ++ [Byte.x00] ++ drop (S (length (bytes s))) buf,
          Z.of_nat (String.length s)) st.
Proof.
  intros H. unfold sprintf. rewrite bytes_length.
  destruct (ML <? Z.of_nat (String.length s) + 1) eqn:E; [lia|]. done.
Qed.

Lemma rio_writen_ok fd buf n h c m t :
  rio_writen fd buf n (State h c m [] t)
  = Done n (State h c m [] (t ++ [EvWrite fd (take (Z.to_nat n) buf) true])).
Proof. reflexivity. Qed.

Lemma take_line s rest :
  take (Z.to_nat (Z.of_nat (String.length s))) (bytes s ++ rest) = bytes s.
Proof.
  rewrite Nat2Z.id, <- bytes_length. by rewrite take_app_length.
Qed.

Lemma from_option_last_cons {A B} (f : A -> B) d d' a l :
  from_option f d (last (a :: l)) = from_option f d' (last (a :: l)).
Proof.
  destruct (last (a :: l)) eqn:E; [done|]. by apply last_None in E.
Qed.

(** The [while] of [write_header] when all writes go through: one write for
    each header that passes, and [buf] is left holding the last of them. *)
Lemma write_lines_ok ML fd hs buf buf_len h c m t :
  Forall (fun x => Z.of_nat (String.length (header_line x)) + 1 <= ML)
    (List.filter passes hs) ->
  exists buf',
    write_lines ML fd hs buf buf_len (State h c m [] t)
    = Done (0, buf',
            from_option (fun l => Z.of_nat (String.length l)) buf_len
              (last (map header_line (List.filter passes hs))))
        (State h c m []
           (t ++ map (fun x => EvWrite fd (bytes (header_line x)) true)
                   (List.filter passes hs)))
    /\ match last (map header_line (List.filter passes hs)) with
       | Some l => exists rest, buf' = bytes l ++ [Byte.x00] ++ rest
       | None => buf' = buf
       end.
Proof.
  revert buf buf_len t. induction hs as [|x hs IH]; intros buf buf_len t Hfit.
  - exists buf. simpl. by rewrite app_nil_r.
  - cbn [write_lines List.filter]. fold (passes x).
    destruct (passes x) eqn:Hp.
    + cbn [List.filter] in Hfit. rewrite Hp in Hfit.
      apply Forall_cons in Hfit as [Hx Hfit].
      fold (header_line x).
      destruct (IH (bytes (header_line x) ++ [Byte.x00]
                      ++ drop (S (length (bytes (header_line x)))) buf)
                  (Z.of_nat (String.length (header_line x)))
                  (t ++ [EvWrite fd (bytes (header_line x)) true]) Hfit)
        as (buf' & Hrun & Hlast).
      exists buf'. split.
      * mstep ltac:(apply sprintf_eq; exact Hx). cbn [fst snd].
        mstep ltac:(apply rio_writen_ok).
        replace (Z.of_nat (String.length (header_line x)) <? 0) with false
          by (symmetry; apply Z.ltb_ge; lia).
        rewrite take_line, Hrun. cbn [map]. rewrite <- app_assoc. cbn [app].
        destruct (List.filter passes hs) as [|y ys] eqn:Ef; [done|].
        cbn [map]. rewrite !last_cons_cons.
        do 2 f_equal. apply from_option_last_cons.
      * cbn [map]. destruct (List.filter passes hs) as [|y ys] eqn:Ef.
        { cbn in *. subst buf'. eauto. }
        cbn [map] in *. rewrite last_cons_cons.
        destruct (last (header_line y :: map header_line ys)) eqn:E; [done|].
        by apply last_None in E.
    + cbn [List.filter] in Hfit. rewrite Hp in Hfit.
      destruct (IH buf buf_len t Hfit) as (buf' & Hrun & Hlast).
      exists buf'. done.
Qed.

Lemma string_length_app a b :
  String.length (a +:+ b) = (String.length a + String.length b)%nat.
Proof. by rewrite <- !bytes_length, bytes_app, length_app. Qed.

Lemma header_line_length x : (4 <= String.length (header_line x))%nat.
Proof.
  unfold header_line. rewrite !string_length_app. 
  change (String.length ": ") with 2%nat. change (String.length CRLF) with 2%nat. lia.
Qed.

Lemma host_block_length r p : (4 <= String.length (host_block r p))%nat.
Proof.
  unfold host_block. destruct (parser_lookup_header p "Host");
    rewrite !string_length_app; change (String.length "Host: ") with 6%nat; lia.
Qed.

Lemma last_line_length r p : (4 <= String.length (last_line r p))%nat.
Proof.
  unfold last_line.
  destruct (last (map header_line (List.filter passes (p_headers p)))) as [l|] eqn:E.
  - apply last_Some in E as [l' E].
    assert (l ∈ map header_line (List.filter passes (p_headers p))) as Hin
      by (rewrite E; set_solver).
    apply list_elem_of_fmap in Hin as (x & -> & _). apply header_line_length.
  - apply host_block_length.
Qed.

(** [write_header] when all writes go through and every line fits: the
    request line, the host block, one write for each header that passes,
    and a last write of as many bytes as the line before it had, which
    starts with the empty line. *)
Lemma write_header_ok ML junk fd r p h c m t :
  header_fits ML r p ->
  exists tail,
    write_header ML junk fd r p (State h c m [] t)
    = Done 0
        (State h c m []
           (t ++ [EvWrite fd (bytes (request_line r)) true;
                  EvWrite fd (bytes (host_block r p)) true]
              ++ map (fun x => EvWrite fd (bytes (header_line x)) true)
                   (List.filter passes (p_headers p))
              ++ [EvWrite fd (bytes CRLF ++ tail) true]))
    /\ length tail = (String.length (last_line r p) - 2)%nat.
Proof.
  intros (Hreq & Hhost & Hhs).
  pose proof (host_block_length r p) as Hhl.
  pose proof (last_line_length r p) as Hll.
  destruct (write_lines_ok ML fd (p_headers p)
              (bytes (host_block r p) ++ [Byte.x00]
                 ++ drop (S (length (bytes (host_block r p))))
                      (bytes (request_line r) ++ [Byte.x00]
                         ++ drop (S (length (bytes (request_line r)))) junk))
              (Z.of_nat (String.length (host_block r p))) h c m
              ((t ++ [EvWrite fd (bytes (request_line r)) true])
                 ++ [EvWrite fd (bytes (host_block r p)) true]) Hhs)
    as (buf' & Hrun & Hlast).
  set (n := String.length (last_line r p)) in *.
  assert (from_option (fun l => Z.of_nat (String.length l))
            (Z.of_nat (String.length (host_block r p)))
            (last (map header_line (List.filter passes (p_headers p))))
          = Z.of_nat n) as En.
  { unfold n, last_line. by destruct (last _). }
  assert (exists rest, buf' = bytes (last_line r p) ++ [Byte.x00] ++ rest) as [rest Eb].
  { unfold last_line. destruct (last _) as [l|]; [done|]. cbn. eauto. }
  rewrite En in Hrun.
  exists (take (n - 2) (Byte.x00 :: drop 3 buf')). split.
  - unfold write_header. fold (request_line r).
    mstep ltac:(apply sprintf_eq; exact Hreq). cbn [fst snd].
    mstep ltac:(apply rio_writen_ok).
    replace (Z.of_nat (String.length (request_line r)) <? 0) with false
      by (symmetry; apply Z.ltb_ge; lia).
    rewrite take_line. cbn zeta.
    match goal with
    | |- bind ?m0 _ _ = _ =>
        replace m0 with
          (sprintf ML (bytes (request_line r) ++ [Byte.x00]
                         ++ drop (S (length (bytes (request_line r)))) junk)
             (host_block r p))
          by (unfold host_block; by destruct (parser_lookup_header p "Host"))
    end.
    mstep ltac:(apply sprintf_eq; exact Hhost). cbn [fst snd].
    mstep ltac:(apply rio_writen_ok).
    replace (Z.of_nat (String.length (host_block r p)) <? 0) with false
      by (symmetry; apply Z.ltb_ge; lia).
    rewrite take_line.
    mstep ltac:(exact Hrun). cbn beta iota. change (0 <? 0) with false. cbv iota.
    mstep ltac:(apply sprintf_eq; change (String.length CRLF) with 2%nat; lia).
    cbn [fst snd].
    mstep ltac:(apply rio_writen_ok).
    replace (Z.of_nat n <? 0) with false by (symmetry; apply Z.ltb_ge; lia).
    unfold ret. f_equal. f_equal. rewrite <- !app_assoc. cbn [app].
    do 3 f_equal. f_equal. f_equal.
    rewrite Nat2Z.id. change (bytes CRLF) with [Byte.x0d; Byte.x0a].
    cbn [length app]. destruct n as [|[|n']]; [lia|lia|].
    cbn [take]. by replace (S (S n') - 2)%nat with n' by lia.
  - rewrite length_take. apply Nat.min_l.
    cbn [length]. rewrite length_drop, Eb, !length_app, bytes_length.
    fold n. cbn [length]. lia.
Qed.

Lemma passes_spec x :
  passes x = true
  <-> h_name x ∉ ["Host"; "User-Agent"; "Connection"; "Proxy-Connection"].
Proof.
  unfold passes. rewrite !andb_true_iff, !negb_true_iff, !String.eqb_neq.
  rewrite !not_elem_of_cons. pose proof (not_elem_of_nil (h_name x)). tauto.
Qed.

Lemma filter_passes hs :
  filter (fun h => h_name h ∉ ["Host"; "User-Agent"; "Connection"; "Proxy-Connection"]) hs
  = List.filter passes hs.
Proof.
  induction hs as [|x hs IH]; [done|]. cbn [List.filter].
  rewrite filter_cons, IH. pose proof (passes_spec x) as Hx.
  destruct (passes x); case_decide; try done.
  - exfalso. tauto.
  - exfalso. assert (false = true) by tauto. done.
Qed.

Lemma bytes_header_lines l :
  bytes (foldr (fun h acc => h_name h +:+ ": " +:+ h_value h +:+ CRLF +:+ acc)
           EmptyString l)
  = flat_map (fun x => bytes (header_line x)) l.
Proof.
  induction l as [|x l IH]; [done|]. cbn [foldr flat_map].
  unfold header_line. rewrite !bytes_app, IH, <- !app_assoc. done.
Qed.

Lemma origin_header_bytes r p :
  bytes (origin_header r p)
  = bytes (request_line r) ++ bytes (host_block r p)
    ++ flat_map (fun x => bytes (header_line x)) (List.filter passes (p_headers p))
    ++ bytes CRLF.
Proof.
  unfold origin_header, request_line, host_block.
  rewrite filter_passes.
  destruct (parser_lookup_header p "Host");
    rewrite !bytes_app, bytes_header_lines, <- !app_assoc; done.
Qed.

Lemma written_writes fd {A} (f : A -> list byte) l :
  written fd (map (fun x => EvWrite fd (f x) true) l) = flat_map f l.
Proof.
  induction l as [|x l IH]; [done|]. cbn. rewrite Z.eqb_refl. f_equal. exact IH.
Qed.

(** X10.  What [write_header] sends when every line fits in [buf] and all
    writes go through: the request line with [HTTP/1.0], the [Host] of the
    client or else [host:port], the fixed [User-Agent], [Connection: close],
    [Proxy-Connection: close], the headers of the client in their order
    without those named (to the letter) [Host], [User-Agent], [Connection]
    or [Proxy-Connection], and the empty line.  After the empty line come
    as many more bytes as the last line before it was longer than two. *)
Theorem write_header_sends_block ML junk fd r p s :
  wfail s = [] -> header_fits ML r p ->
  exists s' tail,
    write_header ML junk fd r p s = Done 0 s'
    /\ written fd (trace s')
       = written fd (trace s) ++ bytes (origin_header r p) ++ tail
    /\ length tail = (String.length (last_line r p) - 2)%nat
    /\ (forall fd', fd' <> fd -> written fd' (trace s') = written fd' (trace s))
    /\ blocks s' = blocks s /\ cache s' = cache s /\ mutex s' = mutex s
    /\ wfail s' = [].
Proof.
  intros Hw Hfit. destruct s as [h c m w t]. cbn in Hw. subst w.
  destruct (write_header_ok ML junk fd r p h c m t Hfit) as (tail & Hrun & Hlen).
  eexists _, tail. split; [exact Hrun|]. cbn [trace blocks cache mutex wfail].
  split; [|split; [exact Hlen|split; [|done]]].
  - rewrite !written_app, written_writes, origin_header_bytes.
    cbn [written flat_map]. rewrite Z.eqb_refl, <- !app_assoc, !app_nil_r. done.
  - intros fd' Hne. rewrite !written_app.
    assert ((fd' =? fd) = false) as E by (by apply Z.eqb_neq).
    assert (forall l, written fd' (map (fun x => EvWrite fd (bytes (header_line x)) true) l)
                      = []) as Hmap.
    { induction l as [|x l IH]; [done|]. cbn. by rewrite E. }
    rewrite Hmap. cbn. rewrite E. by rewrite !app_nil_r.
Qed.

Lemma write_header_sends_block_witness :
  exists s' tail,
    write_header 8192 (replicate 64 Byte.xff) 5 req_a parser_a
      (State ∅ (Some (CInfo 0 None)) false [] []) = Done 0 s'
    /\ written 5 (trace s') = bytes (origin_header req_a parser_a) ++ tail
    /\ length tail = 11%nat.
Proof.
  destruct (write_header_sends_block 8192 (replicate 64 Byte.xff) 5 req_a parser_a
              (State ∅ (Some (CInfo 0 None)) false [] []) eq_refl)
    as (s' & tail & Hrun & Hw & Hlen & _).
  - split; [vm_compute; discriminate|]. split; [vm_compute; discriminate|].
    repeat constructor. vm_compute. discriminate.
  - exists s', tail. split; [exact Hrun|]. split; [exact Hw|exact Hlen].
Defined.



Lemma same_cache_reachable s s' pins :
  same_cache s s' -> reachable s pins -> reachable s' pins.
Proof.
  intros (Hb & Hc & Hm) Hr. destruct s' as [h c m w t]. cbn in *. subst.
  eapply reach_step; [exact Hr|]. apply step_io.
Qed.

Lemma same_cache_view s s' : same_cache s s' -> cache_view s' = cache_view s.
Proof.
  intros (Hb & Hc & Hm). unfold cache_view, cache_list. by rewrite Hb, Hc.
Qed.

Lemma same_cache_keys s s' : same_cache s s' -> cache_keys s' = cache_keys s.
Proof.
  intros (Hb & Hc & Hm). unfold cache_keys, cache_list. by rewrite Hb, Hc.
Qed.

Lemma same_cache_list s s' : same_cache s s' -> cache_list s' = cache_list s.
Proof.
  intros (Hb & Hc & Hm). unfold cache_list. by rewrite Hb, Hc.
Qed.




(** [read_headers] writes nothing to any descriptor and leaves the cache
    alone; it returns [0] at the first empty line and [-1] when the lines
    end before one. *)
Lemma read_headers_frame lines p s :
  exists r s', read_headers lines p s = Done r s' /\ same_cache s s'
               /\ wfail s' = wfail s
               /\ forall fd, written fd (trace s') = written fd (trace s).
Proof.
  revert p. induction lines as [|[buf t] rest IH]; intros p.
  - cbn [read_headers]. eexists _, _. split; [reflexivity|].
    split; [done|]. split; [done|]. intros fd. cbn [trace].
    rewrite written_app. cbn. by rewrite app_nil_r.
  - cbn [read_headers]. destruct (String.eqb buf CRLF).
    + exists (0, p), s. done.
    + apply IH.
Qed.

Lemma read_headers_ok hs t rest pr acc s :
  Forall (fun rh => rh.1 <> CRLF) hs ->
  read_headers (header_lines hs ++ (CRLF, t) :: rest) (Parser pr acc) s
  = Done (0, Parser pr (acc ++ map snd hs)) s.
Proof.
  revert acc. induction hs as [|[raw x] hs IH]; intros acc Hne.
  - cbn. by rewrite app_nil_r.
  - apply Forall_cons in Hne as [Hraw Hne]. cbn in Hraw.
    cbn [header_lines map app read_headers fst snd].
    rewrite (proj2 (String.eqb_neq _ _) Hraw).
    cbn [parser_parse_line fst p_request p_headers].
    fold (header_lines hs). rewrite IH by done.
    by rewrite <- app_assoc.
Qed.

(** A request line, headers and the empty line: [parse_request] returns
    [0] with the fields of the request line and the headers in the parser,
    in their order; it writes nothing and does not look at what follows
    the empty line. *)
Lemma parse_request_ok ML MB l0 r hs t rest connfd s :
  Forall (fun rh => rh.1 <> CRLF) hs ->
  parse_request ML MB ((l0, TRequest r) :: header_lines hs ++ (CRLF, t) :: rest)
    connfd (Parser None []) s
  = Done (0, Parser (Some r) (map snd hs), r) s.
Proof.
  intros Hne. unfold parse_request.
  cbn [parser_parse_line p_headers parser_retrieve p_request default].
  rewrite (bind_Done _ _ _ _ _ (read_headers_ok hs t rest (Some r) [] s Hne)).
  reflexivity.
Qed.




(** The same loop when all writes go through: the client gets the bytes
    that [rio_readnb] handed over, in order, and nothing else is written. *)
Lemma relay_reads (ML MB : Z) connfd fuel rest err ci il h c m t :
  0 < ML -> 0 <= il ->
  il + Z.of_nat (length rest) < 2 ^ 64 ->
  (length rest + Z.to_nat ML <= fuel * Z.to_nat ML)%nat ->
  exists tr ci' k,
    relay ML MB fuel connfd rest err ci il (State h c m [] t)
    = Done (Some (ci', il + Z.of_nat k)) (State h c m [] (t ++ tr))
    /\ (k <= length rest)%nat
    /\ (err = false -> k = length rest)
    /\ (err = true ->
        (exists j, k = (j * Z.to_nat ML)%nat)
        /\ (length rest < k + Z.to_nat ML)%nat)
    /\ written connfd tr = take k rest
    /\ (forall fd, fd <> connfd -> written fd tr = [])
    /\ (il + Z.of_nat k < MAX_OBJECT_SIZE -> ci' = ci ++ take k rest).
Proof.
  intros HML. revert rest ci il t.
  induction fuel as [|f IH]; intros rest ci il t Hil Hlen Hf.
  { simpl in Hf. lia. }
  cbn [relay]. unfold rio_readnb.
  set (buf := take (Z.to_nat ML) rest) in *.
  set (rest' := drop (Z.to_nat ML) rest).
  assert (rest = buf ++ rest') as Erest by (symmetry; apply take_drop).
  assert (length rest = length buf + length rest')%nat as Elen
    by (rewrite Erest at 1; apply length_app).
  assert (length buf = Nat.min (Z.to_nat ML) (length rest)) as Ebuf
    by (unfold buf; apply length_take).
  assert (length rest' = length rest - Z.to_nat ML)%nat as Erest'
    by apply length_drop.
  destruct (err && (Z.of_nat (length buf) <? ML)) eqn:Hfail.
  { apply andb_true_iff in Hfail as [-> Hshort]. apply Z.ltb_lt in Hshort.
    change (0 <? -1) with false. cbv iota.
    exists [], ci, 0%nat. unfold ret. rewrite take_0, !app_nil_r, Z.add_0_r.
    split; [done|]. split; [lia|]. split; [done|]. split.
    { intros _. split; [by exists 0%nat|]. lia. }
    done. }
  destruct (0 <? Z.of_nat (length buf)) eqn:Hpos.
  - apply Z.ltb_lt in Hpos.
    assert (err = true -> length buf = Z.to_nat ML) as Hfull.
    { intros ->. cbn [andb] in Hfail. apply Z.ltb_ge in Hfail. lia. }
    assert (length rest' + Z.to_nat ML <= f * Z.to_nat ML)%nat as Hf'.
    { destruct f as [|f']; simpl in *; [|nia].
      destruct (decide (length rest <= Z.to_nat ML)%nat); lia. }
    rewrite (bind_Done _ _ _ _ _ (rio_writen_ok connfd buf _ h c m t)).
    replace (Z.of_nat (length buf) <? 0) with false by (symmetry; apply Z.ltb_ge; lia).
    rewrite Z.mod_small by lia.
    rewrite take_ge by (rewrite Nat2Z.id; lia).
    assert (forall k', take (length buf + k') rest = buf ++ take k' rest') as Htake.
    { intros k'. rewrite Erest at 1. by rewrite take_app_add. }
    assert (forall ci0,
      exists tr ci' k,
        relay ML MB f connfd rest' err ci0 (il + Z.of_nat (length buf))
          (State h c m [] (t ++ [EvWrite connfd buf true]))
        = Done (Some (ci', il + Z.of_nat k)) (State h c m [] (t ++ tr))
        /\ (k <= length rest)%nat
        /\ (err = false -> k = length rest)
        /\ (err = true ->
            (exists j, k = (j * Z.to_nat ML)%nat)
            /\ (length rest < k + Z.to_nat ML)%nat)
        /\ written connfd tr = take k rest
        /\ (forall fd, fd <> connfd -> written fd tr = [])
        /\ (il + Z.of_nat k < MAX_OBJECT_SIZE -> ci' = ci0 ++ take (k - length buf) rest')
        /\ (length buf <= k)%nat) as Hstep.
    { intros ci0.
      destruct (IH rest' ci0 (il + Z.of_nat (length buf))
                  (t ++ [EvWrite connfd buf true]))
        as (tr & ci' & k & Hrun & Hk & Hnoerr & Herr & Hw & Hother & Hci);
        [lia|lia|exact Hf'|].
      exists (EvWrite connfd buf true :: tr), ci', (length buf + k)%nat.
      split.
      { rewrite Hrun. f_equal; [do 2 f_equal; lia|]. f_equal.
        by rewrite <- app_assoc. }
      split; [lia|]. split.
      { intros E. rewrite (Hnoerr E). lia. }
      split.
      { intros E. destruct (Herr E) as [[j Hj] Hlt]. rewrite (Hfull E).
        split; [exists (S j); lia|lia]. }
      split.
      { change (EvWrite connfd buf true :: tr) with ([EvWrite connfd buf true] ++ tr).
        rewrite written_app, Hw, Htake. cbn. by rewrite Z.eqb_refl, app_nil_r. }
      split.
      { intros fd Hfd.
        change (EvWrite connfd buf true :: tr) with ([EvWrite connfd buf true] ++ tr).
        rewrite written_app, (Hother fd Hfd). cbn.
        by replace (fd =? connfd) with false by (symmetry; apply Z.eqb_neq; exact Hfd). }
      split; [|lia].
      intros Hs. replace (length buf + k - length buf)%nat with k by lia.
      apply Hci. lia. }
    destruct (il + Z.of_nat (length buf) <? MAX_OBJECT_SIZE) eqn:Hcmp.
    + destruct (Hstep (ci ++ buf))
        as (tr & ci' & k & Hrun & Hk & Hnoerr & Herr & Hw & Hother & Hci & Hge).
      exists tr, ci', k. split; [exact Hrun|]. split; [done|]. split; [done|].
      split; [done|]. split; [done|]. split; [done|].
      intros Hs. rewrite (Hci Hs), <- app_assoc. f_equal.
      replace k with (length buf + (k - length buf))%nat at 2 by lia.
      by rewrite Htake.
    + apply Z.ltb_ge in Hcmp.
      destruct (Hstep ci)
        as (tr & ci' & k & Hrun & Hk & Hnoerr & Herr & Hw & Hother & Hci & Hge).
      exists tr, ci', k. split; [exact Hrun|]. split; [done|]. split; [done|].
      split; [done|]. split; [done|]. split; [done|]. lia.
  - apply Z.ltb_ge in Hpos.
    assert (rest = []) as E0.
    { destruct rest as [|x r]; [done|]. cbn [length] in Ebuf. lia. }
    exists [], ci, 0%nat. unfold ret. rewrite take_0, !app_nil_r, Z.add_0_r.
    rewrite E0. simpl.
    split; [done|]. split; [lia|]. split; [done|]. split.
    { intros ->. cbn [andb] in Hfail. apply Z.ltb_ge in Hfail. lia. }
    done.
Qed.

Lemma gettext_miss_inv s pins ps fuel u fd :
  cache_inv s pins ps -> u ∉ cache_keys s -> (length ps <= fuel)%nat ->
  cache_gettext fuel u fd s = Done false s.
Proof.
  intros Hinv Hu Hf. unfold cache_gettext.
  by rewrite (bind_Done _ _ _ _ _
                (pin_miss _ _ _ _ _ Hinv (not_key_find _ _ _ _ Hinv Hu) Hf)).
Qed.

Lemma confirm_eq p :
  exists ev,
    (forall h c m w t,
        confirm_connection p (State h c m w t) = Done tt (State h c m w (t ++ [ev])))
    /\ forall fd, written fd [ev] = [].
Proof.
  destruct p as [[a b]|msg]; eexists; split; try (intros; reflexivity).
Qed.

Lemma parser_new_eq h c m w t :
  parser_new (State h c m w t)
  = Done (Parser None []) (State h c m w (t ++ [EvParserNew])).
Proof. reflexivity. Qed.

Lemma open_clientfd_eq fd resp hn pn h c m w t :
  open_clientfd (Some (fd, resp)) hn pn (State h c m w t)
  = Done fd (State h c m w (t ++ [EvOpen hn pn fd])).
Proof. reflexivity. Qed.

(** X11.  A request that misses the cache, with no reader in flight, an
    origin that connects, all writes going through and every header line
    fitting in [buf]: [serve] sends the origin the header block, hands the
    client in order the [k] bytes that [rio_readnb] delivers, closes the
    origin and frees the parser, in that order.  When no read fails, [k]
    bytes are the whole response; when the stream ends in a failed read,
    they are its whole reads of [MAXLINE] bytes and the rest is dropped.
    If [k] is less than [MAX_OBJECT_SIZE], these [k] bytes are then in the
    cache under the URI of the request, also after a failed read; if not,
    the cache is as it was. *)
Theorem serve_miss_relays ML MB fuel pr l0 r hs t0 rest fd resp err junk connfd s :
  reachable s [] -> wfail s = [] ->
  Forall (fun rh => rh.1 <> CRLF) hs ->
  header_fits ML r (Parser (Some r) (map snd hs)) ->
  0 < ML -> 0 <= fd -> fd <> connfd ->
  req_uri r ∉ cache_keys s ->
  Z.of_nat (length resp) < 2 ^ 64 ->
  (length resp + Z.to_nat ML <= fuel * Z.to_nat ML)%nat ->
  (length (cache_list s) < fuel)%nat ->
  exists s' tr tail k,
    serve ML MB fuel
      (Env pr ((l0, TRequest r) :: header_lines hs ++ (CRLF, t0) :: rest)
           (Some (fd, resp)) err junk) connfd s = Done tt s'
    /\ trace s' = trace s ++ tr ++ [EvClose fd; EvParserFree]
    /\ (k <= length resp)%nat
    /\ (err = false -> k = length resp)
    /\ (err = true ->
        (exists j, k = (j * Z.to_nat ML)%nat)
        /\ (length resp < k + Z.to_nat ML)%nat)
    /\ written connfd tr = take k resp
    /\ written fd tr
       = bytes (origin_header r (Parser (Some r) (map snd hs))) ++ tail
    /\ reachable s' []
    /\ cache_view s'
       = if Z.of_nat k <? MAX_OBJECT_SIZE
         then lru_insert (req_uri r) (take k resp) (cache_view s)
         else cache_view s.
Proof.
  intros Hr Hw Hne Hfit HML Hfd Hfdne Hu H64 Hfuel Hfc.
  destruct s as [h c m w t]. cbn in Hw. subst w. cbn [trace].
  set (p := Parser (Some r) (map snd hs)) in *.
  destruct (confirm_eq pr) as (ev0 & Hconf & Hev0).
  set (t2 := (t ++ [ev0]) ++ [EvParserNew]).
  assert (same_cache (State h c m [] t) (State h c m [] t2)) as F2 by done.
  pose proof (same_cache_reachable _ _ _ F2 Hr) as Hr2.
  destruct (reachable_inv _ _ Hr2) as [ps Hinv2].
  assert (length ps < fuel)%nat as Hps.
  { destruct (cache_inv_view _ _ _ Hinv2) as [<- _].
    by rewrite (same_cache_list _ _ F2). }
  assert (cache_gettext fuel (req_uri r) connfd (State h c m [] t2)
          = Done false (State h c m [] t2)) as Hget.
  { eapply gettext_miss_inv; [exact Hinv2| |lia].
    by rewrite (same_cache_keys _ _ F2). }
  set (t3 := t2 ++ [EvOpen (host r) (port r) fd]).
  destruct (write_header_ok ML junk fd r p h c m t3 Hfit) as (tail & Hwh & _).
  set (hdr := [EvWrite fd (bytes (request_line r)) true;
               EvWrite fd (bytes (host_block r p)) true]
              ++ map (fun x => EvWrite fd (bytes (header_line x)) true)
                   (List.filter passes (p_headers p))
              ++ [EvWrite fd (bytes CRLF ++ tail) true]) in *.
  destruct (relay_reads ML MB connfd fuel resp err [] 0 h c m (t3 ++ hdr))
    as (body & ci & k & Hrel & Hk & Hnoerr & Herr & Hbody & Hother & Hci);
    [lia|lia|lia|exact Hfuel|].
  rewrite Z.add_0_l in Hrel, Hci. rewrite app_nil_l in Hci.
  assert (written fd hdr = bytes (origin_header r p) ++ tail) as Hhdr.
  { unfold hdr. rewrite !written_app, written_writes, origin_header_bytes.
    cbn [written flat_map]. rewrite Z.eqb_refl, <- !app_assoc, !app_nil_r. done. }
  assert (written connfd hdr = []) as Hhdr'.
  { assert ((connfd =? fd) = false) as E by (apply Z.eqb_neq; congruence).
    unfold hdr. rewrite !written_app.
    assert (forall l, written connfd
                        (map (fun x => EvWrite fd (bytes (header_line x)) true) l)
                      = []) as Hmap.
    { induction l as [|x l IH]; [done|]. cbn. by rewrite E. }
    rewrite Hmap. cbn. by rewrite E. }
  assert (exists s',
    serve ML MB fuel
      (Env pr ((l0, TRequest r) :: header_lines hs ++ (CRLF, t0) :: rest)
           (Some (fd, resp)) err junk) connfd (State h c m [] t)
    = Done tt s'
    /\ trace s' = ((t3 ++ hdr) ++ body) ++ [EvClose fd; EvParserFree]
    /\ reachable s' []
    /\ cache_view s'
       = if Z.of_nat k <? MAX_OBJECT_SIZE
         then lru_insert (req_uri r) (take k resp) (cache_view (State h c m [] t))
         else cache_view (State h c m [] t)) as (s' & Hrun & Ht' & Hr' & Hv').
  { unfold serve. cbn [peer client_lines origin read_err stack].
    rewrite (bind_Done _ _ _ _ _ (Hconf h c m [] t)).
    rewrite (bind_Done _ _ _ _ _ (parser_new_eq h c m [] (t ++ [ev0]))).
    rewrite (bind_Done _ _ _ _ _
               (parse_request_ok ML MB l0 r hs t0 rest connfd _ Hne)).
    cbn beta iota. change (0 <? 0) with false. cbv iota.
    fold t2. rewrite (bind_Done _ _ _ _ _ Hget). cbv iota.
    rewrite (bind_Done _ _ _ _ _
               (open_clientfd_eq fd resp (host r) (port r) h c m [] t2)).
    replace (fd <? 0) with false by (symmetry; apply Z.ltb_ge; lia).
    fold t3. fold p. rewrite (bind_Done _ _ _ _ _ Hwh). fold hdr.
    change (0 <? 0) with false. cbv iota.
    rewrite <- app_assoc. cbn [from_option snd].
    rewrite app_assoc, (bind_Done _ _ _ _ _ Hrel). cbn beta iota.
    destruct (Z.of_nat k <? MAX_OBJECT_SIZE) eqn:Hsmall.
    - apply Z.ltb_lt in Hsmall. rewrite (Hci Hsmall).
      assert (length (take k resp) = k) as Elen
        by (rewrite length_take; lia).
      assert (same_cache (State h c m [] t)
                (State h c m [] ((t3 ++ hdr) ++ body))) as F5 by done.
      pose proof (same_cache_reachable _ _ _ F5 Hr) as Hr5.
      destruct (reachable_inv _ _ Hr5) as [ps5 Hinv5].
      assert (length ps5 < fuel)%nat as Hps5.
      { destruct (cache_inv_view _ _ _ Hinv5) as [<- _].
        by rewrite (same_cache_list _ _ F5). }
      pose proof MAX_OBJECT_le_CACHE.
      destruct (insert_refines _ _ (req_uri r) (take k resp) (Z.of_nat k) fuel
                  Hinv5) as (s6 & ps6 & Hins & Hinv6 & Hv6 & _ & Ht6 & _);
        [lia|lia|exact Hps5|].
      rewrite (bind_Done _ _ _ _ _ Hins).
      unfold close, parser_free, emit, bind.
      eexists. split; [reflexivity|]. cbn [trace]. split.
      { rewrite Ht6. cbn [trace]. by rewrite <- app_assoc. }
      split.
      { assert (reachable s6 []) as Hr6.
        { eapply reach_step; [exact Hr5|]. eapply step_insert; [| |exact Hins]; lia. }
        eapply same_cache_reachable; [|exact Hr6]. done. }
      transitivity (cache_view s6); [reflexivity|].
      rewrite Hv6, (same_cache_view _ _ F5), Nat2Z.id, take_ge by lia. done.
    - unfold close, parser_free, emit, bind, ret.
      eexists. split; [reflexivity|]. cbn [trace]. split.
      { by rewrite <- app_assoc. }
      split; [|reflexivity].
      eapply same_cache_reachable; [|exact Hr]. done. }
  exists s', ([ev0; EvParserNew; EvOpen (host r) (port r) fd] ++ hdr ++ body),
    tail, k.
  split; [exact Hrun|]. split.
  { rewrite Ht'. unfold t3, t2. by rewrite <- !app_assoc. }
  split; [exact Hk|]. split; [exact Hnoerr|]. split; [exact Herr|].
  split.
  { rewrite !written_app, Hhdr', Hbody.
    change [ev0; EvParserNew; EvOpen (host r) (port r) fd]
      with ([ev0] ++ [EvParserNew; EvOpen (host r) (port r) fd]).
    rewrite written_app, Hev0. done. }
  split; [|done].
  rewrite !written_app, Hhdr, (Hother fd Hfdne).
  change [ev0; EvParserNew; EvOpen (host r) (port r) fd]
    with ([ev0] ++ [EvParserNew; EvOpen (host r) (port r) fd]).
  rewrite written_app, Hev0. cbn. by rewrite app_nil_r.
Qed.

Lemma clienterror_bad_request ML MB fd h c m t :
  74 < ML -> 211 < MB ->
  clienterror ML MB fd "400" "Bad Request" "Tiny received a malformed request"
    (State h c m [] t)
  = Done tt (State h c m []
               (t ++ [EvWrite fd (bytes bad_request_head) true;
                      EvWrite fd (bytes bad_request_body) true])).
Proof.
  intros HML HMB. unfold clienterror. cbn zeta.
  match goal with
  | |- context [MB <=? ?x] => let v := eval vm_compute in x in change x with v
  end.
  replace (MB <=? 211) with false by (symmetry; apply Z.leb_gt; lia).
  match goal with
  | |- context [ML <=? ?x] => let v := eval vm_compute in x in change x with v
  end.
  replace (ML <=? 74) with false by (symmetry; apply Z.leb_gt; lia).
  mstep ltac:(apply rio_writen_ok). change (74 <? 0) with false. cbv iota.
  mstep ltac:(apply rio_writen_ok). change (211 <? 0) with false. cbv iota.
  unfold ret. rewrite <- app_assoc. reflexivity.
Qed.

(** X12.  A first line that the parser does not read as a request line:
    [serve] answers the client with the [400 Bad Request] page, whose
    [Content-Length] is the length of the page, frees the parser and
    returns; no origin is contacted and the cache is as it was. *)
Theorem serve_malformed_request ML MB fuel pr l0 tok rest o err junk connfd s :
  wfail s = [] -> 74 < ML -> 211 < MB ->
  (forall r, tok <> TRequest r) ->
  exists s' log,
    serve ML MB fuel (Env pr ((l0, tok) :: rest) o err junk) connfd s = Done tt s'
    /\ trace s' = trace s ++ [log; EvParserNew;
                              EvWrite connfd (bytes bad_request_head) true;
                              EvWrite connfd (bytes bad_request_body) true;
                              EvParserFree]
    /\ (forall fd, written fd [log] = [])
    /\ String.length bad_request_body = 211%nat
    /\ same_cache s s'.
Proof.
  intros Hw HML HMB Htok. destruct s as [h c m w t]. cbn in Hw. subst w.
  destruct (confirm_eq pr) as (ev0 & Hconf & Hev0).
  exists (State h c m [] (t ++ [ev0; EvParserNew;
                              EvWrite connfd (bytes bad_request_head) true;
                              EvWrite connfd (bytes bad_request_body) true;
                              EvParserFree])), ev0.
  split; [|done].
  unfold serve. cbn [peer client_lines origin read_err stack].
  rewrite (bind_Done _ _ _ _ _ (Hconf h c m [] t)).
  rewrite (bind_Done _ _ _ _ _ (parser_new_eq h c m [] (t ++ [ev0]))).
  assert (parse_request ML MB ((l0, tok) :: rest) connfd (Parser None [])
            (State h c m [] ((t ++ [ev0]) ++ [EvParserNew]))
          = Done (-1, fst (parser_parse_line (Parser None []) tok),
                  parser_retrieve (fst (parser_parse_line (Parser None []) tok)))
              (State h c m []
                 (((t ++ [ev0]) ++ [EvParserNew])
                    ++ [EvWrite connfd (bytes bad_request_head) true;
                        EvWrite connfd (bytes bad_request_body) true]))) as Hparse.
  { unfold parse_request.
    destruct tok as [r|x|]; [by destruct (Htok r)| |];
      cbn [parser_parse_line fst];
      by rewrite (bind_Done _ _ _ _ _
                    (clienterror_bad_request ML MB connfd h c m _ HML HMB)). }
  rewrite (bind_Done _ _ _ _ _ Hparse). cbn beta iota.
  change (-1 <? 0) with true. cbv iota.
  unfold parser_free, emit. cbn [blocks cache mutex wfail trace].
  by rewrite <- !app_assoc.
Qed.

Lemma serve_malformed_request_witness :
  exists s' log,
    serve 8192 8192 1
      (Env (inl ("client", "4242")) [("garbage" +:+ CRLF, TError)] None false []) 4
      (State ∅ (Some (CInfo 0 None)) false [] []) = Done tt s'
    /\ trace s' = [log; EvParserNew;
                   EvWrite 4 (bytes bad_request_head) true;
                   EvWrite 4 (bytes bad_request_body) true;
                   EvParserFree].
Proof.
  destruct (serve_malformed_request 8192 8192 1 (inl ("client", "4242"))
              ("garbage" +:+ CRLF) TError [] None false [] 4
              (State ∅ (Some (CInfo 0 None)) false [] []) eq_refl)
    as (s' & log & Hrun & Ht & _); [lia|lia|discriminate|].
  exists s', log. split; [exact Hrun|exact Ht].
Defined.

Lemma read_headers_eof lines p h c m w t :
  Forall (fun l => l.1 <> CRLF) lines ->
  exists p',
    read_headers lines p (State h c m w t)
    = Done (-1, p') (State h c m w (t ++ [EvStderr ("File read error." +:+ NL)])).
Proof.
  revert p. induction lines as [|[buf tok] rest IH]; intros p Hne.
  - by exists p.
  - apply Forall_cons in Hne as [Hb Hne]. cbn in Hb. cbn [read_headers].
    rewrite (proj2 (String.eqb_neq _ _) Hb). by apply IH.
Qed.

(** X13.  Lines that end before the request is complete (no line at all,
    or a request line and no empty line after it): [serve] writes to no
    descriptor, the client gets no answer; it logs [File read error.],
    frees the parser and returns, with the cache as it was. *)
Theorem serve_input_ends_early ML MB fuel pr lines o err junk connfd s :
  lines = [] \/ (exists l0 r ls, lines = (l0, TRequest r) :: ls
                                 /\ Forall (fun l => l.1 <> CRLF) ls) ->
  exists s' log,
    serve ML MB fuel (Env pr lines o err junk) connfd s = Done tt s'
    /\ trace s' = trace s ++ [log; EvParserNew;
                              EvStderr ("File read error." +:+ NL); EvParserFree]
    /\ (forall fd, written fd [log] = [])
    /\ same_cache s s' /\ wfail s' = wfail s.
Proof.
  intros Hl. destruct s as [h c m w t].
  destruct (confirm_eq pr) as (ev0 & Hconf & Hev0).
  exists (State h c m w (t ++ [ev0; EvParserNew;
                              EvStderr ("File read error." +:+ NL); EvParserFree])), ev0.
  split; [|done].
  unfold serve. cbn [peer client_lines origin read_err stack].
  rewrite (bind_Done _ _ _ _ _ (Hconf h c m w t)).
  rewrite (bind_Done _ _ _ _ _ (parser_new_eq h c m w (t ++ [ev0]))).
  assert (exists p' r',
    parse_request ML MB lines connfd (Parser None [])
      (State h c m w ((t ++ [ev0]) ++ [EvParserNew]))
    = Done (-1, p', r')
        (State h c m w (((t ++ [ev0]) ++ [EvParserNew])
                          ++ [EvStderr ("File read error." +:+ NL)])))
    as (p' & r' & Hparse).
  { destruct Hl as [->|(l0 & r & ls & -> & Hne)].
    - by eexists _, _.
    - unfold parse_request.
      cbn [parser_parse_line p_headers parser_retrieve p_request default].
      destruct (read_headers_eof ls (Parser (Some r) []) h c m w
                  ((t ++ [ev0]) ++ [EvParserNew]) Hne) as (p' & Hrd).
      rewrite (bind_Done _ _ _ _ _ Hrd). by eexists _, _. }
  rewrite (bind_Done _ _ _ _ _ Hparse). cbn beta iota.
  change (-1 <? 0) with true. cbv iota.
  unfold parser_free, emit. cbn [blocks cache mutex wfail trace].
  by rewrite <- !app_assoc.
Qed.

Lemma serve_input_ends_early_witness :
  exists s' log,
    serve 8192 8192 1 (Env (inl ("client", "4242")) [] None false []) 4
      (State ∅ (Some (CInfo 0 None)) false [true] []) = Done tt s'
    /\ trace s' = [log; EvParserNew;
                   EvStderr ("File read error." +:+ NL); EvParserFree].
Proof.
  destruct (serve_input_ends_early 8192 8192 1 (inl ("client", "4242")) []
              None false [] 4 (State ∅ (Some (CInfo 0 None)) false [true] []))
    as (s' & log & Hrun & Ht & _); [by left|].
  exists s', log. split; [exact Hrun|exact Ht].
Defined.

(** X14.  A request that misses the cache when no connection to the origin
    can be made: [serve] logs [Could not connect to host:port], calls
    [close] on the [-1] that [open_clientfd] returned, frees the parser and
    returns.  Nothing is written to the client, and the cache is as it
    was. *)
Theorem serve_connect_failure ML MB fuel pr l0 r hs t0 rest err junk connfd s :
  reachable s [] ->
  Forall (fun rh => rh.1 <> CRLF) hs ->
  req_uri r ∉ cache_keys s ->
  (length (cache_list s) <= fuel)%nat ->
  exists s' log,
    serve ML MB fuel
      (Env pr ((l0, TRequest r) :: header_lines hs ++ (CRLF, t0) :: rest)
           None err junk) connfd s = Done tt s'
    /\ trace s' = trace s ++ [log; EvParserNew;
                              EvStderr ("Could not connect to " +:+ host r
                                          +:+ ":" +:+ port r);
                              EvClose (-1); EvParserFree]
    /\ (forall fd, written fd [log] = [])
    /\ same_cache s s' /\ wfail s' = wfail s.
Proof.
  intros Hr Hne Hu Hfc. destruct s as [h c m w t].
  destruct (confirm_eq pr) as (ev0 & Hconf & Hev0).
  set (t2 := (t ++ [ev0]) ++ [EvParserNew]).
  assert (same_cache (State h c m w t) (State h c m w t2)) as F2 by done.
  pose proof (same_cache_reachable _ _ _ F2 Hr) as Hr2.
  destruct (reachable_inv _ _ Hr2) as [ps Hinv2].
  assert (cache_gettext fuel (req_uri r) connfd (State h c m w t2)
          = Done false (State h c m w t2)) as Hget.
  { eapply gettext_miss_inv; [exact Hinv2|by rewrite (same_cache_keys _ _ F2)|].
    destruct (cache_inv_view _ _ _ Hinv2) as [<- _].
    by rewrite (same_cache_list _ _ F2). }
  exists (State h c m w
            (t ++ [ev0; EvParserNew;
                   EvStderr ("Could not connect to " +:+ host r +:+ ":" +:+ port r);
                   EvClose (-1); EvParserFree])), ev0.
  split; [|done].
  unfold serve. cbn [peer client_lines origin read_err stack].
  rewrite (bind_Done _ _ _ _ _ (Hconf h c m w t)).
  rewrite (bind_Done _ _ _ _ _ (parser_new_eq h c m w (t ++ [ev0]))).
  rewrite (bind_Done _ _ _ _ _
             (parse_request_ok ML MB l0 r hs t0 rest connfd _ Hne)).
  cbn beta iota. change (0 <? 0) with false. cbv iota.
  fold t2. rewrite (bind_Done _ _ _ _ _ Hget). cbv iota.
  unfold open_clientfd, ret, bind at 1. change (-1 <? 0) with true. cbv iota.
  unfold close, parser_free, emit, bind. cbn [blocks cache mutex wfail trace].
  unfold t2. by rewrite <- !app_assoc.
Qed.

Lemma serve_connect_failure_witness :
  exists s' log,
    serve 8192 8192 1 (Env (inl ("client", "4242")) lines_a None false []) 4
      (State ∅ (Some (CInfo 0 None)) false [] []) = Done tt s'
    /\ trace s' = [log; EvParserNew;
                   EvStderr "Could not connect to example.org:80";
                   EvClose (-1); EvParserFree].
Proof.
  destruct (serve_connect_failure 8192 8192 1 (inl ("client", "4242"))
              ("GET http://example.org/a.html HTTP/1.1" +:+ CRLF) req_a
              [("Accept: */*" +:+ CRLF, Header "Accept" "*/*")] TError [] false [] 4
              (State ∅ (Some (CInfo 0 None)) false [] []))
    as (s' & log & Hrun & Ht & _).
  - by apply (reach_init []).
  - repeat constructor. discriminate.
  - rewrite init_keys. apply not_elem_of_nil.
  - vm_compute. lia.
  - exists s', log. split; [exact Hrun|exact Ht].
Defined.

(** X15.  A request for a URI that is in the cache, with no reader in
    flight: [serve] hands the client the stored bytes in one write, moves
    the entry to the front, frees the parser and returns.  No origin is
    contacted, whatever origin there is. *)
Theorem serve_hit_replays ML MB fuel pr l0 r hs t0 rest o err junk connfd s tx :
  reachable s [] ->
  Forall (fun rh => rh.1 <> CRLF) hs ->
  lru_lookup (req_uri r) (cache_view s) = Some tx ->
  (length (cache_list s) <= fuel)%nat ->
  exists s' log,
    serve ML MB fuel
      (Env pr ((l0, TRequest r) :: header_lines hs ++ (CRLF, t0) :: rest)
           o err junk) connfd s = Done tt s'
    /\ trace s' = trace s ++ [log; EvParserNew;
                              EvWrite connfd tx
                                (negb (default false (head (wfail s))));
                              EvParserFree]
    /\ (forall fd, written fd [log] = [])
    /\ reachable s' []
    /\ cache_view s' = (req_uri r, tx) :: lru_remove (req_uri r) (cache_view s).
Proof.
  intros Hr Hne Hlook Hfc. destruct s as [h c m w t].
  destruct (confirm_eq pr) as (ev0 & Hconf & Hev0).
  set (t2 := (t ++ [ev0]) ++ [EvParserNew]).
  assert (same_cache (State h c m w t) (State h c m w t2)) as F2 by done.
  pose proof (same_cache_reachable _ _ _ F2 Hr) as Hr2.
  destruct (reachable_inv _ _ Hr2) as [ps Hinv2].
  destruct (gettext_refines _ _ (req_uri r) connfd fuel Hinv2)
    as (s3 & ps3 & Hget & Hinv3 & Hv3 & Ht3).
  { destruct (cache_inv_view _ _ _ Hinv2) as [<- _].
    by rewrite (same_cache_list _ _ F2). }
  rewrite (same_cache_view _ _ F2), Hlook in Hget, Ht3.
  unfold lru_touch in Hv3. rewrite (same_cache_view _ _ F2), Hlook in Hv3.
  cbn [trace wfail] in Ht3.
  exists (State (blocks s3) (cache s3) (mutex s3) (wfail s3)
            (trace s3 ++ [EvParserFree])), ev0.
  split; [|split; [|split; [done|split; [|done]]]].
  - unfold serve. cbn [peer client_lines origin read_err stack].
    rewrite (bind_Done _ _ _ _ _ (Hconf h c m w t)).
    rewrite (bind_Done _ _ _ _ _ (parser_new_eq h c m w (t ++ [ev0]))).
    rewrite (bind_Done _ _ _ _ _
               (parse_request_ok ML MB l0 r hs t0 rest connfd _ Hne)).
    cbn beta iota. change (0 <? 0) with false. cbv iota.
    fold t2. rewrite (bind_Done _ _ _ _ _ Hget). reflexivity.
  - cbn [trace]. rewrite Ht3. unfold t2. by rewrite <- !app_assoc.
  - eapply same_cache_reachable; [|eapply gettext_reachable; [exact Hr2|exact Hget]].
    done.
Qed.

Lemma serve_hit_replays_witness :
  exists s' log,
    serve 8192 8192 1
      (Env (inl ("client", "4242"))
           [("GET /a HTTP/1.1" +:+ CRLF, TRequest (Request "h" "80" "/a" "GET" "/a"));
            (CRLF, TError)] None false []) 4 one_entry = Done tt s'
    /\ trace s' = [log; EvParserNew; EvWrite 4 [Byte.x41] true; EvParserFree]
    /\ cache_view s' = [("/a", [Byte.x41])].
Proof.
  destruct (serve_hit_replays 8192 8192 1 (inl ("client", "4242"))
              ("GET /a HTTP/1.1" +:+ CRLF) (Request "h" "80" "/a" "GET" "/a")
              [] TError [] None false [] 4 one_entry [Byte.x41] one_entry_reachable)
    as (s' & log & Hrun & Ht & _ & _ & Hv).
  - constructor.
  - reflexivity.
  - vm_compute. lia.
  - exists s', log. split; [exact Hrun|]. split; [exact Ht|exact Hv].
Defined.






Lemma header_fits_a : header_fits 8192 req_a parser_a.
Proof.
  split; [vm_compute; discriminate|]. split; [vm_compute; discriminate|].
  repeat constructor. vm_compute. discriminate.
Qed.

Lemma serve_miss_relays_witness :
  exists s' tr tail,
    serve 8192 8192 20
      (Env (inl ("client", "4242")) lines_a
           (Some (5, replicate (Z.to_nat 8193) Byte.x41)) true
           (replicate 64 Byte.xff)) 4
      (State ∅ (Some (CInfo 0 None)) false [] []) = Done tt s'
    /\ trace s' = tr ++ [EvClose 5; EvParserFree]
    /\ written 4 tr = replicate (Z.to_nat 8192) Byte.x41
    /\ written 5 tr = bytes (origin_header req_a parser_a) ++ tail
    /\ cache_view s'
       = [("http://example.org/a.html", replicate (Z.to_nat 8192) Byte.x41)].
Proof.
  destruct (serve_miss_relays 8192 8192 20 (inl ("client", "4242"))
              ("GET http://example.org/a.html HTTP/1.1" +:+ CRLF) req_a
              [("Accept: */*" +:+ CRLF, Header "Accept" "*/*")] TError [] 5
              (replicate (Z.to_nat 8193) Byte.x41) true (replicate 64 Byte.xff) 4
              (State ∅ (Some (CInfo 0 None)) false [] []))
    as (s' & tr & tail & k & Hrun & Ht & Hle & _ & Hk & Hc & Ho & _ & Hv).
  - by apply (reach_init []).
  - reflexivity.
  - repeat constructor. discriminate.
  - exact header_fits_a.
  - lia.
  - lia.
  - lia.
  - rewrite init_keys. apply not_elem_of_nil.
  - rewrite length_replicate. lia.
  - rewrite length_replicate. lia.
  - vm_compute. lia.
  - destruct (Hk eq_refl) as [[j Hj] Hlt].
    rewrite length_replicate in Hle, Hlt.
    assert (k = Z.to_nat 8192) as -> by lia.
    exists s', tr, tail. split; [exact Hrun|]. split; [exact Ht|].
    split; [|split; [exact Ho|]].
    + rewrite Hc, take_replicate. f_equal; lia.
    + rewrite Hv, take_replicate.
      replace (Z.to_nat 8192 `min` Z.to_nat 8193)%nat with (Z.to_nat 8192) by lia.
      vm_compute. reflexivity.
Defined.



